(** * call_google_translate.py: a shallow embedding and its properties

    The script rewrites the dictionary files line by line.  Strings are
    modelled as [string] (byte strings: a non-ASCII character is its UTF-8
    encoding, which the operations used here treat the same way as Python
    treats code points; [str.isdigit] and the patterns made from links
    answer only where the bytes decide what Python does with the code
    points).  The regular expressions of the script are terms of a small
    backtracking matcher with Python's priorities (leftmost start, greedy
    repetition, left alternative first).  The provider is a function given
    to the run; the state of the loop is passed from line to line, with what
    is written to the file and the requests made to the provider recorded in
    it.  A result [None] stands for what is outside the model: a replacement text
    with a backslash, a link whose text is a pattern outside the fragment
    read here or applied to characters beyond ASCII, a sort that compares
    attributes whose being a number the bytes do not decide, a sort of 64
    elements or more by a comparison that is no order.  The pauses between
    requests and the messages on the console are left out. *)

From Stdlib Require Import String Ascii List Bool Arith ZArith Lia.
From Stdlib Require Decimal DecimalString.
From Stdlib Require Import Permutation Sorted OrderedTypeEx.
Import ListNotations.
Open Scope list_scope.
Open Scope string_scope.

(** ** Characters and basic string operations *)

Definition dq : ascii := ascii_of_nat 34.        (* the double quote *)
Definition nl : ascii := ascii_of_nat 10.        (* the newline *)
Definition bsl : ascii := ascii_of_nat 92.       (* the backslash *)

Definition str1 (c : ascii) : string := String c EmptyString.

Definition is_empty (s : string) : bool :=
  match s with EmptyString => true | String _ _ => false end.

(** Python's truth value of a string. *)
Definition truthy (s : string) : bool := negb (is_empty s).

Fixpoint mem_ascii (c : ascii) (cs : list ascii) : bool :=
  match cs with
  | [] => false
  | d :: cs' => Ascii.eqb c d || mem_ascii c cs'
  end.

(** [startswith p s]: [s.startswith(p)]. *)
Fixpoint startswith (p s : string) : bool :=
  match p, s with
  | EmptyString, _ => true
  | String a p', String b s' => Ascii.eqb a b && startswith p' s'
  | String _ _, EmptyString => false
  end.

(** [drop n s]: [s[n:]]; [take n s]: [s[:n]]. *)
Fixpoint drop (n : nat) (s : string) : string :=
  match n, s with
  | 0, _ => s
  | S n', String _ s' => drop n' s'
  | S _, EmptyString => EmptyString
  end.

Fixpoint take (n : nat) (s : string) : string :=
  match n, s with
  | 0, _ => EmptyString
  | S n', String c s' => String c (take n' s')
  | S _, EmptyString => EmptyString
  end.

(** [endswith p s]: [s.endswith(p)]. *)
Definition endswith (p s : string) : bool :=
  Nat.leb (String.length p) (String.length s) &&
  String.eqb (drop (String.length s - String.length p) s) p.

(** [contains p s]: [p in s]. *)
Fixpoint contains (p s : string) : bool :=
  startswith p s ||
  match s with
  | EmptyString => false
  | String _ s' => contains p s'
  end.

(** [replace_all old new s]: [s.replace(old, new)] for a non-empty [old]:
    the occurrences are replaced from the left, without overlap. *)
Fixpoint replace_fuel (fuel : nat) (old new s : string) : string :=
  match fuel with
  | 0 => s
  | S fuel' =>
      match s with
      | EmptyString => EmptyString
      | String c s' =>
          if startswith old s
          then new ++ replace_fuel fuel' old new (drop (String.length old) s)
          else String c (replace_fuel fuel' old new s')
      end
  end.

Definition replace_all (old new s : string) : string :=
  replace_fuel (S (String.length s)) old new s.

(** [split_on c s]: [s.split(c)] for a one-character separator. *)
Fixpoint split_on (c : ascii) (s : string) : list string :=
  match s with
  | EmptyString => [EmptyString]
  | String d s' =>
      if Ascii.eqb d c then EmptyString :: split_on c s'
      else match split_on c s' with
           | [] => [str1 d]
           | w :: ws => String d w :: ws
           end
  end.

(** [join sep l]: [sep.join(l)]. *)
Fixpoint join (sep : string) (l : list string) : string :=
  match l with
  | [] => EmptyString
  | [w] => w
  | w :: ws => w ++ sep ++ join sep ws
  end.

(** [str_of_nat n]: [str(n)], the decimal numeral. *)
Definition str_of_nat (n : nat) : string :=
  DecimalString.NilZero.string_of_uint (Nat.to_uint n).

(** The ASCII digits, and the bytes of the ASCII characters. *)
Definition is_digit_char (c : ascii) : bool :=
  Nat.leb 48 (nat_of_ascii c) && Nat.leb (nat_of_ascii c) 57.

Definition is_ascii_char (c : ascii) : bool := Nat.ltb (nat_of_ascii c) 128.

Fixpoint all_digits (s : string) : bool :=
  match s with
  | EmptyString => true
  | String c s' => is_digit_char c && all_digits s'
  end.

Fixpoint is_ascii (s : string) : bool :=
  match s with
  | EmptyString => true
  | String c s' => is_ascii_char c && is_ascii s'
  end.

(** An ASCII character that is no digit is somewhere in the text. *)
Fixpoint has_ascii_other (s : string) : bool :=
  match s with
  | EmptyString => false
  | String c s' =>
      (is_ascii_char c && negb (is_digit_char c)) || has_ascii_other s'
  end.

(** A text that is not empty and is made of ASCII digits. *)
Definition number (s : string) : bool := truthy s && all_digits s.

(** [isdigit s]: [s.isdigit()].  Python answers True for a text that is not
    empty and whose characters are all digits, and its digits are those of
    Unicode: the ASCII digits, and superscripts, digits of other scripts and
    the like.  The bytes of a text decide the answer in two cases: they are
    all ASCII digits (True), or the text is empty or holds an ASCII character
    that is no digit (False).  For a text whose ASCII characters are all
    digits and which holds characters beyond ASCII the answer depends on the
    table of Unicode, which is not modelled: [None]. *)
Definition isdigit (s : string) : option bool :=
  if number s then Some true
  else if is_empty s || has_ascii_other s then Some false
  else None.

(** The bytes of [s] decide [s.isdigit()]. *)
Definition decided (s : string) : bool :=
  match isdigit s with Some _ => true | None => false end.

(** ** Regular expressions

    The fragment of Python's [re] that the script uses: literal characters,
    [.] (any character but the newline), negated classes, sequence,
    alternation, greedy [*], [+] and [?], and capturing groups. *)

Inductive cls : Type :=
| CChar (c : ascii)
| CDot
| CNot (cs : list ascii).

Definition cls_match (k : cls) (c : ascii) : bool :=
  match k with
  | CChar d => Ascii.eqb c d
  | CDot => negb (Ascii.eqb c nl)
  | CNot cs => negb (mem_ascii c cs)
  end.

Inductive regex : Type :=
| REps
| RCls (k : cls)
| RSeq (a b : regex)
| RAlt (a b : regex)
| RStar (k : cls)
| RPlus (k : cls)
| ROpt (a : regex)
| RGroup (n : nat) (a : regex).

(** The literal string [s] as a regular expression. *)
Fixpoint lit (s : string) : regex :=
  match s with
  | EmptyString => REps
  | String c s' => RSeq (RCls (CChar c)) (lit s')
  end.

(** The groups that took part in a match, most recent first. *)
Definition caps : Type := list (nat * string).

Fixpoint group (n : nat) (cs : caps) : option string :=
  match cs with
  | [] => None
  | (m, v) :: cs' => if Nat.eqb n m then Some v else group n cs'
  end.

(** The part of [s] that was consumed to reach its suffix [s']. *)
Definition consumed (s s' : string) : string :=
  take (String.length s - String.length s') s.

Section Matcher.
Context {R : Type}.

(** Greedy repetition of a class: the longest run first, then shorter. *)
Fixpoint star (k : cls) (s : string) (cont : string -> option R) : option R :=
  match s with
  | String c s' =>
      if cls_match k c
      then match star k s' cont with
           | Some r => Some r
           | None => cont s
           end
      else cont s
  | EmptyString => cont s
  end.

Fixpoint mt (r : regex) (s : string) (cs : caps)
         (cont : string -> caps -> option R) : option R :=
  match r with
  | REps => cont s cs
  | RCls k =>
      match s with
      | String c s' => if cls_match k c then cont s' cs else None
      | EmptyString => None
      end
  | RSeq a b => mt a s cs (fun s1 c1 => mt b s1 c1 cont)
  | RAlt a b =>
      match mt a s cs cont with
      | Some x => Some x
      | None => mt b s cs cont
      end
  | RStar k => star k s (fun s' => cont s' cs)
  | RPlus k =>
      match s with
      | String c s' =>
          if cls_match k c then star k s' (fun s2 => cont s2 cs) else None
      | EmptyString => None
      end
  | ROpt a =>
      match mt a s cs cont with
      | Some x => Some x
      | None => cont s cs
      end
  | RGroup n a => mt a s cs (fun s' c' => cont s' ((n, consumed s s') :: c'))
  end.
End Matcher.

(** A match found in a string: what precedes it, the matched text, the
    groups, and what follows. *)
Record found : Type := mkFound {
  before : string;
  matched : string;
  groups : caps;
  after : string
}.

(** [match_at r s]: [re.match(r, s)], a match starting at the first character. *)
Definition match_at (r : regex) (s : string) : option (string * caps) :=
  mt r s [] (fun s' c => Some (s', c)).

(** [search_from r pre s]: the leftmost match of [r] in [s]; [pre] is the text
    already skipped. *)
Fixpoint search_from (r : regex) (pre s : string) : option found :=
  match match_at r s with
  | Some (s', c) => Some (mkFound pre (consumed s s') c s')
  | None =>
      match s with
      | String ch s1 => search_from r (pre ++ str1 ch) s1
      | EmptyString => None
      end
  end.

(** [re_search r s]: [re.search(r, s)]. *)
Definition re_search (r : regex) (s : string) : option found :=
  search_from r EmptyString s.

(** A replacement template is taken literally when it holds no backslash;
    [re.sub] interprets or rejects the escapes of one that does, which is
    outside this model ([None]). *)
Definition template (repl : string) : option string :=
  if contains (str1 bsl) repl then None else Some repl.

(** [re_sub1 r repl s]: [re.sub(r, repl, s, 1)], the first match replaced. *)
Definition re_sub1 (r : regex) (repl s : string) : option string :=
  match template repl with
  | None => None
  | Some t =>
      match re_search r s with
      | Some f => Some (before f ++ t ++ after f)
      | None => Some s
      end
  end.

(** [sub_fuel]: every match replaced, left to right.  The expressions this is
    used with match no empty string; after an empty match the scan stops. *)
Fixpoint sub_fuel (fuel : nat) (r : regex) (t s : string) : string :=
  match fuel with
  | 0 => s
  | S fuel' =>
      match re_search r s with
      | Some f =>
          if is_empty (matched f) then s
          else before f ++ t ++ sub_fuel fuel' r t (after f)
      | None => s
      end
  end.

(** [re_sub r repl s]: [re.sub(r, repl, s)]. *)
Definition re_sub (r : regex) (repl s : string) : option string :=
  match template repl with
  | None => None
  | Some t => Some (sub_fuel (S (String.length s)) r t s)
  end.

(** [re_findall r s]: [re.findall(r, s)] for an expression whose one group is
    the whole match and which matches no empty string. *)
Fixpoint findall_fuel (fuel : nat) (r : regex) (s : string) : list string :=
  match fuel with
  | 0 => []
  | S fuel' =>
      match re_search r s with
      | Some f =>
          if is_empty (matched f) then []
          else matched f :: findall_fuel fuel' r (after f)
      | None => []
      end
  end.

Definition re_findall (r : regex) (s : string) : list string :=
  findall_fuel (S (String.length s)) r s.

(** ** Compiling a pattern given as text

    [re.sub] receives the text of a link as its pattern.  [re_compile] reads
    the fragment of the pattern syntax made of literal characters, the
    escapes [\[] and [\]], [.], and one greedy [?], [*] or [+] after a
    character.  A brace is literal unless it opens a repetition count, as in
    Python.  Anything else (groups, alternation, anchors, classes, other
    escapes, counts, lazy or stacked repetition) is outside the fragment:
    [None]. *)

Fixpoint skip_digits (s : string) : string :=
  match s with
  | String c s' => if is_digit_char c then skip_digits s' else s
  | EmptyString => s
  end.

(** Whether the text after an opening brace makes it a repetition count:
    digits, an optional comma and digits, and a closing brace; the empty
    pair of braces is literal. *)
Definition brace_is_repeat (rest : string) : bool :=
  if startswith "}" rest then false
  else
    let r1 := skip_digits rest in
    let r2 := match r1 with
              | String c r => if Ascii.eqb c "," then skip_digits r else r1
              | EmptyString => r1
              end in
    startswith "}" r2.

Definition is_repeat_char (c : ascii) : bool := mem_ascii c ["?"; "*"; "+"]%char.

Definition next_atom (s : string) : option (cls * string) :=
  match s with
  | EmptyString => None
  | String c s1 =>
      if Ascii.eqb c bsl then
        match s1 with
        | String d s2 =>
            if mem_ascii d ["["; "]"]%char then Some (CChar d, s2) else None
        | EmptyString => None
        end
      else if Ascii.eqb c "." then Some (CDot, s1)
      else if Ascii.eqb c "{" then
        if brace_is_repeat s1 then None else Some (CChar c, s1)
      else if mem_ascii c ["?"; "*"; "+"; "("; ")"; "|"; "^"; "$"; "["]%char
      then None
      else Some (CChar c, s1)
  end.

Definition next_repeat (k : cls) (s : string) : option (regex * string) :=
  match s with
  | String q s2 =>
      if is_repeat_char q then
        match s2 with
        | String q2 _ =>
            if is_repeat_char q2 then None
            else if Ascii.eqb q "?" then Some (ROpt (RCls k), s2)
            else if Ascii.eqb q "*" then Some (RStar k, s2)
            else Some (RPlus k, s2)
        | EmptyString =>
            if Ascii.eqb q "?" then Some (ROpt (RCls k), s2)
            else if Ascii.eqb q "*" then Some (RStar k, s2)
            else Some (RPlus k, s2)
        end
      else Some (RCls k, s)
  | EmptyString => Some (RCls k, s)
  end.

Fixpoint compile_fuel (fuel : nat) (s : string) : option regex :=
  match fuel with
  | 0 => None
  | S fuel' =>
      match s with
      | EmptyString => Some REps
      | String _ _ =>
          match next_atom s with
          | None => None
          | Some (k, s1) =>
              match next_repeat k s1 with
              | None => None
              | Some (r, s2) =>
                  match compile_fuel fuel' s2 with
                  | None => None
                  | Some r' => Some (RSeq r r')
                  end
              end
          end
      end
  end.

Definition re_compile (s : string) : option regex :=
  compile_fuel (S (String.length s)) s.

(** ** The script's tables and functions *)

Definition supported_languages_map : list (string * string) :=
  [("de", "de"); ("fa", "fa"); ("sv", "sv"); ("ru", "ru");
   ("zh-HK", "zh-TW"); ("pt", "pt"); ("fi", "fi"); ("fr", "fr")].

(** [dict_get m k d]: [m.get(k, d)]. *)
Fixpoint dict_get (m : list (string * string)) (k d : string) : string :=
  match m with
  | [] => d
  | (k', v) :: m' => if String.eqb k k' then v else dict_get m' k d
  end.

(** [BRACKETS]: the closer of an opening bracket. *)
Definition BRACKETS (c : ascii) : option ascii :=
  if Ascii.eqb c "{" then Some "}"%char
  else if Ascii.eqb c "[" then Some "]"%char
  else if Ascii.eqb c "(" then Some ")"%char
  else None.

Definition is_closer (c : ascii) : bool := mem_ascii c ["}"; "]"; ")"]%char.

(** The loop of [balanced_brackets]; the head of [stack] is its top. *)
Fixpoint balanced_loop (line : string) (stack : list ascii) : bool :=
  match line with
  | EmptyString => match stack with [] => true | _ :: _ => false end
  | String c rest =>
      match BRACKETS c with
      | Some d => balanced_loop rest (d :: stack)
      | None =>
          if negb (is_closer c) then balanced_loop rest stack
          else match stack with
               | top :: stack' =>
                   if Ascii.eqb c top then balanced_loop rest stack' else false
               | [] => false
               end
      end
  end.

Definition balanced_brackets (line : string) : bool := balanced_loop line [].

Definition important_attrs : list string :=
  ["ambi"; "i"; "i_c"; "is"; "t"; "t_c"; "pref"; "suff"; "name"; "num"; "pro";
   "body"; "being"; "place"; "inhpl"; "inhps"; "plural"; "eu"; "idiom"; "mv";
   "nt"; "phr"; "prov"; "Ql"; "rej"; "rp"; "sp"; "toast"; "lyr"; "bc";
   "epithet"].

Fixpoint mem_str (x : string) (l : list string) : bool :=
  match l with
  | [] => false
  | y :: l' => String.eqb x y || mem_str x l'
  end.

(** [compare_attrs x y]: -1 or 1, never 0; [y.isdigit()] is asked only when
    [x.isdigit()] is false, and there is no answer ([None]) where one that
    is asked has none.  The order [x < y] of Python compares code points,
    which is the order of the bytes of UTF-8. *)
Definition compare_attrs (x y : string) : option Z :=
  match isdigit x with
  | None => None
  | Some true => Some (-1)%Z
  | Some false =>
      match isdigit y with
      | None => None
      | Some true => Some 1%Z
      | Some false =>
          let x_is_important := mem_str x important_attrs in
          let y_is_important := mem_str y important_attrs in
          if x_is_important && negb y_is_important then Some (-1)%Z
          else if negb x_is_important && y_is_important then Some 1%Z
          else if String.ltb x y then Some (-1)%Z
          else Some 1%Z
      end
  end.

(** The order on the keys that [functools.cmp_to_key(compare_attrs)] makes:
    [K(x) < K(y)] is [compare_attrs(x, y) < 0].  It is read by the sort only
    for attributes that are all decided (see [sorted_attrs]), where
    [compare_attrs] always answers; elsewhere it is [false]. *)
Definition key_lt (x y : string) : bool :=
  match compare_attrs x y with
  | Some z => (z <? 0)%Z
  | None => false
  end.

(** ** [sorted]

    CPython's [list.sort] on fewer than 64 elements takes these steps: the
    initial run is counted (and reversed when strictly descending), and the
    remaining elements are inserted by binary search.  From 64 elements on
    it cuts the list into runs and merges them, which is not modelled step
    by step; but the sort is stable, so where the comparison is a strict
    weak order on the items of the list its result is the one sorted
    arrangement that keeps equal items in their order.  The steps for a
    short list, which put every item after its equals, give that
    arrangement, and [weak_sorted] tests on it that the comparison is such
    an order.  From 64 elements on with a comparison that is no such order
    the result depends on the merges: [None]. *)

Section Sort.
Variable A : Type.
Variable lt : A -> A -> bool.

Fixpoint run_desc (prev : A) (l : list A) : nat :=
  match l with
  | x :: l' => if lt x prev then S (run_desc x l') else 0
  | [] => 0
  end.

Fixpoint run_asc (prev : A) (l : list A) : nat :=
  match l with
  | x :: l' => if lt x prev then 0 else S (run_asc x l')
  | [] => 0
  end.

(** [count_run]: the length of the initial run and whether it descends. *)
Definition count_run (l : list A) : nat * bool :=
  match l with
  | [] => (0, false)
  | [_] => (1, false)
  | a :: b :: l' =>
      if lt b a then (2 + run_desc b l', true)
      else (2 + run_asc b l', false)
  end.

(** The binary search of [binarysort]: the body runs, then [l < r] is
    tested. *)
Fixpoint bsearch (fuel : nat) (pre : list A) (pivot : A) (l r : nat) : nat :=
  match fuel with
  | 0 => l
  | S fuel' =>
      let p := l + Nat.div2 (r - l) in
      let l' := if lt pivot (nth p pre pivot) then l else S p in
      let r' := if lt pivot (nth p pre pivot) then p else r in
      if Nat.ltb l' r' then bsearch fuel' pre pivot l' r' else l'
  end.

Definition insert_at (k : nat) (x : A) (l : list A) : list A :=
  (firstn k l ++ x :: skipn k l)%list.

Fixpoint binarysort (pre rest : list A) : list A :=
  match rest with
  | [] => pre
  | pivot :: rest' =>
      let k := bsearch (length pre) pre pivot 0 (length pre) in
      binarysort (insert_at k pivot pre) rest'
  end.

(** The steps for a list of two elements or more. *)
Definition sort_steps (l : list A) : list A :=
  let (n, descending) := count_run l in
  let run := firstn n l in
  binarysort (if descending then List.rev run else run) (skipn n l).

(** [weak_sorted l]: [l] is in ascending order, and on the items of [l]
    taken at different places (the sort never compares an item with itself)
    [lt] is a strict weak order: no item is before an earlier one, and an
    item is before a later one exactly when there is a step up between
    them. *)
Fixpoint weak_sorted (l : list A) : bool :=
  match l with
  | a :: ((a' :: rest) as l') =>
      negb (lt a' a) &&
      forallb (fun b => negb (lt b a) &&
                        Bool.eqb (lt a b) (lt a a' || lt a' b)) rest &&
      weak_sorted l'
  | _ => true
  end.

Definition list_sort (l : list A) : option (list A) :=
  if Nat.ltb (length l) 2 then Some l
  else if Nat.ltb (length l) 64 then Some (sort_steps l)
  else if weak_sorted (sort_steps l) then Some (sort_steps l)
  else None.
End Sort.

Arguments list_sort {A} lt l.
Arguments sort_steps {A} lt l.
Arguments weak_sorted {A} lt l.

(** [sorted(attrs, key=functools.cmp_to_key(compare_attrs))]: a list of
    fewer than two attributes is not compared at all; a longer one is
    sorted when all its attributes are decided, so that every comparison
    has its answer. *)
Definition sorted_attrs (attrs : list string) : option (list string) :=
  if Nat.ltb (length attrs) 2 then Some attrs
  else if forallb decided attrs then list_sort key_lt attrs
  else None.

(** ** The patterns of the main loop

    In the comments, Q stands for the escaped double quote of the source. *)

Definition chr (c : ascii) : regex := RCls (CChar c).

Fixpoint rseq (l : list regex) : regex :=
  match l with
  | [] => REps
  | [r] => r
  | r :: l' => RSeq r (rseq l')
  end.

(** The pattern [definition Q > (.* ) <], written without the spaces. *)
Definition re_definition : regex :=
  rseq [lit "definition"; chr dq; chr ">"; RGroup 1 (RStar CDot); chr "<"].

(** The pattern [definition_ (.+) Q >TRANSLATE (?:: (.* ))? <]. *)
Definition re_definition_translation : regex :=
  rseq [lit "definition_"; RGroup 1 (RPlus CDot); chr dq; lit ">TRANSLATE";
       ROpt (rseq [lit ": "; RGroup 2 (RStar CDot)]); chr "<"].

(** The pattern [part_of_speech Q > (.* ) : (.* ) <]. *)
Definition re_pos : regex :=
  rseq [lit "part_of_speech"; chr dq; chr ">"; RGroup 1 (RStar CDot); chr ":";
       RGroup 2 (RStar CDot); chr "<"].

(** The pattern [> (.* ) <]. *)
Definition re_content : regex :=
  rseq [chr ">"; RGroup 1 (RStar CDot); chr "<"].

(** The pattern [Q notes Q > (.* )]. *)
Definition re_notes : regex :=
  rseq [chr dq; lit "notes"; chr dq; chr ">"; RGroup 1 (RStar CDot)].

(** The pattern [(.* )]. *)
Definition re_any : regex := RGroup 1 (RStar CDot).

(** The pattern [notes_ (.+) Q >TRANSLATE<]. *)
Definition re_notes_translation : regex :=
  rseq [lit "notes_"; RGroup 1 (RPlus CDot); chr dq; lit ">TRANSLATE<"].

(** The pattern of a link: an opening brace, characters other than braces,
    a closing brace; or the same with square brackets; one group around. *)
Definition re_link : regex :=
  RGroup 1
    (RAlt (rseq [chr "{"; RStar (CNot ["{"; "}"]%char); chr "}"])
          (rseq [chr "["; RStar (CNot ["["; "]"]%char); chr "]"])).

(** [m.group(n)] of a match object; a group that took no part is [None]. *)
Definition mgroup (n : nat) (m : found) : option string := group n (groups m).

(** [m.group(n)] of a group that every match has. *)
Definition mgroup' (n : nat) (m : found) : string :=
  match mgroup n m with Some v => v | None => EmptyString end.

Definition column_end : string := "</column>".

Definition token (link_number : nat) : string :=
  "DONOTTRANSLATE" ++ str_of_nat link_number.

(** The pattern that a link becomes: its square brackets escaped, the rest
    read as a regular expression. *)
Definition link_pattern (link_match : string) : option regex :=
  re_compile
    (replace_all "]" (String bsl "]") (replace_all "[" (String bsl "[") link_match)).

(** A pattern made of literal characters only. *)
Fixpoint is_literal (r : regex) : bool :=
  match r with
  | REps => true
  | RSeq (RCls (CChar _)) r' => is_literal r'
  | _ => false
  end.

(** Lines 201-205: each link, in turn, replaces its first match by its token.
    The matcher works on the bytes of UTF-8.  A pattern of literal
    characters finds there what Python finds among the code points, and so
    does every pattern of the fragment when the link and the notes are
    ASCII; with a [.] or a repetition in the pattern and a character beyond
    ASCII in the link or in the notes, the bytes would be matched where
    Python matches characters: [None]. *)
Fixpoint shield_loop (links : list string) (link_number : nat) (notes : string)
  : option string :=
  match links with
  | [] => Some notes
  | link_match :: links' =>
      match link_pattern link_match with
      | None => None
      | Some r =>
          if is_literal r || (is_ascii link_match && is_ascii notes) then
            match re_sub1 r (token link_number) notes with
            | None => None
            | Some notes' => shield_loop links' (S link_number) notes'
            end
          else None
      end
  end.

(** Lines 200-205: the links found and the notes with the tokens. *)
Definition shield (notes : string) : option (list string * string) :=
  let link_matches := re_findall re_link notes in
  match shield_loop link_matches 1 notes with
  | None => None
  | Some notes' => Some (link_matches, notes')
  end.

(** ** The state of the run

    [num_errors] and [multiline_notes] are the module-level variables;
    [definition], [notes] and [in_comment] are set at the start of each file;
    [link_matches] is assigned in the loop body and lives on.  [printed] is
    what has been written to the file being rewritten; [calls] records the
    invocations of the provider, text and target language, oldest first. *)

Record state : Type := mkState {
  num_errors : nat;
  multiline_notes : string;
  definition : string;
  notes : string;
  in_comment : bool;
  link_matches : list string;
  printed : list string;
  calls : list (string * string)
}.

Definition set_num_errors (n : nat) (s : state) : state :=
  mkState n (multiline_notes s) (definition s) (notes s) (in_comment s)
          (link_matches s) (printed s) (calls s).

Definition set_multiline_notes (v : string) (s : state) : state :=
  mkState (num_errors s) v (definition s) (notes s) (in_comment s)
          (link_matches s) (printed s) (calls s).

Definition set_definition (v : string) (s : state) : state :=
  mkState (num_errors s) (multiline_notes s) v (notes s) (in_comment s)
          (link_matches s) (printed s) (calls s).

Definition set_notes (v : string) (s : state) : state :=
  mkState (num_errors s) (multiline_notes s) (definition s) v (in_comment s)
          (link_matches s) (printed s) (calls s).

Definition set_in_comment (b : bool) (s : state) : state :=
  mkState (num_errors s) (multiline_notes s) (definition s) (notes s) b
          (link_matches s) (printed s) (calls s).

Definition set_link_matches (l : list string) (s : state) : state :=
  mkState (num_errors s) (multiline_notes s) (definition s) (notes s)
          (in_comment s) l (printed s) (calls s).

Definition snoc {A : Type} (l : list A) (x : A) : list A := (l ++ [x])%list.

(** [print(text)]: the text and a newline, written to the file. *)
Definition print (text : string) (s : state) : state :=
  mkState (num_errors s) (multiline_notes s) (definition s) (notes s)
          (in_comment s) (link_matches s)
          (snoc (printed s) (text ++ str1 nl)) (calls s).

(** [print(line, end='')]. *)
Definition print_raw (line : string) (s : state) : state :=
  mkState (num_errors s) (multiline_notes s) (definition s) (notes s)
          (in_comment s) (link_matches s) (snoc (printed s) line) (calls s).

Definition log_call (text lang : string) (s : state) : state :=
  mkState (num_errors s) (multiline_notes s) (definition s) (notes s)
          (in_comment s) (link_matches s) (printed s)
          (snoc (calls s) (text, lang)).

Definition count_error (s : state) : state := set_num_errors (S (num_errors s)) s.

Definition initial_state : state :=
  mkState 0 EmptyString EmptyString EmptyString false [] [] [].

(** Lines 128-130: the variables set when a file is opened. *)
Definition begin_file (s : state) : state :=
  mkState (num_errors s) (multiline_notes s) EmptyString EmptyString false
          (link_matches s) [] (calls s).

Definition AUTOTRANSLATED : string := " [AUTOTRANSLATED]".
Definition err_definition : string := "<!-- ERROR: Missing definition. -->".
Definition err_brackets : string := "<!-- ERROR: Mismatched brackets. -->".
Definition err_link (link_number : nat) : string :=
  "<!-- ERROR: Missing link #" ++ str_of_nat link_number ++ ". -->".

(** Lines 151 and 208: the language code of a directive, with its
    underscores turned into hyphens, looked up in the table; empty when the
    language is not supported. *)
Definition resolve_language (code : string) : string :=
  dict_get supported_languages_map (replace_all "_" "-" code) EmptyString.

(** Lines 154-155: the override of a directive, when it has one, takes the
    place of the definition. *)
Definition apply_override (s : state) (m : found) : state :=
  match mgroup 2 m with
  | Some g => if truthy g then set_definition g s else s
  | None => s
  end.

(** Line 158: a definition of the form of one link. *)
Definition verbatim (d : string) : bool := startswith "{" d && endswith "}" d.

(** The two renderings of Klingon in Chinese, as UTF-8 bytes. *)
Definition klingon_gong : string :=
  String (ascii_of_nat 229) (String (ascii_of_nat 133) (String (ascii_of_nat 139)
  (String (ascii_of_nat 230) (String (ascii_of_nat 158) (String (ascii_of_nat 151)
  (String (ascii_of_nat 232) (String (ascii_of_nat 178) (String (ascii_of_nat 162)
  EmptyString)))))))).

Definition klingon_gang : string :=
  String (ascii_of_nat 229) (String (ascii_of_nat 133) (String (ascii_of_nat 139)
  (String (ascii_of_nat 230) (String (ascii_of_nat 158) (String (ascii_of_nat 151)
  (String (ascii_of_nat 229) (String (ascii_of_nat 180) (String (ascii_of_nat 151)
  EmptyString)))))))).

(** ** The main loop *)

Section Run.

(** The translation provider: [translator.translate(text, src='en',
    dest=lang).text], or [None] when the call raises. *)
Variable provider : string -> string -> option string.

(** Lines 69-78. *)
Definition translate (text target_lang : string) : string :=
  match provider text target_lang with
  | Some translation_text => translation_text
  | None => EmptyString
  end.

(** Lines 142-147: the source text of the definition. *)
Definition definition_source (s : state) (line : string) : state :=
  match re_search re_definition line with
  | Some m =>
      let s1 := set_definition (mgroup' 1 m) s in
      if truthy (definition s1) then s1
      else count_error (print err_definition s1)
  | None => s
  end.

(** Lines 149-168: a definition to translate. *)
Definition definition_directive (s : state) (line : string)
  : option (state * string) :=
  match re_search re_definition_translation line with
  | None => Some (s, line)
  | Some m =>
      if negb (truthy (definition s)) then Some (s, line)
      else
        let language := resolve_language (mgroup' 1 m) in
        if is_empty language then Some (s, line)
        else
          let s1 := apply_override s m in
          if verbatim (definition s1) then
            match re_sub re_content (">" ++ definition s1 ++ "<") line with
            | Some line' => Some (s1, line')
            | None => None
            end
          else
            let translation_text := translate (definition s1) language in
            let s2 := log_call (definition s1) language s1 in
            if truthy translation_text then
              match re_sub re_content
                      (">" ++ translation_text ++ AUTOTRANSLATED ++ "<") line with
              | Some line' => Some (s2, line')
              | None => None
              end
            else
              match re_sub re_content ">TRANSLATE<" line with
              | Some line' => Some (s2, line')
              | None => None
              end
  end.

(** Lines 171-176: the attributes of a part of speech, sorted. *)
Definition sort_attributes (line : string) : option string :=
  match re_search re_pos line with
  | None => Some line
  | Some m =>
      let pos := mgroup' 1 m in
      match sorted_attrs (split_on "," (mgroup' 2 m)) with
      | None => None
      | Some attrs =>
          re_sub re_content (">" ++ pos ++ ":" ++ join "," attrs ++ "<") line
      end
  end.

(** Lines 179-182: a line holds notes when it has the notes column, or
    whatever it holds while notes are being accumulated. *)
Definition notes_match (s : state) (line : string) : option found :=
  if is_empty (multiline_notes s) then re_search re_notes line
  else re_search re_any line.

(** Lines 187-197: the three cases of a notes line. *)
Definition accumulate (s : state) (g : string) : state :=
  if String.eqb g column_end then set_notes EmptyString s
  else if negb (endswith column_end g) then
    set_multiline_notes (multiline_notes s ++ g ++ str1 nl)
                        (set_notes EmptyString s)
  else
    set_multiline_notes EmptyString
      (set_notes (multiline_notes s ++
                  take (String.length g - String.length column_end) g) s).

(** Lines 186-205: the source text of the notes, then its links shielded. *)
Definition notes_source (s : state) (line : string) : option state :=
  match notes_match s line with
  | None => Some s
  | Some m =>
      let s1 := accumulate s (mgroup' 1 m) in
      match shield (notes s1) with
      | None => None
      | Some (links, notes') => Some (set_notes notes' (set_link_matches links s1))
      end
  end.

(** Lines 213-223: the tokens replaced by their links, one at a time. *)
Fixpoint restore_loop (links : list string) (link_number : nat) (s : state)
         (translation_text missing_links : string)
  : option (state * string * string) :=
  match links with
  | [] => Some (s, translation_text, missing_links)
  | link_match :: links' =>
      match re_sub1 (lit (token link_number)) link_match translation_text with
      | None => None
      | Some text' =>
          if String.eqb text' translation_text then
            restore_loop links' (S link_number)
                         (count_error (print (err_link link_number) s))
                         text' (missing_links ++ link_match)
          else restore_loop links' (S link_number) s text' missing_links
      end
  end.

(** Lines 207-233: notes to translate. *)
Definition notes_directive (s : state) (line : string)
  : option (state * string) :=
  match re_search re_notes_translation line with
  | None => Some (s, line)
  | Some m =>
      if negb (truthy (notes s)) then Some (s, line)
      else
        let language := resolve_language (mgroup' 1 m) in
        if is_empty language then Some (s, line)
        else
          let translation_text := translate (notes s) language in
          let s1 := log_call (notes s) language s in
          if negb (truthy translation_text) then Some (s1, line)
          else
            match restore_loop (link_matches s1) 1 s1 translation_text
                               EmptyString with
            | None => None
            | Some (s2, text, missing_links) =>
                let text' :=
                  if String.eqb language "zh-TW"
                  then replace_all klingon_gong klingon_gang text
                  else text in
                match re_sub re_content
                        (">" ++ text' ++ missing_links ++ AUTOTRANSLATED ++ "<")
                        line with
                | Some line' => Some (s2, line')
                | None => None
                end
            end
  end.

(** Lines 236-237. *)
Definition check_brackets (s : state) (line : string) : state :=
  if negb (balanced_brackets line) then print err_brackets s else s.

(** Lines 137-237: the body for a line outside a comment. *)
Definition process_fields (s : state) (line : string)
  : option (state * string) :=
  match definition_directive (definition_source s line) line with
  | None => None
  | Some (s1, line1) =>
      match sort_attributes line1 with
      | None => None
      | Some line2 =>
          match notes_source s1 line2 with
          | None => None
          | Some s2 =>
              match notes_directive s2 line2 with
              | None => None
              | Some (s3, line3) => Some (check_brackets s3 line3, line3)
              end
          end
      end
  end.

(** Lines 132-244: one line of the file. *)
Definition process_line (s : state) (line : string) : option state :=
  let s0 := if contains "<!-- " line then set_in_comment true s else s in
  match (if negb (in_comment s0) then process_fields s0 line
         else Some (s0, line)) with
  | None => None
  | Some (s1, line1) =>
      let s2 := if contains " -->" line1 then set_in_comment false s1 else s1 in
      Some (print_raw line1 s2)
  end.

Fixpoint process_lines (s : state) (lines : list string) : option state :=
  match lines with
  | [] => Some s
  | line :: lines' =>
      match process_line s line with
      | None => None
      | Some s' => process_lines s' lines'
      end
  end.

(** Lines 126-244: one file, rewritten in place. *)
Definition process_file (s : state) (lines : list string) : option state :=
  process_lines (begin_file s) lines.

(** Lines 123-244: the files in turn; the result has the final state and
    the new contents of the files. *)
Fixpoint process_files (s : state) (files : list (list string))
  : option (state * list (list string)) :=
  match files with
  | [] => Some (s, [])
  | lines :: files' =>
      match process_file s lines with
      | None => None
      | Some s' =>
          match process_files s' files' with
          | None => None
          | Some (s'', outs) => Some (s'', printed s' :: outs)
          end
      end
  end.

(** Lines 121-244. *)
Definition run (files : list (list string))
  : option (state * list (list string)) :=
  process_files initial_state files.

End Run.

(** ** Sample lines and providers *)

(** A column of the dictionary on one line, with its newline. *)
Definition column (name value : string) : string :=
  "<column name=" ++ str1 dq ++ name ++ str1 dq ++ ">" ++ value ++ column_end
  ++ str1 nl.

(** The start of a column, for a value that goes on over the next lines. *)
Definition column_open (name value : string) : string :=
  "<column name=" ++ str1 dq ++ name ++ str1 dq ++ ">" ++ value ++ str1 nl.

(** A provider that answers every request with the same text. *)
Definition provider_const (answer : string) : string -> string -> option string :=
  fun _ _ => Some answer.

(** A provider that returns its input: the identity translation. *)
Definition provider_id : string -> string -> option string :=
  fun text _ => Some text.

(** A provider that raises on every request. *)
Definition provider_down : string -> string -> option string :=
  fun _ _ => None.

(** Whether every character of [s] is in the class [k]. *)
Fixpoint all_match (k : cls) (s : string) : bool :=
  match s with
  | EmptyString => true
  | String c s' => cls_match k c && all_match k s'
  end.

(** A link with a question mark, and notes with ten links. *)
Definition question_link : string := "{nuqDaq 'oH puchpa''e'?:sen}".

Definition ten_links : string := "{a} {b} {c} {d} {e} {f} {g} {h} {i} {j}".

(** A provider that deletes the first token, and the space after it, from
    what it is given. *)
Definition provider_drop_first : string -> string -> option string :=
  fun text _ => Some (replace_all "DONOTTRANSLATE1 " EmptyString text).

(** A state in the middle of a file: a definition and shielded notes have
    been read. *)
Definition sample_state : state :=
  mkState 0 EmptyString "launcher" "see DONOTTRANSLATE1" false ["{Qapla'}"]
          [] [].

(** The text of a line before its content, for a column of a given name. *)
Definition column_pre (name : string) : string :=
  "<column name=" ++ str1 dq ++ name ++ str1 dq.

(** The text of a line after the [<] that ends its content. *)
Definition column_post : string := "/column>" ++ str1 nl.

(** Whether a directive carries an override: group 2 took part in the match
    and is not empty (line 154). *)
Definition has_override (m : found) : bool :=
  match mgroup 2 m with
  | Some g => truthy g
  | None => false
  end.

(** A list in which no element is less than the one before it, for the
    order [lt]. *)
Fixpoint ascending {A : Type} (lt : A -> A -> bool) (l : list A) : Prop :=
  match l with
  | a :: (b :: _) as l' => lt b a = false /\ ascending lt l'
  | _ => True
  end.

(** The number of elements of [l] that satisfy [p]. *)
Definition count_if {A : Type} (p : A -> bool) (l : list A) : nat :=
  length (filter p l).

(** The tier of an attribute: a number, then the attributes specific to the
    part of speech, then the rest. *)
Definition tier (x : string) : nat :=
  if number x then 0 else if mem_str x important_attrs then 1 else 2.

(** [attr_before a b]: [b] may follow [a] in the canonical order: [b] is no
    number, and [a] is a number, or is of a lower tier, or is of the same
    tier and not after [b] in the order of strings. *)
Definition attr_before (a b : string) : Prop :=
  number b = false /\
  (number a = true \/ tier a < tier b \/
   (tier a = tier b /\ String.ltb b a = false)).

(** [numbers attrs]: how many of the attributes are purely numeric, where
    the bytes decide it for every one of them. *)
Fixpoint numbers (attrs : list string) : option nat :=
  match attrs with
  | [] => Some 0
  | x :: attrs' =>
      match isdigit x, numbers attrs' with
      | Some b, Some n => Some ((if b then 1 else 0) + n)
      | _, _ => None
      end
  end.

(** A provider that deletes the second token, and the space before it, from
    what it is given. *)
Definition provider_drop_second : string -> string -> option string :=
  fun text _ => Some (replace_all " DONOTTRANSLATE2" EmptyString text).

(** [replace_first old new s]: [s.replace(old, new, 1)], the first occurrence
    of [old] replaced. *)
Fixpoint replace_first (old new s : string) : string :=
  if startswith old s then new ++ drop (String.length old) s
  else match s with
       | EmptyString => EmptyString
       | String c s' => String c (replace_first old new s')
       end.

(** [index_of c s]: the position of the first [c] in [s], or the length of
    [s] when there is none. *)
Fixpoint index_of (c : ascii) (s : string) : nat :=
  match s with
  | EmptyString => 0
  | String d s' => if Ascii.eqb c d then 0 else S (index_of c s')
  end.

(** An attribute as the files have them: no comma, colon, newline or
    backslash in it. *)
Definition plain_attr (w : string) : bool :=
  negb (contains "," w) && negb (contains ":" w) &&
  negb (contains (str1 nl) w) && negb (contains (str1 bsl) w).

(** The text that opens a part-of-speech column. *)
Definition pos_marker : string := "part_of_speech" ++ str1 dq.

(** The characters that the pattern syntax gives a meaning to, the closing
    brace and bracket apart, which stand for themselves. *)
Definition pattern_char (c : ascii) : bool :=
  mem_ascii c (bsl :: ["."; "{"; "?"; "*"; "+"; "("; ")"; "|"; "^"; "$"; "["]%char).

(** A text without such characters. *)
Fixpoint all_plain (s : string) : bool :=
  match s with
  | EmptyString => true
  | String c s' => negb (pattern_char c) && all_plain s'
  end.

(** The head of a text is no repetition mark. *)
Definition head_ok (s : string) : Prop :=
  match s with
  | EmptyString => True
  | String c _ => is_repeat_char c = false
  end.

(** The literal text [s] followed by the expression [r]. *)
Fixpoint lit_then (s : string) (r : regex) : regex :=
  match s with
  | EmptyString => r
  | String c s' => RSeq (RCls (CChar c)) (lit_then s' r)
  end.

(** A link whose body is plain text without a closing square bracket, in
    braces (and then no repetition count) or in square brackets. *)
Definition plain_link (l : string) : Prop :=
  exists body,
    all_plain body = true /\
    contains (str1 "]") body = false /\
    ((l = "{" ++ body ++ "}" /\ brace_is_repeat (body ++ "}") = false) \/
     l = "[" ++ body ++ "]").

(** The texts with properly nested brackets: the empty text, a character
    that is no bracket before such a text, and such a text between an
    opening bracket and its closer, before such a text. *)
Inductive Balanced : string -> Prop :=
| Balanced_empty : Balanced EmptyString
| Balanced_char (c : ascii) (s : string) :
    BRACKETS c = None -> is_closer c = false -> Balanced s ->
    Balanced (String c s)
| Balanced_wrap (o c : ascii) (s r : string) :
    BRACKETS o = Some c -> Balanced s -> Balanced r ->
    Balanced (String o (s ++ String c r)).

(** [closes stack s]: [s] closes, in turn, the brackets awaited on the
    stack, with properly nested text before, between and after. *)
Fixpoint closes (stack : list ascii) (s : string) : Prop :=
  match stack with
  | [] => Balanced s
  | c :: stack' =>
      exists w r, s = w ++ String c r /\ Balanced w /\ closes stack' r
  end.

(** The brackets of a text, the other characters left out. *)
Fixpoint brackets_only (s : string) : string :=
  match s with
  | EmptyString => EmptyString
  | String c s' =>
      match BRACKETS c with
      | Some _ => String c (brackets_only s')
      | None => if is_closer c then String c (brackets_only s')
                else brackets_only s'
      end
  end.

(** The annotations that the script writes start with this text. *)
Definition is_annotation (t : string) : bool := startswith "<!-- ERROR: " t.

(** [extends s s']: from [s] to [s'] only annotations were written, the
    error counter did not go down, and it went up by no more than the
    number of annotations written. *)
Definition extends (s s' : state) : Prop :=
  exists errs,
    printed s' = (printed s ++ errs)%list /\
    Forall (fun e => is_annotation e = true) errs /\
    num_errors s <= num_errors s' /\
    num_errors s' <= num_errors s + length errs.

(** What a file holds after the run, line by line: the annotations written
    for a line, then the line. *)
Definition written (outs : list (list string * string)) : list string :=
  flat_map (fun o => (fst o ++ [snd o])%list) outs.

(** Whether a language code, its underscores read as hyphens, is a key of
    the table of supported languages. *)
Definition supported (code : string) : bool :=
  mem_str (replace_all "_" "-" code) (map fst supported_languages_map).

(** The text that opens a definition column, and the one that opens a notes
    column. *)
Definition definition_marker : string := "definition" ++ str1 dq.
Definition notes_marker : string := str1 dq ++ "notes" ++ str1 dq.

(** The text of a line before its first newline, and the rest from that
    newline on. *)
Fixpoint first_line (s : string) : string :=
  match s with
  | EmptyString => EmptyString
  | String c s' => if Ascii.eqb c nl then EmptyString
                   else String c (first_line s')
  end.

Fixpoint after_first_line (s : string) : string :=
  match s with
  | EmptyString => EmptyString
  | String c s' => if Ascii.eqb c nl then s else after_first_line s'
  end.

(** [same_but_notes s s']: the two states differ at most in the notes, the
    buffer and the links. *)
Definition same_but_notes (s s' : state) : Prop :=
  num_errors s' = num_errors s /\ definition s' = definition s /\
  in_comment s' = in_comment s /\ printed s' = printed s /\
  calls s' = calls s.

(** [notes_text s line g]: [g] is the text that lines 179-182 take from
    [line]: while notes are accumulated, the line up to its newline;
    otherwise what follows the notes marker, up to the newline. *)
Definition notes_text (s : state) (line g : string) : Prop :=
  (is_empty (multiline_notes s) = false /\ g = first_line line) \/
  (is_empty (multiline_notes s) = true /\
   exists p0 rest, contains (str1 ">") p0 = false /\
                   line = p0 ++ notes_marker ++ ">" ++ rest /\
                   g = first_line rest).

(** [without_fields in_c lines]: read from a point where the comment flag is
    [in_c], every line of [lines] is inside a comment, or opens one, or holds
    none of the words by which the fields are known and has its brackets
    nested. *)
Fixpoint without_fields (in_c : bool) (lines : list string) : bool :=
  match lines with
  | [] => true
  | line :: rest =>
      if in_c || contains "<!-- " line
      then without_fields (negb (contains " -->" line)) rest
      else negb (contains "definition" line) &&
           negb (contains "part_of_speech" line) &&
           negb (contains "notes" line) &&
           balanced_brackets line &&
           without_fields false rest
  end.

(** The shape of what the pattern of a link matches: braces around a text
    without braces, or square brackets around a text without square
    brackets. *)
Definition linkish (l : string) : Prop :=
  exists body,
    (l = "{" ++ body ++ "}" /\ all_match (CNot ["{"; "}"]%char) body = true) \/
    (l = "[" ++ body ++ "]" /\ all_match (CNot ["["; "]"]%char) body = true).

(** [no_link_start p]: no text of the shape of a link, and without the text
    of the tokens in it, starts inside [p], whatever follows [p]; stated
    through the replacement of a first occurrence, which passes over [p]. *)
Definition no_link_start (p : string) : Prop :=
  forall l t x,
    linkish l -> contains "DONOTTRANSLATE" l = false ->
    replace_first l t (p ++ x) = p ++ replace_first l t x.

(** [weave parts tail]: a text cut into pieces: before each link (or token)
    the text that precedes it, and at the end the text after the last one. *)
Fixpoint weave (parts : list (string * string)) (tail : string) : string :=
  match parts with
  | [] => tail
  | (g, l) :: parts' => g ++ l ++ weave parts' tail
  end.

(** The same pieces with the token of number [n], [n + 1], ... in the place
    of each link. *)
Fixpoint with_tokens (n : nat) (parts : list (string * string))
  : list (string * string) :=
  match parts with
  | [] => []
  | (g, _) :: parts' => (g, token n) :: with_tokens (S n) parts'
  end.

(** The pieces of a text as [re_findall] walks through it. *)
Fixpoint parts_fuel (fuel : nat) (r : regex) (s : string)
  : list (string * string) * string :=
  match fuel with
  | 0 => ([], s)
  | S fuel' =>
      match re_search r s with
      | Some f =>
          if is_empty (matched f) then ([], s)
          else let (parts, tail) := parts_fuel fuel' r (after f) in
               ((before f, matched f) :: parts, tail)
      | None => ([], s)
      end
  end.

(** A link that the restoration loop can put back as it is: it opens with a
    brace or a square bracket, and holds no backslash. *)
Definition restorable (l : string) : bool :=
  negb (contains (str1 bsl) l) && (startswith "{" l || startswith "[" l).

(** A line without the text of a directive and without a part-of-speech
    column: nothing in the loop rewrites it. *)
Definition unmarked (line : string) : bool :=
  negb (contains ">TRANSLATE" line) && negb (contains "part_of_speech" line).

(** [kept lines os]: what was written for the lines of a file is, line by
    line, annotations and then one line, which is the line read when that
    line is unmarked. *)
Definition kept (lines : list string) (os : list (list string * string))
  : Prop :=
  Forall2 (fun line o =>
             Forall (fun e => is_annotation e = true) (fst o) /\
             (unmarked line = true -> snd o = line)) lines os.

(** An attribute with the number [n] in its name, for long lists. *)
Definition sample_attr (n : nat) : string := "k" ++ str_of_nat n.

(** ** Bracket validation (C3) *)

Lemma check_brackets_num_errors (s : state) (line : string) :
  num_errors (check_brackets s line) = num_errors s.
Proof.
  unfold check_brackets. destruct (negb (balanced_brackets line)); reflexivity.
Qed.

Lemma check_brackets_printed (s : state) (line : string) :
  balanced_brackets line = false ->
  printed (check_brackets s line) = snoc (printed s) (err_brackets ++ str1 nl).
Proof.
  intros H. unfold check_brackets. rewrite H. reflexivity.
Qed.

Example balanced_examples :
  balanced_brackets "{a[b]c}" = true /\ balanced_brackets "{a[b}c]" = false /\
  balanced_brackets "()" = true /\ balanced_brackets ")(" = false.
Proof. repeat split. Qed.

(** C3: for a rewritten line with unbalanced brackets the program writes the
    error annotation and goes on, but the error counter stays as it was.
    Here the provider answers [Werfer (]: the rewritten line is unbalanced,
    the annotation is written before it, the next line is processed as
    usual, and the run ends with zero errors counted. *)
Theorem C3_mismatched_brackets_not_counted :
  option_map (fun r => (num_errors (fst r), snd r))
    (run (provider_const "Werfer (")
         [[column "definition" "launcher";
           column "definition_de" "TRANSLATE";
           column "definition_fa" "TRANSLATE"]])
  = Some (0, [[column "definition" "launcher";
               err_brackets ++ str1 nl;
               column "definition_de" ("Werfer (" ++ AUTOTRANSLATED);
               err_brackets ++ str1 nl;
               column "definition_fa" ("Werfer (" ++ AUTOTRANSLATED)]]).
Proof. vm_compute. reflexivity. Qed.


(** ** Multiline notes (C8, C9) *)

(** C8: from a state with an empty buffer, outside a comment, the three lines
    (notes column opened with part one, then part two, then part three and
    the terminator) are accepted, leave the three parts joined by newlines,
    without the terminator, as the notes value, and leave the buffer empty.
    After the first and the second line the buffer holds the parts read so
    far and the notes value is empty. *)
Theorem C8_multiline_accumulation
  (provider : string -> string -> option string) (s : state) :
  multiline_notes s = EmptyString ->
  in_comment s = false ->
  exists s1 s2 s3,
    process_line provider s (column_open "notes" "part one") = Some s1 /\
    process_line provider s1 ("part two" ++ str1 nl) = Some s2 /\
    process_line provider s2 ("part three" ++ column_end ++ str1 nl) = Some s3 /\
    multiline_notes s1 = "part one" ++ str1 nl /\
    notes s1 = EmptyString /\
    multiline_notes s2 = "part one" ++ str1 nl ++ "part two" ++ str1 nl /\
    notes s2 = EmptyString /\
    notes s3 = "part one" ++ str1 nl ++ "part two" ++ str1 nl ++ "part three" /\
    multiline_notes s3 = EmptyString.
Proof.
  intros Hm Hc. destruct s as [ne mn d n ic lm pr cl].
  cbn [multiline_notes in_comment] in Hm, Hc. subst mn ic.
  eexists; eexists; eexists.
  split; [vm_compute; reflexivity |].
  split; [vm_compute; reflexivity |].
  split; [vm_compute; reflexivity |].
  repeat split.
Qed.

Lemma C8_multiline_accumulation_witness :
  exists s3,
    process_lines provider_id initial_state
      [column_open "notes" "part one"; "part two" ++ str1 nl;
       "part three" ++ column_end ++ str1 nl] = Some s3 /\
    notes s3 = "part one" ++ str1 nl ++ "part two" ++ str1 nl ++ "part three" /\
    multiline_notes s3 = EmptyString.
Proof.
  destruct (C8_multiline_accumulation provider_id initial_state
              eq_refl eq_refl)
    as (s1 & s2 & s3 & H1 & H2 & H3 & _ & _ & _ & _ & Hn & Hm).
  exists s3. unfold process_lines. rewrite H1, H2, H3.
  split; [reflexivity | split; assumption].
Defined.

(** Opening a file leaves the buffer as the previous file left it. *)
Lemma begin_file_multiline_notes (s : state) :
  multiline_notes (begin_file s) = multiline_notes s.
Proof. reflexivity. Qed.

(** A line that is the terminator alone empties the notes value and leaves
    the buffer as it is. *)
Lemma accumulate_bare_terminator (s : state) :
  multiline_notes (accumulate s column_end) = multiline_notes s /\
  notes (accumulate s column_end) = EmptyString.
Proof. split; reflexivity. Qed.

(** C9: the buffer is not emptied when a file begins.  The first file ends
    inside a notes value; the second file is opened with the buffer still
    holding part one, its first line is taken as the continuation, and the
    notes translated in the second file start with the text of the first. *)
Theorem C9_buffer_carried_into_next_file :
  (exists s1,
     process_file provider_id initial_state [column_open "notes" "part one"]
       = Some s1 /\
     multiline_notes (begin_file s1) = "part one" ++ str1 nl) /\
  option_map snd
    (run provider_id
         [[column_open "notes" "part one"];
          ["part two" ++ column_end ++ str1 nl;
           column "notes_de" "TRANSLATE"]])
  = Some [[column_open "notes" "part one"];
          ["part two" ++ column_end ++ str1 nl;
           column "notes_de"
             ("part one" ++ str1 nl ++ "part two" ++ AUTOTRANSLATED)]].
Proof.
  split.
  - eexists. split; [vm_compute; reflexivity | reflexivity].
  - vm_compute. reflexivity.
Qed.

(** ** Literal patterns *)

Lemma mt_lit {R : Type} (p s : string) (cs : caps)
      (cont : string -> caps -> option R) :
  mt (lit p) s cs cont =
  if startswith p s then cont (drop (String.length p) s) cs else None.
Proof.
  revert s; induction p as [|a p IH]; intros s.
  - destruct s; reflexivity.
  - destruct s as [|d s']; [reflexivity|].
    cbn [lit mt cls_match startswith String.length drop].
    rewrite (Ascii.eqb_sym d a).
    destruct (Ascii.eqb a d); [apply IH | reflexivity].
Qed.

Lemma match_at_lit (p s : string) :
  match_at (lit p) s =
  if startswith p s then Some (drop (String.length p) s, []) else None.
Proof. unfold match_at. apply mt_lit. Qed.

Lemma search_from_lit_absent (p s pre : string) :
  contains p s = false -> search_from (lit p) pre s = None.
Proof.
  revert pre; induction s as [|c s IH]; intros pre H.
  - cbn [contains] in H. apply orb_false_elim in H as [H _].
    cbn [search_from]. rewrite match_at_lit, H. reflexivity.
  - cbn [contains] in H. apply orb_false_elim in H as [H1 H2].
    cbn [search_from]. rewrite match_at_lit, H1. apply IH, H2.
Qed.

Lemma re_sub1_lit_absent (p repl text : string) :
  contains (str1 bsl) repl = false ->
  contains p text = false ->
  re_sub1 (lit p) repl text = Some text.
Proof.
  intros Hb Hp. unfold re_sub1, template, re_search. rewrite Hb.
  rewrite search_from_lit_absent by assumption. reflexivity.
Qed.

(** ** Restoring the links (C1, C2) *)

(** One turn of the restoration loop when the text of the token is nowhere
    in the translation: the error is written, the link is appended to the
    missing links and one error is counted. *)
Lemma restore_step_missing (link_match : string) (links : list string)
      (link_number : nat) (s : state) (text missing : string) :
  contains (str1 bsl) link_match = false ->
  contains (token link_number) text = false ->
  restore_loop (link_match :: links) link_number s text missing =
  restore_loop links (S link_number)
               (count_error (print (err_link link_number) s))
               text (missing ++ link_match).
Proof.
  intros Hb Ht. cbn [restore_loop].
  rewrite re_sub1_lit_absent by assumption.
  rewrite String.eqb_refl. reflexivity.
Qed.

(** C1: a link that holds a question mark is not shielded, because its text
    is used as a pattern in which the question mark makes the character
    before it optional.  With the identity translation the notes come back
    with the link still in place, the restoration finds no token, counts an
    error and appends the link a second time: the text is not reconstructed. *)
Theorem C1_round_trip_fails_on_question_mark :
  shield ("see " ++ question_link) = Some ([question_link], "see " ++ question_link) /\
  option_map (fun r => (fst (fst r), snd r))
    (restore_loop [question_link] 1 initial_state ("see " ++ question_link)
                  EmptyString)
  = Some (count_error (print (err_link 1) initial_state),
          question_link) /\
  option_map (fun r => (num_errors (fst r), snd r))
    (run provider_id
         [[column "notes" ("see " ++ question_link);
           column "notes_de" "TRANSLATE"]])
  = Some (1, [[column "notes" ("see " ++ question_link);
               err_link 1 ++ str1 nl;
               column "notes_de"
                 ("see " ++ question_link ++ question_link ++ AUTOTRANSLATED)]]).
Proof. repeat split; vm_compute; reflexivity. Qed.

(** C2: with ten links, the token of the first link is the beginning of the
    token of the tenth.  When the provider deletes the first token, the
    restoration of link 1 replaces the beginning of token 10: no error is
    recorded for link 1, link 1 lands where link 10 belongs, followed by a
    stray 0, and the error and the appended link are those of link 10. *)
Theorem C2_missing_first_of_ten_links :
  option_map snd (shield ten_links)
  = Some (join " " (map token [1; 2; 3; 4; 5; 6; 7; 8; 9; 10])) /\
  option_map (fun r => (num_errors (fst r), snd r))
    (run provider_drop_first
         [[column "notes" ten_links; column "notes_de" "TRANSLATE"]])
  = Some (1, [[column "notes" ten_links;
               err_link 10 ++ str1 nl;
               column "notes_de"
                 ("{b} {c} {d} {e} {f} {g} {h} {i} {a}0{j}" ++ AUTOTRANSLATED)]]).
Proof. split; vm_compute; reflexivity. Qed.

(** ** The content pattern

    What replacing the content of a line does to a line of the usual shape. *)

Lemma contains_char_cons (c d : ascii) (s : string) :
  contains (str1 c) (String d s) = Ascii.eqb c d || contains (str1 c) s.
Proof.
  cbn [contains str1 startswith]. rewrite andb_true_r. reflexivity.
Qed.

Lemma take_app_length (a b : string) :
  take (String.length a) (a ++ b) = a.
Proof. induction a as [|c a IH]; [destruct b; reflexivity|]. cbn. now rewrite IH. Qed.

Lemma str_length_app (a b : string) :
  String.length (a ++ b) = String.length a + String.length b.
Proof. induction a as [|c a IH]; cbn; [reflexivity | now rewrite IH]. Qed.

Lemma consumed_app (a b : string) : consumed (a ++ b) b = a.
Proof.
  unfold consumed. rewrite str_length_app.
  replace (String.length a + String.length b - String.length b)
    with (String.length a) by lia.
  apply take_app_length.
Qed.

Lemma star_none {R : Type} (k : cls) (s : string) (cont : string -> option R) :
  (forall p q, s = p ++ q -> cont q = None) -> star k s cont = None.
Proof.
  induction s as [|c s IH]; intros H.
  - cbn. apply (H EmptyString). reflexivity.
  - cbn. rewrite IH.
    + destruct (cls_match k c); apply (H EmptyString); reflexivity.
    + intros p q ->. apply (H (String c p)). reflexivity.
Qed.

Lemma star_greedy {R : Type} (k : cls) (a rest : string)
      (cont : string -> option R) (r : R) :
  all_match k a = true ->
  star k rest cont = Some r ->
  star k (a ++ rest) cont = Some r.
Proof.
  induction a as [|c a IH]; intros Ha Hr; [exact Hr|].
  cbn in Ha. apply andb_prop in Ha as [Hc Ha].
  cbn. rewrite Hc, (IH Ha Hr). reflexivity.
Qed.

Lemma str_app_assoc (a b c : string) : (a ++ b) ++ c = a ++ b ++ c.
Proof. induction a as [|x a IH]; cbn; [reflexivity | now rewrite IH]. Qed.

Lemma contains_char_app_r (c : ascii) (p q : string) :
  contains (str1 c) (p ++ q) = false -> contains (str1 c) q = false.
Proof.
  induction p as [|d p IH]; intros H; [exact H|].
  cbn [append] in H. rewrite contains_char_cons in H.
  apply orb_false_elim in H as [_ H]. apply IH, H.
Qed.

Lemma contains_char_head (c d : ascii) (s : string) :
  contains (str1 c) (String d s) = false -> Ascii.eqb d c = false.
Proof.
  rewrite contains_char_cons. intros H.
  apply orb_false_elim in H as [H _]. now rewrite Ascii.eqb_sym.
Qed.

Lemma mt_chr_absent {R : Type} (c : ascii) (s p q : string) (cs : caps)
      (cont : string -> caps -> option R) :
  contains (str1 c) s = false -> s = p ++ q -> mt (chr c) q cs cont = None.
Proof.
  intros H ->. apply contains_char_app_r in H.
  destruct q as [|d q]; [reflexivity|].
  cbn [chr mt cls_match]. now rewrite (contains_char_head _ _ _ H).
Qed.

Lemma match_at_content_gt (s : string) :
  match_at re_content (String ">" s) =
  star CDot s (fun s2 => mt (chr "<") s2 [(1, consumed s s2)]
                            (fun s' c => Some (s', c))).
Proof. reflexivity. Qed.

Lemma match_at_content_other (c : ascii) (s : string) :
  Ascii.eqb c ">" = false -> match_at re_content (String c s) = None.
Proof.
  intros H. unfold match_at, re_content. cbn [rseq mt chr cls_match].
  now rewrite H.
Qed.

Lemma match_at_content_none (s : string) :
  contains (str1 "<") s = false -> match_at re_content s = None.
Proof.
  intros H. destruct s as [|c s]; [reflexivity|].
  destruct (Ascii.eqb c ">") eqn:E.
  - apply Ascii.eqb_eq in E; subst c. rewrite match_at_content_gt.
    apply star_none. intros p q Hs.
    apply (mt_chr_absent "<" s p q); [|exact Hs].
    rewrite contains_char_cons in H. now apply orb_false_elim in H as [_ H].
  - now apply match_at_content_other.
Qed.

Lemma match_at_content_shape (mid post : string) :
  all_match CDot mid = true ->
  contains (str1 "<") post = false ->
  match_at re_content (">" ++ mid ++ "<" ++ post) = Some (post, [(1, mid)]).
Proof.
  intros Hm Hp.
  change (">" ++ mid ++ "<" ++ post) with (String ">" (mid ++ "<" ++ post)).
  rewrite match_at_content_gt.
  apply star_greedy; [exact Hm|].
  change ("<" ++ post) with (String "<" post).
  cbn [star cls_match]. 
  rewrite star_none.
  - cbn. rewrite (consumed_app mid (String "<" post)). reflexivity.
  - intros p q Hs. now apply (mt_chr_absent "<" post p q).
Qed.

Lemma search_from_content_none (s pre : string) :
  contains (str1 "<") s = false -> search_from re_content pre s = None.
Proof.
  revert pre; induction s as [|c s IH]; intros pre H.
  - reflexivity.
  - cbn [search_from]. rewrite (match_at_content_none _ H).
    apply IH. rewrite contains_char_cons in H.
    now apply orb_false_elim in H as [_ H].
Qed.

Lemma str_app_empty_r (a : string) : a ++ EmptyString = a.
Proof. induction a as [|x a IH]; cbn; [reflexivity | now rewrite IH]. Qed.

Lemma search_from_content_shape (pre0 pre mid post : string) :
  contains (str1 ">") pre = false ->
  all_match CDot mid = true ->
  contains (str1 "<") post = false ->
  search_from re_content pre0 (pre ++ ">" ++ mid ++ "<" ++ post) =
  Some (mkFound (pre0 ++ pre) (">" ++ mid ++ "<") [(1, mid)] post).
Proof.
  intros Hpre Hm Hp. revert pre0.
  induction pre as [|c pre IH]; intros pre0.
  - change (EmptyString ++ ">" ++ mid ++ "<" ++ post)
      with (String ">" (mid ++ "<" ++ post)).
    cbn [search_from].
    change (String ">" (mid ++ "<" ++ post)) with (">" ++ mid ++ "<" ++ post).
    rewrite (match_at_content_shape mid post Hm Hp).
    replace (">" ++ mid ++ "<" ++ post) with ((">" ++ mid ++ "<") ++ post)
      by (now rewrite !str_app_assoc).
    rewrite consumed_app, str_app_empty_r. reflexivity.
  - rewrite contains_char_cons in Hpre.
    apply orb_false_elim in Hpre as [Hc Hpre].
    change (String c pre ++ ">" ++ mid ++ "<" ++ post)
      with (String c (pre ++ ">" ++ mid ++ "<" ++ post)).
    cbn [search_from].
    rewrite match_at_content_other by (now rewrite Ascii.eqb_sym).
    rewrite (IH Hpre). rewrite str_app_assoc. reflexivity.
Qed.

(** The content of a line replaced: the text between the first [>] and the
    last [<] of a line makes way for the new text. *)
Lemma re_sub_content_shape (repl pre mid post : string) :
  contains (str1 bsl) repl = false ->
  contains (str1 ">") pre = false ->
  all_match CDot mid = true ->
  contains (str1 "<") post = false ->
  re_sub re_content repl (pre ++ ">" ++ mid ++ "<" ++ post) =
  Some (pre ++ repl ++ post).
Proof.
  intros Hb Hpre Hm Hp. unfold re_sub, template. rewrite Hb.
  cbn [sub_fuel]. unfold re_search.
  rewrite (search_from_content_shape EmptyString pre mid post Hpre Hm Hp).
  cbn [matched before after is_empty append].
  destruct (String.length (pre ++ String ">" (mid ++ String "<" post))) as [|n].
  - reflexivity.
  - cbn [sub_fuel]. unfold re_search.
    rewrite (search_from_content_none post EmptyString Hp). reflexivity.
Qed.

(** ** Provider failure (C7) *)

Lemma truthy_is_empty (s : string) : truthy s = true -> is_empty s = false.
Proof. unfold truthy. now destruct (is_empty s). Qed.

Lemma definition_directive_failure
      (provider : string -> string -> option string)
      (s : state) (line : string) (m : found) :
  re_search re_definition_translation line = Some m ->
  truthy (definition s) = true ->
  is_empty (resolve_language (mgroup' 1 m)) = false ->
  verbatim (definition (apply_override s m)) = false ->
  translate provider (definition (apply_override s m))
            (resolve_language (mgroup' 1 m)) = EmptyString ->
  definition_directive provider s line =
  match re_sub re_content ">TRANSLATE<" line with
  | Some line' =>
      Some (log_call (definition (apply_override s m))
                     (resolve_language (mgroup' 1 m)) (apply_override s m),
            line')
  | None => None
  end.
Proof.
  intros Hm Hd Hl Hv Ht. unfold definition_directive.
  rewrite Hm, Hd, Hl, Hv, Ht. reflexivity.
Qed.

Lemma notes_directive_failure
      (provider : string -> string -> option string)
      (s : state) (line : string) (m : found) :
  re_search re_notes_translation line = Some m ->
  truthy (notes s) = true ->
  is_empty (resolve_language (mgroup' 1 m)) = false ->
  translate provider (notes s) (resolve_language (mgroup' 1 m)) = EmptyString ->
  notes_directive provider s line =
  Some (log_call (notes s) (resolve_language (mgroup' 1 m)) s, line).
Proof.
  intros Hm Hn Hl Ht. unfold notes_directive.
  rewrite Hm, Hn, Hl, Ht. reflexivity.
Qed.

Lemma num_errors_apply_override (s : state) (m : found) :
  num_errors (apply_override s m) = num_errors s.
Proof.
  unfold apply_override. destruct (mgroup 2 m) as [g|]; [|reflexivity].
  destruct (truthy g); reflexivity.
Qed.

Lemma calls_apply_override (s : state) (m : found) :
  calls (apply_override s m) = calls s.
Proof.
  unfold apply_override. destruct (mgroup 2 m) as [g|]; [|reflexivity].
  destruct (truthy g); reflexivity.
Qed.

Lemma star_some {R : Type} (k : cls) (s : string) (cont : string -> option R)
      (r : R) :
  star k s cont = Some r -> exists p q, s = p ++ q /\ cont q = Some r.
Proof.
  induction s as [|c s IH]; intros H.
  - exists EmptyString, EmptyString. split; [reflexivity | exact H].
  - cbn [star] in H. destruct (cls_match k c).
    + destruct (star k s cont) as [x|].
      * destruct (IH H) as (p & q & -> & Hq).
        exists (String c p), q. split; [reflexivity | exact Hq].
      * exists EmptyString, (String c s). split; [reflexivity | exact H].
    + exists EmptyString, (String c s). split; [reflexivity | exact H].
Qed.

Lemma search_from_some (r : regex) (pre s : string) (f : found) :
  search_from r pre s = Some f ->
  exists p q, s = p ++ q /\ match_at r q = Some (after f, groups f).
Proof.
  revert pre; induction s as [|c s IH]; intros pre H.
  - cbn [search_from] in H.
    destruct (match_at r EmptyString) as [[s' cs]|] eqn:E; [|discriminate].
    injection H as <-. exists EmptyString, EmptyString. split; [reflexivity|].
    exact E.
  - cbn [search_from] in H.
    destruct (match_at r (String c s)) as [[s' cs]|] eqn:E.
    + injection H as <-. exists EmptyString, (String c s).
      split; [reflexivity | exact E].
    + destruct (IH _ H) as (p & q & -> & Hq).
      exists (String c p), q. split; [reflexivity | exact Hq].
Qed.

Lemma contains_startswith (x s : string) :
  startswith x s = true -> contains x s = true.
Proof. intros H. destruct s; cbn [contains]; now rewrite H. Qed.

Lemma contains_app_r (x p q : string) :
  contains x q = true -> contains x (p ++ q) = true.
Proof.
  intros H. induction p as [|c p IH]; [exact H|].
  change (String c p ++ q) with (String c (p ++ q)).
  cbn [contains]. rewrite IH. apply orb_true_r.
Qed.

(** A line that matches the notes directive holds the marker. *)
Lemma notes_translation_marker (line : string) (m : found) :
  re_search re_notes_translation line = Some m ->
  contains (String dq ">TRANSLATE<") line = true.
Proof.
  intros H. apply search_from_some in H as (p & q & -> & H).
  apply contains_app_r.
  unfold match_at, re_notes_translation in H. cbn [rseq mt] in H.
  rewrite mt_lit in H.
  destruct (startswith "notes_" q); [|discriminate].
  destruct (drop (String.length "notes_") q) as [|c q1] eqn:Eq1; [discriminate|].
  destruct (cls_match CDot c); [|discriminate].
  apply star_some in H as (p2 & q2 & Hq & H).
  assert (Hq2 : startswith (String dq ">TRANSLATE<") q2 = true).
  { destruct q2 as [|d q3]; [discriminate|].
    cbn [chr mt cls_match] in H.
    destruct (Ascii.eqb d dq) eqn:Ed; [|discriminate].
    rewrite mt_lit in H.
    destruct (startswith ">TRANSLATE<" q3) eqn:E3; [|discriminate].
    change (startswith (String dq ">TRANSLATE<") (String d q3))
      with (Ascii.eqb dq d && startswith ">TRANSLATE<" q3).
    now rewrite E3, (Ascii.eqb_sym dq d), Ed. }
  assert (Eq : q = take (String.length "notes_") q ++ String c (p2 ++ q2)).
  { rewrite <- Hq, <- Eq1. clear.
    generalize (String.length "notes_") as n. revert q.
    induction q as [|x q IH]; intros [|n]; cbn; try reflexivity.
    now rewrite <- IH. }
  rewrite Eq. apply contains_app_r.
  change (String c (p2 ++ q2)) with (String c p2 ++ q2).
  apply contains_app_r. now apply contains_startswith.
Qed.

Section Counting.
Variable provider : string -> string -> option string.

Lemma definition_directive_num_errors (s s' : state) (line line' : string) :
definition_directive provider s line = Some (s', line') ->
num_errors s' = num_errors s.
Proof.
unfold definition_directive.
destruct (re_search re_definition_translation line) as [m|];
  [|intros [= <- _]; reflexivity].
destruct (negb (truthy (definition s))); [intros [= <- _]; reflexivity|].
destruct (is_empty (resolve_language (mgroup' 1 m)));
  [intros [= <- _]; reflexivity|].
destruct (verbatim (definition (apply_override s m))).
- destruct (re_sub _ _ _); [|discriminate].
  intros [= <- _]. apply num_errors_apply_override.
- destruct (truthy _); destruct (re_sub _ _ _); try discriminate;
    intros [= <- _]; apply num_errors_apply_override.
Qed.

Lemma notes_source_num_errors (s s' : state) (line : string) :
notes_source s line = Some s' -> num_errors s' = num_errors s.
Proof.
unfold notes_source. destruct (notes_match s line) as [m|];
  [|intros [= <-]; reflexivity].
destruct (shield _) as [[links notes']|]; [|discriminate].
intros [= <-]. unfold accumulate.
destruct (String.eqb _ _); [reflexivity|].
destruct (negb _); reflexivity.
Qed.

Lemma notes_directive_failing_num_errors (s s' : state) (line line' : string) :
(forall text lang, translate provider text lang = EmptyString) ->
notes_directive provider s line = Some (s', line') ->
num_errors s' = num_errors s /\ line' = line.
Proof.
intros Hf. unfold notes_directive.
destruct (re_search re_notes_translation line) as [m|];
  [|intros [= <- <-]; split; reflexivity].
destruct (negb (truthy (notes s))); [intros [= <- <-]; split; reflexivity|].
destruct (is_empty _); [intros [= <- <-]; split; reflexivity|].
rewrite Hf. cbn [truthy is_empty negb].
intros [= <- <-]; split; reflexivity.
Qed.

End Counting.

(** With a provider that fails on every request, the only error that the
    body of the loop can count on a line is the missing definition. *)
Lemma process_fields_failing_provider
      (provider : string -> string -> option string)
      (s s' : state) (line line' : string) :
  (forall text lang, translate provider text lang = EmptyString) ->
  process_fields provider s line = Some (s', line') ->
  num_errors s' = num_errors (definition_source s line).
Proof.
  intros Hf. unfold process_fields.
  destruct (definition_directive provider (definition_source s line) line)
    as [[s1 line1]|] eqn:E1; [|discriminate].
  destruct (sort_attributes line1) as [line2|]; [|discriminate].
  destruct (notes_source s1 line2) as [s2|] eqn:E2; [|discriminate].
  destruct (notes_directive provider s2 line2) as [[s3 line3]|] eqn:E3;
    [|discriminate].
  intros [= <- _]. rewrite check_brackets_num_errors.
  destruct (notes_directive_failing_num_errors provider _ _ _ _ Hf E3) as [-> _].
  rewrite (notes_source_num_errors _ _ _ E2).
  apply (definition_directive_num_errors provider _ _ _ _ E1).
Qed.

(** C7: when the provider fails (it raises, or returns nothing) on the text
    of a definition directive, the content of the line is replaced by the
    bare marker TRANSLATE, any override dropped; when it fails on the notes,
    the line is left as it is, marker included.  In both cases the request
    is made once and the error counter is unchanged. *)
Theorem C7_provider_failure_keeps_marker
        (provider : string -> string -> option string) (s : state) :
  (forall pre mid post m,
      contains (str1 ">") pre = false ->
      all_match CDot mid = true ->
      contains (str1 "<") post = false ->
      re_search re_definition_translation (pre ++ ">" ++ mid ++ "<" ++ post)
        = Some m ->
      truthy (definition s) = true ->
      is_empty (resolve_language (mgroup' 1 m)) = false ->
      verbatim (definition (apply_override s m)) = false ->
      translate provider (definition (apply_override s m))
                (resolve_language (mgroup' 1 m)) = EmptyString ->
      exists s',
        definition_directive provider s (pre ++ ">" ++ mid ++ "<" ++ post)
          = Some (s', pre ++ ">TRANSLATE<" ++ post) /\
        num_errors s' = num_errors s /\
        calls s' = snoc (calls s) (definition (apply_override s m),
                                   resolve_language (mgroup' 1 m))) /\
  (forall line m,
      re_search re_notes_translation line = Some m ->
      truthy (notes s) = true ->
      is_empty (resolve_language (mgroup' 1 m)) = false ->
      translate provider (notes s) (resolve_language (mgroup' 1 m))
        = EmptyString ->
      exists s',
        notes_directive provider s line = Some (s', line) /\
        contains (String dq ">TRANSLATE<") line = true /\
        num_errors s' = num_errors s /\
        calls s' = snoc (calls s) (notes s, resolve_language (mgroup' 1 m))).
Proof.
  split.
  - intros pre mid post m Hpre Hmid Hpost Hm Hd Hl Hv Ht.
    eexists. split; [|split].
    + rewrite (definition_directive_failure provider s _ m Hm Hd Hl Hv Ht).
      rewrite (re_sub_content_shape ">TRANSLATE<" pre mid post eq_refl
                                    Hpre Hmid Hpost).
      reflexivity.
    + cbn [log_call num_errors]. apply num_errors_apply_override.
    + cbn [log_call calls]. now rewrite calls_apply_override.
  - intros line m Hm Hn Hl Ht.
    eexists. split; [|split; [|split]].
    + apply (notes_directive_failure provider s line m Hm Hn Hl Ht).
    + apply (notes_translation_marker line m Hm).
    + reflexivity.
    + reflexivity.
Qed.

Lemma C7_provider_failure_keeps_marker_witness :
  (exists s',
      definition_directive provider_down sample_state
        (column "definition_de" "TRANSLATE: rocket launcher")
      = Some (s', column "definition_de" "TRANSLATE") /\
      num_errors s' = 0 /\
      calls s' = [("rocket launcher", "de")]) /\
  (exists s',
      notes_directive provider_down sample_state
        (column "notes_zh_HK" "TRANSLATE")
      = Some (s', column "notes_zh_HK" "TRANSLATE") /\
      num_errors s' = 0 /\
      calls s' = [("see DONOTTRANSLATE1", "zh-TW")]).
Proof.
  destruct (C7_provider_failure_keeps_marker provider_down sample_state)
    as [Hd Hn].
  split.
  - edestruct (Hd (column_pre "definition_de") "TRANSLATE: rocket launcher"
                  column_post)
      as (s' & H1 & H2 & H3);
      [reflexivity | reflexivity | reflexivity | vm_compute; reflexivity
       | reflexivity | reflexivity | reflexivity | reflexivity |].
    exists s'. split; [exact H1 | split; [exact H2 | exact H3]].
  - edestruct (Hn (column "notes_zh_HK" "TRANSLATE"))
      as (s' & H1 & _ & H2 & H3);
      [vm_compute; reflexivity | reflexivity | reflexivity | reflexivity |].
    exists s'. split; [exact H1 | split; [exact H2 | exact H3]].
Defined.

(** ** Verbatim definitions (C6) *)

Lemma drop_app_length (a b : string) : drop (String.length a) (a ++ b) = b.
Proof. induction a as [|c a IH]; [destruct b; reflexivity | exact IH]. Qed.

(** A value that is one span in braces passes the test of line 158. *)
Lemma verbatim_span (body : string) : verbatim ("{" ++ body ++ "}") = true.
Proof.
  unfold verbatim. change ("{" ++ body ++ "}") with (String "{" (body ++ "}")).
  cbn [startswith]. rewrite Ascii.eqb_refl. cbn [andb].
  unfold endswith.
  change (String "{" (body ++ "}")) with (("{" ++ body) ++ "}").
  rewrite str_length_app.
  replace (String.length ("{" ++ body) + String.length "}" - String.length "}")
    with (String.length ("{" ++ body)) by lia.
  rewrite drop_app_length.
  replace (Nat.leb (String.length "}")
                   (String.length ("{" ++ body) + String.length "}")) with true.
  - reflexivity.
  - symmetry. apply Nat.leb_le. lia.
Qed.

Section Verbatim.
Variable provider : string -> string -> option string.

Lemma definition_directive_verbatim (s : state) (line : string) (m : found) :
re_search re_definition_translation line = Some m ->
truthy (definition s) = true ->
is_empty (resolve_language (mgroup' 1 m)) = false ->
verbatim (definition (apply_override s m)) = true ->
definition_directive provider s line =
match re_sub re_content (">" ++ definition (apply_override s m) ++ "<") line with
| Some line' => Some (apply_override s m, line')
| None => None
end.
Proof.
intros Hm Hd Hl Hv. unfold definition_directive.
rewrite Hm, Hd, Hl, Hv. reflexivity.
Qed.

Lemma contains_char_app (c : ascii) (a b : string) :
contains (str1 c) (a ++ b) = contains (str1 c) a || contains (str1 c) b.
Proof.
induction a as [|d a IH].
- reflexivity.
- change (String d a ++ b) with (String d (a ++ b)).
  rewrite !contains_char_cons, IH. apply orb_assoc.
Qed.

End Verbatim.

(** A directive with an override in braces that is reached with no
    definition kept is left as it is: the test of line 149 comes before the
    override is read. *)
Example override_without_definition_left_alone :
  definition_directive provider_id initial_state
    (column "definition_de" "TRANSLATE: {Qapla'}")
  = Some (initial_state, column "definition_de" "TRANSLATE: {Qapla'}").
Proof. vm_compute. reflexivity. Qed.

(** C6, as stated, fails for notes: notes that are one link are shielded,
    the token is sent to the provider, and the line written carries the
    annotation. *)
Lemma C6_notes_span_is_sent_and_annotated :
  verbatim "{Qapla'}" = true /\
  option_map (fun r => (calls (fst r), snd r))
    (run provider_id
         [[column "notes" "{Qapla'}"; column "notes_de" "TRANSLATE"]])
  = Some ([("DONOTTRANSLATE1", "de")],
          [[column "notes" "{Qapla'}";
            column "notes_de" ("{Qapla'}" ++ AUTOTRANSLATED)]]).
Proof. split; vm_compute; reflexivity. Qed.

(** ** What is sent to the provider (C5) *)

Lemma restore_loop_calls (links : list string) (n : nat) (s s' : state)
      (text missing text' missing' : string) :
  restore_loop links n s text missing = Some (s', text', missing') ->
  calls s' = calls s.
Proof.
  revert n s text missing.
  induction links as [|link links IH]; intros n s text missing H.
  - cbn [restore_loop] in H. now injection H as <- _ _.
  - cbn [restore_loop] in H.
    destruct (re_sub1 (lit (token n)) link text) as [t|]; [|discriminate].
    destruct (String.eqb t text).
    + now rewrite (IH _ _ _ _ H).
    + apply (IH _ _ _ _ H).
Qed.

Section Sent.
Variable provider : string -> string -> option string.

Lemma notes_source_shield (s s' : state) (line : string) (m : found) :
notes_match s line = Some m ->
notes_source s line = Some s' ->
shield (notes (accumulate s (mgroup' 1 m))) = Some (link_matches s', notes s').
Proof.
intros Hm. unfold notes_source. rewrite Hm.
destruct (shield _) as [[links notes']|]; [|discriminate].
intros [= <-]. reflexivity.
Qed.

Lemma notes_directive_calls (s s' : state) (line line' : string) (m : found) :
re_search re_notes_translation line = Some m ->
truthy (notes s) = true ->
is_empty (resolve_language (mgroup' 1 m)) = false ->
notes_directive provider s line = Some (s', line') ->
calls s' = snoc (calls s) (notes s, resolve_language (mgroup' 1 m)).
Proof.
intros Hm Hn Hl. unfold notes_directive. rewrite Hm, Hn, Hl.
cbn [negb].
destruct (negb (truthy (translate provider (notes s) _))).
- intros [= <- _]. reflexivity.
- destruct (restore_loop _ _ _ _ _) as [[[s2 text] missing]|] eqn:E;
    [|discriminate].
  destruct (re_sub _ _ _); [|discriminate].
  intros [= <- _]. now rewrite (restore_loop_calls _ _ _ _ _ _ _ _ E).
Qed.

Lemma definition_directive_calls (s s' : state) (line line' : string)
    (m : found) :
re_search re_definition_translation line = Some m ->
truthy (definition s) = true ->
is_empty (resolve_language (mgroup' 1 m)) = false ->
verbatim (definition (apply_override s m)) = false ->
definition_directive provider s line = Some (s', line') ->
calls s' = snoc (calls s) (definition (apply_override s m),
                           resolve_language (mgroup' 1 m)).
Proof.
intros Hm Hd Hl Hv. unfold definition_directive. rewrite Hm, Hd, Hl, Hv.
cbv zeta. cbn [negb].
destruct (truthy (translate provider _ _)).
- destruct (re_sub re_content (">" ++ translate provider _ _ ++ _) line);
    [|discriminate].
  intros [= <- _]; cbn [log_call calls]; now rewrite calls_apply_override.
- destruct (re_sub re_content ">TRANSLATE<" line); [|discriminate].
  intros [= <- _]; cbn [log_call calls]; now rewrite calls_apply_override.
Qed.

End Sent.


(** C5, as stated, fails for definitions: a definition with a link in it,
    not of the form of one link, is sent to the provider with the link in
    place. *)
Lemma C5_definition_sent_unshielded :
  verbatim "kind of {nuH:n}" = false /\
  re_findall re_link "kind of {nuH:n}" = ["{nuH:n}"] /\
  option_map (fun r => calls (fst r))
    (run provider_id
         [[column "definition" "kind of {nuH:n}";
           column "definition_de" "TRANSLATE"]])
  = Some [("kind of {nuH:n}", "de")].
Proof. repeat split; vm_compute; reflexivity. Qed.

(** ** The definition kept across lines (C10) *)

Lemma apply_override_none (s : state) (m : found) :
  has_override m = false -> apply_override s m = s.
Proof.
  unfold has_override, apply_override.
  destruct (mgroup 2 m) as [g|]; [|reflexivity].
  now intros ->.
Qed.

Lemma definition_apply_override (s : state) (m : found) :
  definition (apply_override s m) =
  if has_override m then mgroup' 2 m else definition s.
Proof.
  unfold has_override, apply_override, mgroup'.
  destruct (mgroup 2 m) as [g|]; [|reflexivity].
  destruct (truthy g); reflexivity.
Qed.

(** Lines 142-147 leave in [definition] the content of a definition line,
    and what was there on any other line. *)
Lemma definition_source_definition (s : state) (line : string) :
  definition (definition_source s line) =
  match re_search re_definition line with
  | Some m => mgroup' 1 m
  | None => definition s
  end.
Proof.
  unfold definition_source.
  destruct (re_search re_definition line) as [m|]; [|reflexivity].
  cbn [set_definition definition].
  destruct (truthy (mgroup' 1 m)); reflexivity.
Qed.

Section Persist.
Variable provider : string -> string -> option string.

Lemma definition_directive_definition (s s' : state) (line line' : string) :
definition_directive provider s line = Some (s', line') ->
definition s' =
match re_search re_definition_translation line with
| Some m =>
    if truthy (definition s) && negb (is_empty (resolve_language (mgroup' 1 m)))
    then definition (apply_override s m)
    else definition s
| None => definition s
end.
Proof.
unfold definition_directive.
destruct (re_search re_definition_translation line) as [m|];
  [|intros [= <- _]; reflexivity].
destruct (truthy (definition s)); cbn [negb andb];
  [|intros [= <- _]; reflexivity].
destruct (is_empty (resolve_language (mgroup' 1 m))); cbn [negb];
  [intros [= <- _]; reflexivity|].
cbv zeta.
destruct (verbatim (definition (apply_override s m))).
- destruct (re_sub _ _ _); [|discriminate]. intros [= <- _]. reflexivity.
- destruct (truthy (translate provider _ _)).
  + destruct (re_sub re_content (">" ++ translate provider _ _ ++ _) line);
      [|discriminate].
    intros [= <- _]. reflexivity.
  + destruct (re_sub re_content ">TRANSLATE<" line); [|discriminate].
    intros [= <- _]. reflexivity.
Qed.

Lemma definition_directive_empty (s : state) (line : string) :
truthy (definition s) = false ->
definition_directive provider s line = Some (s, line).
Proof.
intros H. unfold definition_directive. rewrite H.
destruct (re_search re_definition_translation line); reflexivity.
Qed.

Lemma notes_source_definition (s s' : state) (line : string) :
notes_source s line = Some s' -> definition s' = definition s.
Proof.
unfold notes_source. destruct (notes_match s line) as [m|];
  [|intros [= <-]; reflexivity].
destruct (shield _) as [[links notes']|]; [|discriminate].
intros [= <-]. unfold accumulate.
destruct (String.eqb _ _); [reflexivity|].
destruct (negb _); reflexivity.
Qed.

Lemma restore_loop_definition (links : list string) (n : nat) (s s' : state)
    (text missing text' missing' : string) :
restore_loop links n s text missing = Some (s', text', missing') ->
definition s' = definition s.
Proof.
revert n s text missing.
induction links as [|link links IH]; intros n s text missing H.
- cbn [restore_loop] in H. now injection H as <- _ _.
- cbn [restore_loop] in H.
  destruct (re_sub1 (lit (token n)) link text) as [t|]; [|discriminate].
  destruct (String.eqb t text).
  + now rewrite (IH _ _ _ _ H).
  + apply (IH _ _ _ _ H).
Qed.

Lemma notes_directive_definition (s s' : state) (line line' : string) :
notes_directive provider s line = Some (s', line') ->
definition s' = definition s.
Proof.
unfold notes_directive.
destruct (re_search re_notes_translation line) as [m|];
  [|intros [= <- _]; reflexivity].
destruct (negb (truthy (notes s))); [intros [= <- _]; reflexivity|].
destruct (is_empty _); [intros [= <- _]; reflexivity|].
cbv zeta.
destruct (negb (truthy (translate provider (notes s) _))).
- intros [= <- _]. reflexivity.
- destruct (restore_loop _ _ _ _ _) as [[[s2 text] missing]|] eqn:E;
    [|discriminate].
  destruct (re_sub _ _ _); [|discriminate].
  intros [= <- _]. now rewrite (restore_loop_definition _ _ _ _ _ _ _ _ E).
Qed.

Lemma check_brackets_definition (s : state) (line : string) :
definition (check_brackets s line) = definition s.
Proof.
unfold check_brackets. destruct (negb (balanced_brackets line)); reflexivity.
Qed.

(** After the definition step, the rest of the body leaves [definition]
  alone. *)
Lemma process_fields_definition (s s' : state) (line line' : string) :
process_fields provider s line = Some (s', line') ->
exists s1 line1,
  definition_directive provider (definition_source s line) line
    = Some (s1, line1) /\
  definition s' = definition s1.
Proof.
unfold process_fields.
destruct (definition_directive provider (definition_source s line) line)
  as [[s1 line1]|]; [|discriminate].
destruct (sort_attributes line1) as [line2|]; [|discriminate].
destruct (notes_source s1 line2) as [s2|] eqn:E2; [|discriminate].
destruct (notes_directive provider s2 line2) as [[s3 line3]|] eqn:E3;
  [|discriminate].
intros [= <- _]. exists s1, line1. split; [reflexivity|].
rewrite check_brackets_definition.
rewrite (notes_directive_definition _ _ _ _ E3).
apply (notes_source_definition _ _ _ E2).
Qed.
End Persist.

Lemma calls_definition_source (s : state) (line : string) :
  calls (definition_source s line) = calls s.
Proof.
  unfold definition_source.
  destruct (re_search re_definition line) as [m|]; [|reflexivity].
  cbn [set_definition definition].
  destruct (truthy (mgroup' 1 m)); reflexivity.
Qed.

(** C10 (amended): on a line outside a comment whose directive, if it is one,
    carries no override, the definition kept after the line is the content
    of the line when the line is a definition line, and what was kept before
    otherwise; nothing else in the body of the loop changes it.  When the
    definition kept is empty, the definition step makes no request and
    leaves the line as it is.  When it is not empty, a directive without
    override for a supported language is translated against it: the request
    made is for the definition kept. *)
Theorem C10_definition_persists
        (provider : string -> string -> option string)
        (s : state) (line : string) :
  (forall s' line',
      process_fields provider s line = Some (s', line') ->
      (forall m, re_search re_definition_translation line = Some m ->
                 has_override m = false) ->
      definition s' = match re_search re_definition line with
                      | Some m => mgroup' 1 m
                      | None => definition s
                      end) /\
  (truthy (definition (definition_source s line)) = false ->
   definition_directive provider (definition_source s line) line
     = Some (definition_source s line, line)) /\
  (forall m s1 line1,
      re_search re_definition_translation line = Some m ->
      has_override m = false ->
      truthy (definition (definition_source s line)) = true ->
      is_empty (resolve_language (mgroup' 1 m)) = false ->
      verbatim (definition (definition_source s line)) = false ->
      definition_directive provider (definition_source s line) line
        = Some (s1, line1) ->
      calls s1 = snoc (calls s)
                      (match re_search re_definition line with
                       | Some m' => mgroup' 1 m'
                       | None => definition s
                       end, resolve_language (mgroup' 1 m))).
Proof.
  split; [|split].
  - intros s' line' H Hno.
    destruct (process_fields_definition provider _ _ _ _ H)
      as (s1 & line1 & H1 & ->).
    rewrite (definition_directive_definition provider _ _ _ _ H1).
    destruct (re_search re_definition_translation line) as [m|] eqn:Em.
    + rewrite (apply_override_none _ m (Hno m eq_refl)).
      destruct (_ && _); apply definition_source_definition.
    + apply definition_source_definition.
  - apply definition_directive_empty.
  - intros m s1 line1 Hm Hno Hd Hl Hv H1.
    assert (Hv' : verbatim (definition (apply_override
                               (definition_source s line) m)) = false)
      by (now rewrite (apply_override_none _ m Hno)).
    rewrite (definition_directive_calls provider _ _ _ _ m Hm Hd Hl Hv' H1).
    rewrite (apply_override_none _ m Hno).
    now rewrite calls_definition_source, definition_source_definition.
Qed.

Lemma C10_definition_persists_witness :
  (exists s' line',
      process_fields provider_id sample_state
        (column "definition_fa" "TRANSLATE") = Some (s', line') /\
      definition s' = "launcher") /\
  definition_directive provider_id
    (definition_source initial_state (column "definition_fa" "TRANSLATE"))
    (column "definition_fa" "TRANSLATE")
  = Some (definition_source initial_state (column "definition_fa" "TRANSLATE"),
          column "definition_fa" "TRANSLATE") /\
  (exists s1 line1,
      definition_directive provider_id
        (definition_source sample_state (column "definition_fa" "TRANSLATE"))
        (column "definition_fa" "TRANSLATE") = Some (s1, line1) /\
      calls s1 = [("launcher", "fa")]).
Proof.
  pose (line := column "definition_fa" "TRANSLATE").
  destruct (C10_definition_persists provider_id sample_state line)
    as (HA & _ & HD).
  destruct (C10_definition_persists provider_id initial_state line)
    as (_ & HC & _).
  split; [|split].
  - pose (r := match process_fields provider_id sample_state line with
               | Some r => r
               | None => (initial_state, EmptyString)
               end).
    assert (Hr : process_fields provider_id sample_state line
                 = Some (fst r, snd r)) by (vm_compute; reflexivity).
    exists (fst r), (snd r). split; [exact Hr|].
    apply (HA (fst r) (snd r) Hr).
    intros m Hm. vm_compute in Hm. injection Hm as <-. reflexivity.
  - apply HC. reflexivity.
  - pose (m := match re_search re_definition_translation line with
               | Some m => m
               | None => mkFound EmptyString EmptyString [] EmptyString
               end).
    pose (r := match definition_directive provider_id
                       (definition_source sample_state line) line with
               | Some r => r
               | None => (initial_state, EmptyString)
               end).
    assert (Hm : re_search re_definition_translation line = Some m)
      by (vm_compute; reflexivity).
    assert (Hno : has_override m = false) by (vm_compute; reflexivity).
    assert (Hl : is_empty (resolve_language (mgroup' 1 m)) = false)
      by (vm_compute; reflexivity).
    assert (Hr : definition_directive provider_id
                   (definition_source sample_state line) line
                 = Some (fst r, snd r)) by (vm_compute; reflexivity).
    exists (fst r), (snd r). split; [exact Hr|].
    exact (HD m (fst r) (snd r) Hm Hno eq_refl Hl eq_refl Hr).
Defined.

(** C10, as stated, fails: the override of a directive takes the place of
    the definition kept, and the directives that follow, for the other
    languages, are translated against the override and not against the
    content of the last definition line. *)
Lemma C10_override_replaces_stored_definition :
  re_search re_definition (column "definition_de" "TRANSLATE: rocket launcher")
    = None /\
  option_map (fun r => (definition (fst r), calls (fst r)))
    (run provider_id
         [[column "definition" "launcher";
           column "definition_de" "TRANSLATE: rocket launcher";
           column "definition_fa" "TRANSLATE"]])
  = Some ("rocket launcher",
          [("rocket launcher", "de"); ("rocket launcher", "fa")]).
Proof. split; vm_compute; reflexivity. Qed.

(** ** The order of the attributes (C4) *)

Section SortProps.
Variable A : Type.
Variable lt : A -> A -> bool.
Variable special : A -> bool.
Hypothesis asym :
  forall x y, special x && special y = false ->
              lt x y = true -> lt y x = false.

Lemma bsearch_spec (pre : list A) (pivot : A) (fuel l r : nat) :
  l < r -> r <= length pre -> r - l <= fuel ->
  (0 < l -> lt pivot (nth (l - 1) pre pivot) = false) ->
  (r < length pre -> lt pivot (nth r pre pivot) = true) ->
  let k := bsearch A lt fuel pre pivot l r in
  k <= length pre /\
  (0 < k -> lt pivot (nth (k - 1) pre pivot) = false) /\
  (k < length pre -> lt pivot (nth k pre pivot) = true).
Proof.
  revert l r. induction fuel as [|fuel IH]; intros l r Hlr Hr Hf Hl Hrr.
  - lia.
  - cbn [bsearch].
    assert (Hd : Nat.div2 (r - l) < r - l) by (apply Nat.lt_div2; lia).
    set (p := l + Nat.div2 (r - l)).
    assert (Hp : l <= p < r)
      by (unfold p; generalize dependent (Nat.div2 (r - l)); intros; lia).
    clearbody p. clear Hd.
    destruct (lt pivot (nth p pre pivot)) eqn:E.
    + destruct (Nat.ltb l p) eqn:Elp.
      * apply Nat.ltb_lt in Elp. apply IH; try lia; try assumption.
        intros _. exact E.
      * apply Nat.ltb_ge in Elp. assert (l = p) by lia. subst l.
        cbv zeta. repeat split; try lia; try assumption.
        intros _. exact E.
    + destruct (Nat.ltb (S p) r) eqn:Elp.
      * apply Nat.ltb_lt in Elp. apply IH; try lia; try assumption.
        intros _. replace (S p - 1) with p by lia. exact E.
      * apply Nat.ltb_ge in Elp. assert (S p = r) by lia. subst r.
        cbv zeta. repeat split; try lia.
        -- intros _. replace (S p - 1) with p by lia. exact E.
        -- exact Hrr.
Qed.

Lemma ascending_tail (a : A) (l : list A) :
  ascending lt (a :: l) -> ascending lt l.
Proof. destruct l as [|b l]; [trivial | now intros [_ H]]. Qed.

Lemma ascending_insert_at (x : A) (pre : list A) (k : nat) :
  ascending lt pre ->
  k <= length pre ->
  (0 < k -> lt x (nth (k - 1) pre x) = false) ->
  (k < length pre -> lt (nth k pre x) x = false) ->
  ascending lt (insert_at A k x pre).
Proof.
  revert k. induction pre as [|a pre IH]; intros k Hasc Hk Hl Hr.
  - cbn in Hk. assert (k = 0) by lia. subst k. exact I.
  - destruct k as [|k].
    + cbn. split; [apply Hr; cbn; lia | exact Hasc].
    + assert (IH' : ascending lt (insert_at A k x pre)).
      { apply IH.
        - now apply ascending_tail in Hasc.
        - cbn in Hk. lia.
        - intros Hk0. specialize (Hl ltac:(lia)).
          replace (S k - 1) with (S (k - 1)) in Hl by lia. exact Hl.
        - intros Hk1. apply (Hr ltac:(cbn; lia)). }
      unfold insert_at in *. cbn [firstn skipn app].
      destruct k as [|k].
      * cbn [firstn skipn app] in *. split; [|exact IH'].
        apply (Hl ltac:(lia)).
      * destruct pre as [|b pre]; [cbn in Hk; lia|].
        cbn [firstn skipn app] in *. split; [|exact IH'].
        now destruct Hasc as [Hab _].
Qed.

Lemma count_if_app (l1 l2 : list A) :
  count_if special (l1 ++ l2) = count_if special l1 + count_if special l2.
Proof. unfold count_if. now rewrite filter_app, length_app. Qed.

Lemma count_if_cons (x : A) (l : list A) :
  count_if special (x :: l) = (if special x then 1 else 0) + count_if special l.
Proof. unfold count_if. cbn. now destruct (special x). Qed.

Lemma count_if_two (l1 l2 : list A) (e x : A) :
  count_if special (l1 ++ x :: l2) <= 1 -> In e l1 ->
  special e && special x = false.
Proof.
  intros H Hin. apply in_split in Hin as (p1 & p2 & ->).
  rewrite count_if_app, count_if_cons, count_if_app, count_if_cons in H.
  destruct (special e), (special x); try reflexivity. lia.
Qed.

Lemma count_if_insert_at (k : nat) (x : A) (l : list A) :
  count_if special (insert_at A k x l) = count_if special (x :: l).
Proof.
  unfold insert_at. rewrite count_if_app, !count_if_cons.
  rewrite <- (firstn_skipn k l) at 3. rewrite count_if_app. lia.
Qed.

Lemma insert_at_perm (k : nat) (x : A) (l : list A) :
  Permutation (x :: l) (insert_at A k x l).
Proof.
  unfold insert_at. rewrite <- (firstn_skipn k l) at 1.
  apply Permutation_middle.
Qed.

Lemma insert_at_not_nil (k : nat) (x : A) (l : list A) :
  insert_at A k x l <> [].
Proof. unfold insert_at. now destruct (firstn k l). Qed.

Lemma binarysort_perm (rest pre : list A) :
  Permutation (pre ++ rest) (binarysort A lt pre rest).
Proof.
  revert pre. induction rest as [|pivot rest IH]; intros pre.
  - cbn. now rewrite app_nil_r.
  - cbn [binarysort]. etransitivity; [|apply IH].
    etransitivity; [symmetry; apply Permutation_middle|].
    change (pivot :: pre ++ rest)%list with ((pivot :: pre) ++ rest)%list.
    apply Permutation_app_tail, insert_at_perm.
Qed.

Lemma binarysort_ascending (rest pre : list A) :
  pre <> [] ->
  ascending lt pre ->
  count_if special (pre ++ rest) <= 1 ->
  ascending lt (binarysort A lt pre rest).
Proof.
  revert pre. induction rest as [|pivot rest IH]; intros pre Hne Hasc Hc.
  - exact Hasc.
  - cbn [binarysort].
    assert (Hlen : 0 < length pre) by (destruct pre; [contradiction | cbn; lia]).
    destruct (bsearch_spec pre pivot (length pre) 0 (length pre))
      as (Hk & Hl & Hr); try lia.
    set (k := bsearch A lt (length pre) pre pivot 0 (length pre)) in *.
    apply IH.
    + apply insert_at_not_nil.
    + apply ascending_insert_at; try assumption.
      intros Hk1. apply asym; [|apply (Hr Hk1)].
      rewrite andb_comm.
      apply (count_if_two pre rest); [exact Hc|].
      now apply nth_In.
    + rewrite count_if_app, count_if_insert_at.
      rewrite count_if_app, count_if_cons in Hc.
      rewrite count_if_cons. lia.
Qed.

Lemma run_asc_ascending (l : list A) (a : A) :
  ascending lt (firstn (S (run_asc A lt a l)) (a :: l)).
Proof.
  revert a. induction l as [|x l IH]; intros a.
  - exact I.
  - cbn [run_asc]. destruct (lt x a) eqn:E.
    + exact I.
    + specialize (IH x). cbn [firstn] in *. split; [exact E | exact IH].
Qed.

Lemma ascending_snoc (l : list A) (b a : A) :
  ascending lt (l ++ [b]) -> lt a b = false ->
  ascending lt ((l ++ [b]) ++ [a]).
Proof.
  induction l as [|x l IH]; intros Hasc Hab.
  - cbn. split; [exact Hab | exact I].
  - destruct l as [|y l].
    + cbn in *. destruct Hasc as [H1 _]. repeat split; assumption.
    + cbn [app] in *. destruct Hasc as [H1 H2]. split; [exact H1|].
      apply IH; assumption.
Qed.

Lemma run_desc_rev_ascending (l : list A) (a : A) :
  count_if special (a :: l) <= 1 ->
  ascending lt (rev (firstn (S (run_desc A lt a l)) (a :: l))).
Proof.
  revert a. induction l as [|x l IH]; intros a Hc.
  - exact I.
  - cbn [run_desc]. destruct (lt x a) eqn:E.
    + assert (Hxa : lt a x = false).
      { apply asym; [|exact E]. rewrite andb_comm.
        apply (count_if_two [a] l); [exact Hc | now left]. }
      specialize (IH x). rewrite count_if_cons in Hc.
      specialize (IH ltac:(lia)).
      change (firstn (S (S (run_desc A lt x l))) (a :: x :: l))
        with (a :: firstn (S (run_desc A lt x l)) (x :: l)).
      cbn [firstn] in IH. cbn [firstn rev] in *.
      apply ascending_snoc; assumption.
    + exact I.
Qed.

Lemma run_asc_full (l : list A) (a : A) :
  ascending lt (a :: l) -> run_asc A lt a l = length l.
Proof.
  revert a. induction l as [|x l IH]; intros a H.
  - reflexivity.
  - destruct H as [H1 H2]. cbn [run_asc length]. rewrite H1.
    now rewrite (IH x H2).
Qed.

Lemma count_if_perm (l l' : list A) :
  Permutation l l' -> count_if special l = count_if special l'.
Proof.
  induction 1 as [|x l l' _ IH|x y l|l l' l'' _ IH1 _ IH2].
  - reflexivity.
  - rewrite !count_if_cons. now rewrite IH.
  - rewrite !count_if_cons. lia.
  - now rewrite IH1.
Qed.

Lemma ascending_short (l : list A) : length l < 2 -> ascending lt l.
Proof. destruct l as [|a [|b l]]; cbn; intros; try exact I. lia. Qed.

(** The result of the steps on a list with at most one special element: in
    ascending order, and a permutation of the list. *)
Lemma sort_steps_ascending (l : list A) :
  2 <= length l ->
  count_if special l <= 1 ->
  ascending lt (sort_steps lt l) /\ Permutation l (sort_steps lt l).
Proof.
  intros E2 Hc. unfold sort_steps.
  destruct l as [|a [|b l]]; try (cbn in E2; lia).
  cbn [count_run]. destruct (lt b a) eqn:E.
  - assert (Hn : 2 + run_desc A lt b l = S (run_desc A lt a (b :: l)))
      by (cbn [run_desc]; now rewrite E).
    rewrite Hn.
    set (n := S (run_desc A lt a (b :: l))).
    cbv beta iota zeta.
    assert (Hp : Permutation (a :: b :: l)
                   (rev (firstn n (a :: b :: l)) ++ skipn n (a :: b :: l))).
    { rewrite <- (firstn_skipn n (a :: b :: l)) at 1.
      apply Permutation_app_tail, Permutation_rev. }
    split.
    + apply binarysort_ascending.
      * unfold n. cbn [firstn rev]. intros H0.
        now apply app_eq_nil in H0 as [_ H0].
      * apply run_desc_rev_ascending. exact Hc.
      * now rewrite <- (count_if_perm _ _ Hp).
    + etransitivity; [exact Hp | apply binarysort_perm].
  - assert (Hn : 2 + run_asc A lt b l = S (run_asc A lt a (b :: l)))
      by (cbn [run_asc]; now rewrite E).
    rewrite Hn.
    set (n := S (run_asc A lt a (b :: l))).
    cbv beta iota zeta.
    split.
    + apply binarysort_ascending.
      * unfold n. cbn [firstn]. discriminate.
      * apply run_asc_ascending.
      * now rewrite firstn_skipn.
    + rewrite <- (firstn_skipn n (a :: b :: l)) at 1.
      apply binarysort_perm.
Qed.

(** The steps leave a list in ascending order as it is. *)
Lemma sort_steps_fixed (l : list A) :
  2 <= length l -> ascending lt l -> sort_steps lt l = l.
Proof.
  intros E2 Hasc. unfold sort_steps.
  destruct l as [|a [|b l]]; try (cbn in E2; lia).
  cbn [count_run]. destruct Hasc as [Hab Hasc]. rewrite Hab.
  rewrite (run_asc_full l b Hasc).
  change (2 + length l) with (length (a :: b :: l)).
  cbv beta iota zeta.
  rewrite firstn_all, skipn_all. reflexivity.
Qed.

(** What the sort returns, where it returns. *)
Lemma list_sort_some (l l' : list A) :
  list_sort lt l = Some l' ->
  (length l < 2 /\ l' = l) \/ (2 <= length l /\ l' = sort_steps lt l).
Proof.
  unfold list_sort. intros H. destruct (Nat.ltb (length l) 2) eqn:E2.
  - apply Nat.ltb_lt in E2. injection H as <-. now left.
  - apply Nat.ltb_ge in E2. right. split; [exact E2|].
    destruct (Nat.ltb (length l) 64); [now injection H as <-|].
    destruct (weak_sorted lt (sort_steps lt l));
      [now injection H as <- | discriminate].
Qed.

(** The sort returns for a short list, and for a longer one on which the
    comparison is a strict weak order. *)
Lemma list_sort_returns (l : list A) :
  length l < 64 \/ weak_sorted lt (sort_steps lt l) = true ->
  list_sort lt l = Some (if Nat.ltb (length l) 2 then l else sort_steps lt l).
Proof.
  intros H. unfold list_sort.
  destruct (Nat.ltb (length l) 2); [reflexivity|].
  destruct (Nat.ltb (length l) 64) eqn:E; [reflexivity|].
  destruct H as [H | H]; [apply Nat.ltb_ge in E; lia|].
  now rewrite H.
Qed.

End SortProps.

Lemma isdigit_number (x : string) (b : bool) :
  isdigit x = Some b -> number x = b.
Proof.
  unfold isdigit. destruct (number x); [now intros [= <-]|].
  destruct (_ || _); [now intros [= <-] | discriminate].
Qed.

Lemma decided_isdigit (x : string) :
  decided x = true -> isdigit x = Some (number x).
Proof.
  unfold decided. destruct (isdigit x) as [b|] eqn:E; [|discriminate].
  intros _. now rewrite (isdigit_number x b E).
Qed.

(** Where both attributes are decided, the order of the keys is read off
    the numbers, the table and the order of strings. *)
Lemma key_lt_decided (x y : string) :
  decided x = true -> decided y = true ->
  key_lt x y =
  if number x then true
  else if number y then false
  else if mem_str x important_attrs && negb (mem_str y important_attrs)
       then true
  else if negb (mem_str x important_attrs) && mem_str y important_attrs
       then false
  else String.ltb x y.
Proof.
  intros Hx Hy. unfold key_lt, compare_attrs.
  rewrite (decided_isdigit x Hx), (decided_isdigit y Hy).
  destruct (number x); [reflexivity|]. destruct (number y); [reflexivity|].
  cbv zeta. destruct (_ && _); [reflexivity|].
  destruct (_ && _); [reflexivity|].
  now destruct (String.ltb x y).
Qed.

(** The order of the keys holds only between decided attributes, or from a
    number. *)
Lemma key_lt_true (x y : string) :
  key_lt x y = true ->
  number x = true \/ (isdigit x = Some false /\ isdigit y = Some false).
Proof.
  unfold key_lt, compare_attrs.
  destruct (isdigit x) as [[|]|] eqn:Ex; [|destruct (isdigit y) as [[|]|]|];
    try discriminate.
  - intros _. left. now apply isdigit_number in Ex.
  - intros _. now right.
Qed.

Lemma ltb_antisym (x y : string) :
  String.ltb x y = true -> String.ltb y x = false.
Proof.
  unfold String.ltb. rewrite (String.compare_antisym y x).
  now destruct (String.compare x y).
Qed.

Lemma key_lt_asym (x y : string) :
  number x && number y = false -> key_lt x y = true -> key_lt y x = false.
Proof.
  intros Hd H. destruct (key_lt_true x y H) as [Hx | [Hx Hy]].
  - rewrite Hx in Hd. cbn [andb] in Hd.
    unfold key_lt, compare_attrs.
    destruct (isdigit y) as [[|]|] eqn:Ey; [| |reflexivity].
    + apply isdigit_number in Ey. congruence.
    + unfold isdigit. now rewrite Hx.
  - assert (Dx : decided x = true) by (unfold decided; now rewrite Hx).
    assert (Dy : decided y = true) by (unfold decided; now rewrite Hy).
    rewrite key_lt_decided in * by assumption.
    apply isdigit_number in Hx, Hy. rewrite Hx, Hy in *.
    destruct (mem_str x important_attrs), (mem_str y important_attrs);
      cbn [andb negb] in *; try reflexivity; try discriminate;
      now apply ltb_antisym.
Qed.

Lemma key_lt_before (a b : string) :
  decided a = true -> decided b = true ->
  key_lt b a = false -> attr_before a b.
Proof.
  intros Da Db. rewrite key_lt_decided by assumption.
  unfold attr_before, tier.
  destruct (number b); [discriminate|].
  destruct (number a); [intros _; split; [reflexivity | now left]|].
  destruct (mem_str b important_attrs), (mem_str a important_attrs);
    cbn [andb negb]; try discriminate.
  - intros H. split; [reflexivity | right; right; split; [reflexivity|exact H]].
  - intros _. split; [reflexivity | right; left; lia].
  - intros H. split; [reflexivity | right; right; split; [reflexivity|exact H]].
Qed.

Lemma string_le_trans (a b c : string) :
  String.ltb b a = false -> String.ltb c b = false -> String.ltb c a = false.
Proof.
  unfold String.ltb. intros Hba Hcb.
  destruct (String.compare c a) eqn:Eca; try reflexivity.
  apply String_as_OT.cmp_lt in Eca.
  destruct (String.compare a b) eqn:Eab.
  - apply String_as_OT.cmp_eq in Eab; subst b.
    apply String_as_OT.cmp_lt in Eca. unfold String_as_OT.cmp in Eca.
    now rewrite Eca in Hcb.
  - apply String_as_OT.cmp_lt in Eab.
    pose proof (String_as_OT.lt_trans _ _ _ Eca Eab) as H.
    apply String_as_OT.cmp_lt in H. unfold String_as_OT.cmp in H.
    now rewrite H in Hcb.
  - rewrite String.compare_antisym in Eab.
    destruct (String.compare b a); try discriminate.
Qed.

Lemma ltb_irrefl (x : string) : String.ltb x x = false.
Proof.
  unfold String.ltb.
  replace (String.compare x x) with Eq; [reflexivity|].
  symmetry. now apply (proj2 (String_as_OT.cmp_eq x x)).
Qed.

Lemma ltb_trans (x y z : string) :
  String.ltb x y = true -> String.ltb y z = true -> String.ltb x z = true.
Proof.
  unfold String.ltb. intros H1 H2.
  destruct (String.compare x y) eqn:E1; try discriminate.
  destruct (String.compare y z) eqn:E2; try discriminate.
  apply String_as_OT.cmp_lt in E1, E2.
  pose proof (String_as_OT.lt_trans _ _ _ E1 E2) as H.
  apply String_as_OT.cmp_lt in H. unfold String_as_OT.cmp in H.
  now rewrite H.
Qed.

Lemma ltb_exactly_one (x y : string) :
  x <> y -> String.ltb x y = negb (String.ltb y x).
Proof.
  intros Hne. unfold String.ltb. rewrite (String.compare_antisym y x).
  destruct (String.compare x y) eqn:E; try reflexivity.
  apply String.compare_eq_iff in E. contradiction.
Qed.

Lemma attr_before_trans (a b c : string) :
  attr_before a b -> attr_before b c -> attr_before a c.
Proof.
  unfold attr_before. intros [Hb Hab] [Hc Hbc]. split; [exact Hc|].
  destruct Hab as [Ha | Hab]; [now left | right].
  destruct Hbc as [Hb' | Hbc]; [congruence|].
  destruct Hab as [Hab | [Hab Hab']], Hbc as [Hbc | [Hbc Hbc']].
  - left; lia.
  - left; lia.
  - left; lia.
  - right. split; [lia|]. apply (string_le_trans a b c); assumption.
Qed.

Lemma ascending_sorted (l : list string) :
  forallb decided l = true ->
  ascending key_lt l -> StronglySorted attr_before l.
Proof.
  intros Hd H. apply Sorted_StronglySorted.
  - intros a b c. apply attr_before_trans.
  - induction l as [|a l IH]; [constructor|].
    cbn [forallb] in Hd. apply andb_prop in Hd as [Da Hd].
    constructor.
    + apply IH; [exact Hd|]. destruct l as [|b l]; [exact I | now destruct H].
    + destruct l as [|b l]; constructor.
      cbn [forallb] in Hd. apply andb_prop in Hd as [Db _].
      apply key_lt_before; [exact Da | exact Db | now destruct H].
Qed.

(** Among three decided attributes of which at most one is a number, the
    order of the keys is transitive, and so is its negation. *)
Lemma key_lt_triple (x y z : string) :
  decided x = true -> decided y = true -> decided z = true ->
  count_if number [x; y; z] <= 1 ->
  implb (key_lt x y && key_lt y z) (key_lt x z) &&
  implb (negb (key_lt x y) && negb (key_lt y z)) (negb (key_lt x z)) = true.
Proof.
  intros Dx Dy Dz Hc. rewrite !key_lt_decided by assumption.
  unfold count_if in Hc. cbn [filter] in Hc.
  destruct (number x), (number y), (number z); cbn [length] in Hc; try lia;
    destruct (mem_str x important_attrs), (mem_str y important_attrs),
      (mem_str z important_attrs); cbn [andb negb implb]; try reflexivity;
    destruct (String.ltb x y) eqn:E1; cbn [andb negb implb];
    try reflexivity;
    destruct (String.ltb y z) eqn:E2; cbn [andb negb implb];
    try reflexivity;
    try (now rewrite (ltb_trans x y z E1 E2));
    try (now rewrite (string_le_trans z y x E2 E1)).
Qed.

Lemma numbers_spec (attrs : list string) (n : nat) :
  numbers attrs = Some n ->
  forallb decided attrs = true /\ count_if number attrs = n.
Proof.
  revert n. induction attrs as [|x attrs IH]; intros n H.
  - injection H as <-. now split.
  - cbn [numbers] in H. destruct (isdigit x) as [b|] eqn:Ex; [|discriminate].
    destruct (numbers attrs) as [k|]; [|discriminate].
    injection H as <-. destruct (IH k eq_refl) as [Hd Hc].
    cbn [forallb]. unfold decided at 1. rewrite Ex, Hd. split; [reflexivity|].
    unfold count_if in *. cbn [filter]. rewrite (isdigit_number x b Ex).
    destruct b; cbn [length]; lia.
Qed.

Lemma numbers_decided (attrs : list string) :
  forallb decided attrs = true ->
  numbers attrs = Some (count_if number attrs).
Proof.
  induction attrs as [|x attrs IH]; intros H; [reflexivity|].
  cbn [forallb] in H. apply andb_prop in H as [Dx H].
  cbn [numbers]. rewrite (decided_isdigit x Dx), (IH H).
  unfold count_if. cbn [filter]. now destruct (number x).
Qed.

Lemma forallb_perm {A : Type} (p : A -> bool) (l l' : list A) :
  Permutation l l' -> forallb p l = true -> forallb p l' = true.
Proof.
  intros Hp H. apply forallb_forall. intros x Hx.
  rewrite forallb_forall in H. apply H.
  apply (Permutation_in _ (Permutation_sym Hp) Hx).
Qed.

Lemma before_key_lt (a b : string) :
  decided a = true -> decided b = true ->
  attr_before a b -> key_lt b a = false.
Proof.
  intros Da Db [Hb H]. rewrite key_lt_decided by assumption.
  unfold tier in H. rewrite Hb in *.
  destruct (number a); [reflexivity|].
  destruct H as [H | H]; [discriminate|].
  destruct (mem_str b important_attrs), (mem_str a important_attrs);
    cbn [andb negb]; try reflexivity;
    destruct H as [H | [H1 H2]]; try lia; try exact H2.
Qed.

Lemma weak_sorted_cons {A : Type} (lt : A -> A -> bool) (a a' : A)
      (rest : list A) :
  weak_sorted lt (a :: a' :: rest) =
  negb (lt a' a) &&
  forallb (fun b => negb (lt b a) && Bool.eqb (lt a b) (lt a a' || lt a' b))
          rest &&
  weak_sorted lt (a' :: rest).
Proof. reflexivity. Qed.

(** A list of decided attributes in the canonical order, at most one of them
    a number: the order of the keys is a strict weak order on it. *)
Lemma weak_sorted_key_lt (l : list string) :
  forallb decided l = true ->
  count_if number l <= 1 ->
  StronglySorted attr_before l ->
  weak_sorted key_lt l = true.
Proof.
  induction l as [|a l IH]; intros Hd Hc Hs; [reflexivity|].
  destruct l as [|a' rest]; [reflexivity|].
  apply StronglySorted_inv in Hs as [Hs Fa].
  pose proof Hs as Hs'. apply StronglySorted_inv in Hs' as [_ Fa'].
  cbn [forallb] in Hd. apply andb_prop in Hd as [Da Hd].
  pose proof Hd as Hd'. cbn [forallb] in Hd'.
  apply andb_prop in Hd' as [Da' Dr].
  assert (Hc' : count_if number (a' :: rest) <= 1).
  { unfold count_if in *. cbn [filter] in *.
    destruct (number a); cbn [length] in Hc; lia. }
  assert (F1 : key_lt a' a = false).
  { apply before_key_lt; try assumption. now apply Forall_inv in Fa. }
  rewrite weak_sorted_cons, (IH Hd Hc' Hs), andb_true_r, F1.
  cbn [negb andb].
  apply forallb_forall. intros b Hb.
  rewrite forallb_forall in Dr. pose proof (Dr b Hb) as Db.
  apply Forall_inv_tail in Fa. rewrite Forall_forall in Fa, Fa'.
  assert (F2 : key_lt b a' = false)
    by (apply before_key_lt; try assumption; now apply Fa').
  assert (F3 : key_lt b a = false)
    by (apply before_key_lt; try assumption; now apply Fa).
  assert (Hn : (if number a then 1 else 0) + (if number a' then 1 else 0)
               + (if number b then 1 else 0) <= 1).
  { apply in_split in Hb as (p1 & p2 & ->).
    unfold count_if in Hc. cbn [filter] in Hc. rewrite filter_app in Hc.
    cbn [filter] in Hc.
    destruct (number a), (number a'), (number b); cbn [length] in Hc;
      rewrite ?length_app in Hc; cbn [length] in Hc; lia. }
  assert (T : forall x y z,
             decided x = true -> decided y = true -> decided z = true ->
             (if number x then 1 else 0) + (if number y then 1 else 0)
             + (if number z then 1 else 0) <= 1 ->
             key_lt x y = false -> key_lt y z = false -> key_lt x z = false).
  { intros x y z Dx Dy Dz Hxyz Hxy Hyz.
    pose proof (key_lt_triple x y z Dx Dy Dz) as H.
    rewrite Hxy, Hyz in H. cbn [andb negb implb] in H.
    apply negb_true_iff. apply H.
    unfold count_if. cbn [filter].
    destruct (number x), (number y), (number z); cbn [length]; lia. }
  rewrite F3. cbn [negb andb].
  destruct (key_lt a b) eqn:Eab, (key_lt a a') eqn:Eaa', (key_lt a' b) eqn:Ea'b;
    try reflexivity; exfalso.
  - rewrite (T a a' b) in Eab; try assumption; discriminate.
  - rewrite (T a b a') in Eaa'; try assumption; [discriminate | lia].
  - rewrite (T a b a') in Eaa'; try assumption; [discriminate | lia].
  - rewrite (T a' a b) in Ea'b; try assumption; [discriminate | lia].
Qed.

(** The sort of a list of attributes with at most one number: a permutation
    in the canonical order, which the sort leaves as it is. *)
Lemma sorted_attrs_canonical (attrs : list string) (n : nat) :
  numbers attrs = Some n -> n <= 1 ->
  exists sorted,
    sorted_attrs attrs = Some sorted /\
    sorted_attrs sorted = Some sorted /\
    Permutation attrs sorted /\
    StronglySorted attr_before sorted.
Proof.
  intros Hn Hle. apply numbers_spec in Hn as [Hd Hc]. subst n.
  unfold sorted_attrs. destruct (Nat.ltb (length attrs) 2) eqn:E2.
  - exists attrs. rewrite E2. repeat split; [reflexivity|].
    apply Nat.ltb_lt in E2.
    destruct attrs as [|a [|b l]]; [constructor | | cbn in E2; lia].
    constructor; constructor.
  - apply Nat.ltb_ge in E2. rewrite Hd.
    destruct (sort_steps_ascending string key_lt number key_lt_asym attrs E2 Hle)
      as [Hasc Hp].
    set (sorted := sort_steps key_lt attrs) in *.
    assert (Hlen : 2 <= length sorted)
      by (now rewrite <- (Permutation_length Hp)).
    assert (Hd' : forallb decided sorted = true)
      by (apply (forallb_perm decided _ _ Hp Hd)).
    assert (Hc' : count_if number sorted <= 1)
      by (now rewrite <- (count_if_perm string number _ _ Hp)).
    assert (Hs : StronglySorted attr_before sorted)
      by (now apply ascending_sorted).
    assert (Hw : weak_sorted key_lt sorted = true)
      by (now apply weak_sorted_key_lt).
    assert (Hfix : sort_steps key_lt sorted = sorted)
      by (apply (sort_steps_fixed string key_lt sorted Hlen Hasc)).
    exists sorted. split; [|split; [|split]].
    + rewrite (list_sort_returns string key_lt attrs) by (right; exact Hw).
      replace (Nat.ltb (length attrs) 2) with false
        by (symmetry; apply Nat.ltb_ge; exact E2).
      reflexivity.
    + replace (Nat.ltb (length sorted) 2) with false
        by (symmetry; apply Nat.ltb_ge; exact Hlen).
      rewrite Hd'.
      rewrite (list_sort_returns string key_lt sorted)
        by (right; now rewrite Hfix).
      replace (Nat.ltb (length sorted) 2) with false
        by (symmetry; apply Nat.ltb_ge; exact Hlen).
      now rewrite Hfix.
    + exact Hp.
    + exact Hs.
Qed.

Lemma sorted_attrs_perm (attrs sorted : list string) :
  sorted_attrs attrs = Some sorted -> Permutation attrs sorted.
Proof.
  unfold sorted_attrs. destruct (Nat.ltb (length attrs) 2);
    [now intros [= <-]|].
  destruct (forallb decided attrs); [|discriminate].
  intros H. apply list_sort_some in H as [[_ ->] | [H2 ->]]; [reflexivity|].
  unfold sort_steps. destruct (count_run string key_lt attrs) as [k descending].
  etransitivity; [|apply binarysort_perm].
  rewrite <- (firstn_skipn k attrs) at 1.
  apply Permutation_app_tail.
  destruct descending; [apply Permutation_rev | reflexivity].
Qed.

(** C4, as stated, fails for a list with two numbers: each is less than the
    other for the comparator, the sort reverses them, and sorting again
    reverses them back; the line of the file changes at every run. *)
Lemma C4_two_numbers_flip :
  key_lt "1" "2" = true /\ key_lt "2" "1" = true /\
  sorted_attrs ["1"; "2"] = Some ["2"; "1"] /\
  sorted_attrs ["2"; "1"] = Some ["1"; "2"] /\
  sort_attributes (column "part_of_speech" "n:1,2")
    = Some (column "part_of_speech" "n:2,1") /\
  sort_attributes (column "part_of_speech" "n:2,1")
    = Some (column "part_of_speech" "n:1,2").
Proof. repeat split; vm_compute; reflexivity. Qed.

(** ** Further examples *)

(** A list of 66 attributes, 64 of them in descending order before a number
    and an attribute of the table: the sort puts the number first, then the
    attribute of the table, then the others in ascending order.  With a
    second number in front the comparison is no order, and a list of this
    length is outside the model. *)
Example sorted_attrs_long :
  sorted_attrs (rev (map sample_attr (seq 10 64)) ++ ["7"; "t"])%list
    = Some ("7" :: "t" :: map sample_attr (seq 10 64)) /\
  sorted_attrs ("8" :: rev (map sample_attr (seq 10 64)) ++ ["7"; "t"])%list
    = None.
Proof. split; vm_compute; reflexivity. Qed.

(** Links made of letters, digits, colons and quotes are shielded and
    restored: the identity translation gives the notes back. *)
Example round_trip_plain_links :
  option_map (fun r => (num_errors (fst r), calls (fst r), snd r))
    (run provider_id
         [[column "notes" "see {nuqDaq:sen} and {Qapla':excl} [1]";
           column "notes_de" "TRANSLATE"]])
  = Some (0,
          [("see DONOTTRANSLATE1 and DONOTTRANSLATE2 DONOTTRANSLATE3", "de")],
          [[column "notes" "see {nuqDaq:sen} and {Qapla':excl} [1]";
            column "notes_de"
              ("see {nuqDaq:sen} and {Qapla':excl} [1]" ++ AUTOTRANSLATED)]]).
Proof. vm_compute. reflexivity. Qed.

(** With fewer than ten links, a token deleted by the provider is reported
    under its own number, its link is appended after the translation, and
    one error is counted. *)
Example missing_second_of_three_links :
  option_map (fun r => (num_errors (fst r), snd r))
    (run provider_drop_second
         [[column "notes" "see {nuqDaq:sen} and {Qapla':excl} [1]";
           column "notes_de" "TRANSLATE"]])
  = Some (1,
          [[column "notes" "see {nuqDaq:sen} and {Qapla':excl} [1]";
            err_link 2 ++ str1 nl;
            column "notes_de"
              ("see {nuqDaq:sen} and [1]{Qapla':excl}" ++ AUTOTRANSLATED)]]).
Proof. vm_compute. reflexivity. Qed.

(** The scenario of the specification: the definition is translated and
    annotated; when the provider fails the marker is written back. *)
Example end_to_end_definition :
  option_map snd
    (run (fun text lang =>
            if String.eqb text "launcher" && String.eqb lang "de"
            then Some "Werfer" else None)
         [[column "definition" "launcher"; column "definition_de" "TRANSLATE"]])
  = Some [[column "definition" "launcher";
           column "definition_de" ("Werfer" ++ AUTOTRANSLATED)]] /\
  option_map snd
    (run provider_down
         [[column "definition" "launcher"; column "definition_de" "TRANSLATE"]])
  = Some [[column "definition" "launcher"; column "definition_de" "TRANSLATE"]].
Proof. split; vm_compute; reflexivity. Qed.

(** A notes line that ends with the terminator, and is more than the
    terminator, completes the field: the buffer is emptied. *)
Lemma accumulate_completes (s : state) (g : string) :
  String.eqb g column_end = false ->
  endswith column_end g = true ->
  multiline_notes (accumulate s g) = EmptyString /\
  notes (accumulate s g) =
  multiline_notes s ++ take (String.length g - String.length column_end) g.
Proof.
  intros H1 H2. unfold accumulate. rewrite H1, H2. split; reflexivity.
Qed.

(** A line inside a comment is written as it is and changes neither the
    buffer nor the counter nor the definition. *)
Lemma process_line_in_comment
      (provider : string -> string -> option string) (s : state)
      (line : string) :
  in_comment s = true ->
  exists s',
    process_line provider s line = Some s' /\
    printed s' = snoc (printed s) line /\
    multiline_notes s' = multiline_notes s /\
    num_errors s' = num_errors s /\
    definition s' = definition s /\
    calls s' = calls s.
Proof.
  intros H. unfold process_line.
  destruct (contains "<!-- " line); cbn [set_in_comment in_comment];
    try rewrite H; cbn [negb];
    destruct (contains " -->" line); eexists; repeat split.
Qed.

(** ** The restoration loop, turn by turn *)

Lemma str_app_inv_head (a x y : string) : a ++ x = a ++ y -> x = y.
Proof.
  induction a as [|c a IH]; cbn [append]; intros H; [exact H|].
  injection H as H. now apply IH.
Qed.

Lemma search_from_lit_replace (p t s pre : string) :
  match search_from (lit p) pre s with
  | Some f => before f ++ t ++ after f
  | None => pre ++ s
  end = pre ++ replace_first p t s.
Proof.
  revert pre. induction s as [|c s IH]; intros pre.
  - cbn [search_from replace_first]. rewrite match_at_lit.
    destruct (startswith p EmptyString); reflexivity.
  - cbn [search_from replace_first]. rewrite match_at_lit.
    destruct (startswith p (String c s)).
    + reflexivity.
    + pose proof (IH (pre ++ str1 c)) as H.
      destruct (search_from (lit p) (pre ++ str1 c) s).
      * rewrite H. apply str_app_assoc.
      * apply str_app_inv_head in H. now rewrite <- H.
Qed.

(** Replacing a literal pattern once is replacing its first occurrence. *)
Lemma re_sub1_lit (p repl s : string) :
  contains (str1 bsl) repl = false ->
  re_sub1 (lit p) repl s = Some (replace_first p repl s).
Proof.
  intros Hb. unfold re_sub1, template, re_search. rewrite Hb.
  pose proof (search_from_lit_replace p repl s EmptyString) as H.
  destruct (search_from (lit p) EmptyString s); cbn [append] in H;
    f_equal; exact H.
Qed.

Lemma replace_first_absent (p t s : string) :
  contains p s = false -> replace_first p t s = s.
Proof.
  induction s as [|c s IH]; cbn [contains replace_first]; intros H;
    apply orb_false_elim in H as [H1 H2]; rewrite H1; [reflexivity|].
  now rewrite IH.
Qed.

Lemma replace_first_changes (a b : ascii) (p t s : string) :
  Ascii.eqb a b = false ->
  contains (String a p) s = true ->
  String.eqb (replace_first (String a p) (String b t) s) s = false.
Proof.
  intros Hab. induction s as [|c s IH]; intros H.
  - discriminate.
  - cbn [contains] in H. cbn [replace_first].
    destruct (startswith (String a p) (String c s)) eqn:E.
    + cbn [startswith] in E. apply andb_prop in E as [E _].
      apply Ascii.eqb_eq in E; subst c.
      cbn [append String.eqb]. now rewrite Ascii.eqb_sym, Hab.
    + cbn [orb] in H. cbn [String.eqb]. rewrite Ascii.eqb_refl. now apply IH.
Qed.

(** One turn of the restoration loop, for a link that opens with a brace or
    a square bracket and holds no backslash: when the text of the token is
    in the translation, its first occurrence makes way for the link and no
    error is counted; when it is not, the error is written and counted and
    the link is appended to the missing links. *)
Lemma restore_step (link_match : string) (links : list string)
      (link_number : nat) (s : state) (text missing : string) :
  contains (str1 bsl) link_match = false ->
  startswith "{" link_match || startswith "[" link_match = true ->
  restore_loop (link_match :: links) link_number s text missing =
  if contains (token link_number) text
  then restore_loop links (S link_number) s
                    (replace_first (token link_number) link_match text) missing
  else restore_loop links (S link_number)
                    (count_error (print (err_link link_number) s))
                    text (missing ++ link_match).
Proof.
  intros Hb Hl. cbn [restore_loop]. rewrite re_sub1_lit by assumption.
  destruct (contains (token link_number) text) eqn:E.
  - destruct link_match as [|b t]; [discriminate|].
    assert (Hd : Ascii.eqb "D" b = false).
    { cbn [startswith] in Hl. destruct (Ascii.eqb "D" b) eqn:Ed; [|reflexivity].
      apply Ascii.eqb_eq in Ed; subst b. discriminate. }
    change (token link_number)
      with (String "D" ("ONOTTRANSLATE" ++ str_of_nat link_number)) in *.
    now rewrite (replace_first_changes _ _ _ _ _ Hd E).
  - rewrite replace_first_absent by assumption.
    now rewrite String.eqb_refl.
Qed.

(** ** Part-of-speech lines (C4) *)

Lemma index_of_app (c : ascii) (a b : string) :
  contains (str1 c) a = false ->
  index_of c (a ++ b) = String.length a + index_of c b.
Proof.
  induction a as [|d a IH]; intros H; [reflexivity|].
  rewrite contains_char_cons in H. apply orb_false_elim in H as [H1 H2].
  cbn [append index_of String.length]. rewrite H1. now rewrite IH.
Qed.

Lemma startswith_app (p s : string) :
  startswith p s = true -> s = p ++ drop (String.length p) s.
Proof.
  revert s. induction p as [|a p IH]; intros s H.
  - destruct s; reflexivity.
  - destruct s as [|b s]; [discriminate|].
    cbn [startswith] in H. apply andb_prop in H as [H1 H2].
    apply Ascii.eqb_eq in H1; subst b.
    cbn [String.length drop append]. now rewrite <- (IH s H2).
Qed.

(** A text that ends with [>] and has no other [>] cannot start inside what
    precedes its own first occurrence, when that has no [>] either. *)
Lemma startswith_shifted (m q body : string) :
  contains (str1 ">") m = false ->
  contains (str1 ">") q = false ->
  startswith (m ++ ">") (q ++ (m ++ ">") ++ body) = true ->
  q = EmptyString.
Proof.
  intros Hm Hq H. apply startswith_app in H.
  assert (E : index_of ">" (q ++ (m ++ ">") ++ body)
              = String.length q + String.length m).
  { rewrite index_of_app by assumption.
    rewrite str_app_assoc, index_of_app by assumption.
    cbn. lia. }
  rewrite H in E at 1.
  rewrite str_app_assoc, index_of_app in E by assumption.
  cbn in E. destruct q; [reflexivity | cbn in E; lia].
Qed.

Lemma match_at_pos_marker (s : string) (r : string * caps) :
  match_at re_pos s = Some r -> startswith (pos_marker ++ ">") s = true.
Proof.
  unfold match_at, re_pos. cbn [rseq mt]. rewrite mt_lit.
  destruct (startswith "part_of_speech" s) eqn:E; [|discriminate].
  apply startswith_app in E. intros H. rewrite E.
  destruct (drop (String.length "part_of_speech") s) as [|d1 s1];
    [discriminate|].
  cbn [chr mt cls_match] in H.
  destruct (Ascii.eqb d1 dq) eqn:E1; [|discriminate].
  apply Ascii.eqb_eq in E1; subst d1.
  destruct s1 as [|d2 s2]; [discriminate|].
  destruct (Ascii.eqb d2 ">") eqn:E2; [|discriminate].
  apply Ascii.eqb_eq in E2; subst d2.
  reflexivity.
Qed.

Lemma match_at_pos_content (content : string) :
  match_at re_pos ((pos_marker ++ ">") ++ content) =
  star CDot content
       (fun s1 =>
          mt (rseq [chr ":"; RGroup 2 (RStar CDot); chr "<"]) s1
             [(1, consumed content s1)] (fun s' c => Some (s', c))).
Proof. reflexivity. Qed.

Lemma colon_tail_no_lt {R : Type} (s : string) (cs : caps)
      (K : string -> caps -> option R) :
  contains (str1 "<") s = false ->
  mt (rseq [chr ":"; RGroup 2 (RStar CDot); chr "<"]) s cs K = None.
Proof.
  intros H. destruct s as [|d s]; [reflexivity|].
  cbn [rseq mt chr cls_match].
  destruct (Ascii.eqb d ":"); [|reflexivity].
  apply star_none. intros p q Hs.
  apply (mt_chr_absent "<" s p q); [|exact Hs].
  rewrite contains_char_cons in H. now apply orb_false_elim in H as [_ H].
Qed.

Lemma colon_tail_none {R : Type} (J post : string) (cs : caps)
      (K : string -> caps -> option R) :
  contains (str1 ":") J = false ->
  contains (str1 "<") post = false ->
  forall p q, J ++ "<" ++ post = p ++ q ->
              mt (rseq [chr ":"; RGroup 2 (RStar CDot); chr "<"]) q cs K = None.
Proof.
  intros HJ Hpost. induction J as [|c J IH]; intros p q E.
  - destruct p as [|c' p].
    + cbn [append] in E. subst q. reflexivity.
    + cbn [append] in E. injection E as _ E.
      apply colon_tail_no_lt. rewrite E in Hpost.
      now apply contains_char_app_r in Hpost.
  - rewrite contains_char_cons in HJ. apply orb_false_elim in HJ as [Hc HJ].
    destruct p as [|c' p].
    + cbn [append] in E. subst q.
      change ((String c J) ++ "<" ++ post) with (String c (J ++ "<" ++ post)).
      cbn [rseq mt chr cls_match]. rewrite Ascii.eqb_sym. now rewrite Hc.
    + cbn [append] in E. injection E as _ E. now apply (IH HJ p).
Qed.

Lemma star_stop_at {R : Type} (k : cls) (a : string) (c : ascii)
      (rest : string) (cont : string -> option R) (r : R) :
  all_match k a = true ->
  cls_match k c = true ->
  (forall p q, rest = p ++ q -> cont q = None) ->
  cont (String c rest) = Some r ->
  star k (a ++ String c rest) cont = Some r.
Proof.
  intros Ha Hc Hn Hr. apply star_greedy; [exact Ha|].
  cbn [star]. rewrite Hc. now rewrite (star_none k rest cont Hn).
Qed.

Lemma match_at_pos_shape (pos J post : string) :
  all_match CDot pos = true ->
  all_match CDot J = true ->
  contains (str1 ":") J = false ->
  contains (str1 "<") post = false ->
  match_at re_pos ((pos_marker ++ ">") ++ pos ++ ":" ++ J ++ "<" ++ post)
  = Some (post, [(2, J); (1, pos)]).
Proof.
  intros Hpos HJ HJc Hpost. rewrite match_at_pos_content.
  change (":" ++ J ++ "<" ++ post) with (String ":" (J ++ String "<" post)).
  apply star_stop_at; [exact Hpos | reflexivity | |].
  - intros p q Hs. now apply (colon_tail_none J post _ _ HJc Hpost p q).
  - change (String ":" (J ++ String "<" post))
      with (":" ++ J ++ String "<" post).
    rewrite (consumed_app pos).
    change (mt (rseq [chr ":"; RGroup 2 (RStar CDot); chr "<"])
               (":" ++ J ++ String "<" post) [(1, pos)]
               (fun s' c => Some (s', c)))
      with (star CDot (J ++ String "<" post)
                 (fun s2 => mt (chr "<") s2
                               [(2, consumed (J ++ String "<" post) s2); (1, pos)]
                               (fun s' c => Some (s', c)))).
    apply star_stop_at; [exact HJ | reflexivity | |].
    + intros p q Hs. now apply (mt_chr_absent "<" post p q).
    + rewrite (consumed_app J). reflexivity.
Qed.

Lemma search_from_pos_shape (pre0 p0 pos J post : string) :
  contains (str1 ">") p0 = false ->
  all_match CDot pos = true ->
  all_match CDot J = true ->
  contains (str1 ":") J = false ->
  contains (str1 "<") post = false ->
  exists f,
    search_from re_pos pre0
                (p0 ++ (pos_marker ++ ">") ++ pos ++ ":" ++ J ++ "<" ++ post)
      = Some f /\
    groups f = [(2, J); (1, pos)].
Proof.
  intros Hp0 Hpos HJ HJc Hpost. revert pre0.
  induction p0 as [|c p0 IH]; intros pre0.
  - change (EmptyString ++ (pos_marker ++ ">") ++ pos ++ ":" ++ J ++ "<" ++ post)
      with (String "p" (drop 1 ((pos_marker ++ ">") ++ pos ++ ":" ++ J ++ "<" ++ post))).
    cbn [search_from].
    change (String "p" (drop 1 ((pos_marker ++ ">") ++ pos ++ ":" ++ J ++ "<" ++ post)))
      with ((pos_marker ++ ">") ++ pos ++ ":" ++ J ++ "<" ++ post).
    rewrite (match_at_pos_shape pos J post Hpos HJ HJc Hpost).
    eexists. split; reflexivity.
  - change (String c p0 ++ (pos_marker ++ ">") ++ pos ++ ":" ++ J ++ "<" ++ post)
      with (String c (p0 ++ (pos_marker ++ ">") ++ pos ++ ":" ++ J ++ "<" ++ post)).
    cbn [search_from].
    destruct (match_at re_pos
                (String c (p0 ++ (pos_marker ++ ">") ++ pos ++ ":" ++ J ++ "<" ++ post)))
      as [r|] eqn:E.
    + apply match_at_pos_marker in E.
      change (String c (p0 ++ (pos_marker ++ ">") ++ pos ++ ":" ++ J ++ "<" ++ post))
        with (String c p0 ++ (pos_marker ++ ">") ++ pos ++ ":" ++ J ++ "<" ++ post) in E.
      apply startswith_shifted in E; [discriminate | reflexivity | exact Hp0].
    + apply IH. rewrite contains_char_cons in Hp0.
      now apply orb_false_elim in Hp0 as [_ Hp0].
Qed.

Lemma split_on_plain (c : ascii) (w : string) :
  contains (str1 c) w = false -> split_on c w = [w].
Proof.
  induction w as [|d w IH]; intros H; [reflexivity|].
  rewrite contains_char_cons in H. apply orb_false_elim in H as [H1 H2].
  cbn [split_on]. rewrite Ascii.eqb_sym, H1. now rewrite (IH H2).
Qed.

Lemma split_on_app (c : ascii) (w rest : string) :
  contains (str1 c) w = false ->
  split_on c (w ++ String c rest) = w :: split_on c rest.
Proof.
  induction w as [|d w IH]; intros H.
  - cbn [append split_on]. now rewrite Ascii.eqb_refl.
  - rewrite contains_char_cons in H. apply orb_false_elim in H as [H1 H2].
    cbn [append split_on]. rewrite Ascii.eqb_sym, H1. now rewrite (IH H2).
Qed.

Lemma split_join (attrs : list string) :
  attrs <> [] ->
  Forall (fun w => contains "," w = false) attrs ->
  split_on "," (join "," attrs) = attrs.
Proof.
  intros Hne H. induction H as [|w ws Hw Hws IH]; [contradiction|].
  destruct ws as [|w2 ws].
  - cbn [join]. now apply split_on_plain.
  - change (join "," (w :: w2 :: ws)) with (w ++ String "," (join "," (w2 :: ws))).
    rewrite split_on_app by exact Hw. now rewrite IH.
Qed.

Lemma all_match_dot (s : string) :
  contains (str1 nl) s = false -> all_match CDot s = true.
Proof.
  induction s as [|c s IH]; intros H; [reflexivity|].
  rewrite contains_char_cons in H. apply orb_false_elim in H as [H1 H2].
  cbn [all_match cls_match]. rewrite Ascii.eqb_sym, H1. now apply IH.
Qed.

Lemma contains_char_join (c : ascii) (sep : string) (l : list string) :
  contains (str1 c) sep = false ->
  Forall (fun w => contains (str1 c) w = false) l ->
  contains (str1 c) (join sep l) = false.
Proof.
  intros Hsep H. induction H as [|w ws Hw Hws IH]; [reflexivity|].
  destruct ws as [|w2 ws]; [exact Hw|].
  change (join sep (w :: w2 :: ws)) with (w ++ sep ++ join sep (w2 :: ws)).
  now rewrite !contains_char_app, Hw, Hsep, IH.
Qed.

Lemma plain_attr_spec (w : string) :
  plain_attr w = true ->
  contains "," w = false /\ contains ":" w = false /\
  contains (str1 nl) w = false /\ contains (str1 bsl) w = false.
Proof.
  unfold plain_attr. intros H.
  apply andb_prop in H as [H H4]. apply andb_prop in H as [H H3].
  apply andb_prop in H as [H1 H2].
  repeat split; now apply negb_true_iff.
Qed.

(** The attributes of a part-of-speech line of the usual shape, sorted in
    place. *)
Lemma sort_attributes_shape (p0 pos post : string) (attrs sorted : list string) :
  contains (str1 ">") p0 = false ->
  contains (str1 nl) pos = false ->
  contains (str1 bsl) pos = false ->
  attrs <> [] ->
  Forall (fun w => plain_attr w = true) attrs ->
  contains (str1 "<") post = false ->
  sorted_attrs attrs = Some sorted ->
  sort_attributes
    (p0 ++ pos_marker ++ ">" ++ pos ++ ":" ++ join "," attrs ++ "<" ++ post)
  = Some (p0 ++ pos_marker ++ ">" ++ pos ++ ":" ++ join "," sorted ++ "<" ++ post).
Proof.
  intros Hp0 Hpos Hposb Hne Hplain Hpost Hs.
  assert (Hc : forall c, (forall w, plain_attr w = true ->
                                    contains (str1 c) w = false) ->
                         forall l, Forall (fun w => plain_attr w = true) l ->
                         Forall (fun w => contains (str1 c) w = false) l).
  { intros c Hcw l Hl. eapply Forall_impl; [|exact Hl]. exact Hcw. }
  assert (Hsorted : Forall (fun w => plain_attr w = true) sorted).
  { apply (Permutation_Forall (sorted_attrs_perm _ _ Hs)). exact Hplain. }
  set (J := join "," attrs).
  assert (HJnl : contains (str1 nl) J = false).
  { apply contains_char_join; [reflexivity|].
    apply Hc; [|exact Hplain]. intros w Hw. apply (plain_attr_spec w Hw). }
  assert (HJc : contains (str1 ":") J = false).
  { apply contains_char_join; [reflexivity|].
    apply Hc; [|exact Hplain]. intros w Hw. apply (plain_attr_spec w Hw). }
  unfold sort_attributes, re_search.
  destruct (search_from_pos_shape EmptyString p0 pos J post Hp0
              (all_match_dot _ Hpos) (all_match_dot _ HJnl) HJc Hpost)
    as (f & Hf & Hg).
  replace (p0 ++ pos_marker ++ ">" ++ pos ++ ":" ++ J ++ "<" ++ post)
    with (p0 ++ (pos_marker ++ ">") ++ pos ++ ":" ++ J ++ "<" ++ post)
    by (now rewrite !str_app_assoc).
  rewrite Hf. unfold mgroup', mgroup. rewrite Hg. cbn [group Nat.eqb].
  unfold J at 1. rewrite split_join; [|exact Hne|].
  - rewrite Hs.
    replace (p0 ++ (pos_marker ++ ">") ++ pos ++ ":" ++ J ++ "<" ++ post)
      with ((p0 ++ pos_marker) ++ ">" ++ (pos ++ ":" ++ J) ++ "<" ++ post)
      by (now rewrite !str_app_assoc).
    rewrite re_sub_content_shape.
    + now rewrite !str_app_assoc.
    + change (">" ++ pos ++ ":" ++ join "," sorted ++ "<")
        with (String ">" (pos ++ String ":" (join "," sorted ++ "<"))).
      rewrite contains_char_cons, contains_char_app, Hposb.
      rewrite contains_char_cons, contains_char_app.
      rewrite contains_char_join; [reflexivity | reflexivity |].
      apply Hc; [|exact Hsorted]. intros w Hw. apply (plain_attr_spec w Hw).
    + now rewrite contains_char_app, Hp0.
    + apply all_match_dot.
      change (pos ++ ":" ++ J) with (pos ++ String ":" J).
      now rewrite contains_char_app, Hpos, contains_char_cons, HJnl.
    + exact Hpost.
  - apply Hc; [|exact Hplain]. intros w Hw. apply (plain_attr_spec w Hw).
Qed.

(** C4 (amended): for a list of attributes of which at most one is purely
    numeric, the sort returns a permutation of the list in the canonical
    order (a number first, then the attributes specific to the part of
    speech, then the others, each tier in the order of strings), and sorting
    the result again returns it unchanged.  On a part-of-speech line of the
    usual shape with such attributes, the line is rewritten with the
    attributes in that order, and a second run over the rewritten line
    leaves it as it is. *)
Theorem C4_attribute_sort_idempotent (attrs : list string) (n : nat) :
  numbers attrs = Some n ->
  n <= 1 ->
  exists sorted,
    sorted_attrs attrs = Some sorted /\
    sorted_attrs sorted = Some sorted /\
    Permutation attrs sorted /\
    StronglySorted attr_before sorted /\
    (forall p0 pos post,
        contains (str1 ">") p0 = false ->
        contains (str1 nl) pos = false ->
        contains (str1 bsl) pos = false ->
        attrs <> [] ->
        Forall (fun w => plain_attr w = true) attrs ->
        contains (str1 "<") post = false ->
        sort_attributes
          (p0 ++ pos_marker ++ ">" ++ pos ++ ":" ++ join "," attrs ++ "<" ++ post)
        = Some (p0 ++ pos_marker ++ ">" ++ pos ++ ":" ++ join "," sorted
                   ++ "<" ++ post) /\
        sort_attributes
          (p0 ++ pos_marker ++ ">" ++ pos ++ ":" ++ join "," sorted ++ "<" ++ post)
        = Some (p0 ++ pos_marker ++ ">" ++ pos ++ ":" ++ join "," sorted
                   ++ "<" ++ post)).
Proof.
  intros Hn Hle.
  destruct (sorted_attrs_canonical attrs n Hn Hle)
    as (sorted & H1 & H2 & Hp & Hs).
  exists sorted. repeat split; try assumption.
  - now apply sort_attributes_shape.
  - apply sort_attributes_shape; try assumption.
    + intros ->. apply Permutation_sym, Permutation_nil in Hp. contradiction.
    + now apply (Permutation_Forall Hp).
Qed.

Lemma C4_attribute_sort_idempotent_witness :
  sorted_attrs ["klcp1"; "t"; "1"; "anatomy"; "i"]
    = Some ["1"; "i"; "t"; "anatomy"; "klcp1"] /\
  sorted_attrs ["1"; "i"; "t"; "anatomy"; "klcp1"]
    = Some ["1"; "i"; "t"; "anatomy"; "klcp1"] /\
  sort_attributes (column "part_of_speech" "v:klcp1,t,1,anatomy,i")
    = Some (column "part_of_speech" "v:1,i,t,anatomy,klcp1") /\
  sort_attributes (column "part_of_speech" "v:1,i,t,anatomy,klcp1")
    = Some (column "part_of_speech" "v:1,i,t,anatomy,klcp1").
Proof.
  destruct (C4_attribute_sort_idempotent ["klcp1"; "t"; "1"; "anatomy"; "i"] 1)
    as (sorted & H1 & H2 & _ & _ & H3);
    [vm_compute; reflexivity | lia |].
  assert (E : sorted = ["1"; "i"; "t"; "anatomy"; "klcp1"]).
  { vm_compute in H1. now injection H1 as <-. }
  subst sorted.
  destruct (H3 ("<column name=" ++ str1 dq) "v" column_post)
    as [H4 H5]; try reflexivity.
  - discriminate.
  - repeat constructor.
  - split; [exact H1 | split; [exact H2 | split; [exact H4 | exact H5]]].
Defined.

(** ** The shielding loop, turn by turn

    A link made of plain text is, as a pattern, itself: shielding it is
    replacing its first occurrence.  The links that hold a character with a
    meaning in patterns are the ones that the shield can miss. *)

Lemma pattern_char_repeat (c : ascii) :
  pattern_char c = false -> is_repeat_char c = false.
Proof.
  unfold pattern_char, is_repeat_char. cbn [mem_ascii]. intros H.
  repeat (apply orb_false_elim in H as [? H]).
  repeat (apply orb_false_intro; try assumption).
Qed.

Lemma next_atom_plain (c : ascii) (s : string) :
  pattern_char c = false -> next_atom (String c s) = Some (CChar c, s).
Proof.
  unfold pattern_char. cbn [mem_ascii]. intros H.
  repeat (apply orb_false_elim in H as [? H]).
  unfold next_atom. cbn [mem_ascii].
  repeat match goal with
         | E : Ascii.eqb c ?d = false |- context [Ascii.eqb c ?d] => rewrite E
         end.
  reflexivity.
Qed.

Lemma next_repeat_plain (k : cls) (c : ascii) (s : string) :
  is_repeat_char c = false ->
  next_repeat k (String c s) = Some (RCls k, String c s).
Proof. intros H. unfold next_repeat. now rewrite H. Qed.

Lemma next_repeat_head_ok (k : cls) (s : string) :
  head_ok s -> next_repeat k s = Some (RCls k, s).
Proof.
  destruct s as [|c s]; [reflexivity|]. apply next_repeat_plain.
Qed.

Lemma lit_then_lit (a b : string) : lit_then a (lit b) = lit (a ++ b).
Proof. induction a as [|c a IH]; cbn; [reflexivity | now rewrite IH]. Qed.

Lemma head_ok_app_plain (a b : string) :
  all_plain a = true -> head_ok b -> head_ok (a ++ b).
Proof.
  destruct a as [|c a]; [trivial|]. cbn [all_plain append head_ok].
  intros H _. apply andb_prop in H as [H _].
  apply pattern_char_repeat. now apply negb_true_iff.
Qed.

Lemma compile_fuel_app_plain (a tail : string) (f : nat) :
  all_plain a = true -> head_ok tail ->
  compile_fuel (String.length a + f) (a ++ tail) =
  match compile_fuel f tail with
  | Some r => Some (lit_then a r)
  | None => None
  end.
Proof.
  intros Ha Ht. induction a as [|c a IH].
  - cbn. now destruct (compile_fuel f tail).
  - cbn [all_plain] in Ha. apply andb_prop in Ha as [Hc Ha].
    apply negb_true_iff in Hc.
    cbn [String.length Nat.add append compile_fuel].
    rewrite (next_atom_plain c _ Hc).
    rewrite next_repeat_head_ok by (now apply head_ok_app_plain).
    rewrite (IH Ha). now destruct (compile_fuel f tail).
Qed.

Lemma compile_fuel_plain (s : string) :
  all_plain s = true -> compile_fuel (String.length s + 1) s = Some (lit s).
Proof.
  intros H.
  pose proof (compile_fuel_app_plain s EmptyString 1 H I) as E.
  rewrite str_app_empty_r in E. rewrite E. cbn [compile_fuel].
  now rewrite <- (str_app_empty_r s) at 2; rewrite <- lit_then_lit.
Qed.

Lemma all_plain_app (a b : string) :
  all_plain (a ++ b) = all_plain a && all_plain b.
Proof.
  induction a as [|c a IH]; [reflexivity|].
  cbn [append all_plain]. now rewrite IH, andb_assoc.
Qed.

Lemma replace_fuel_absent (c : ascii) (new s : string) (fuel : nat) :
  contains (str1 c) s = false -> replace_fuel fuel (str1 c) new s = s.
Proof.
  revert fuel. induction s as [|d s IH]; intros fuel H.
  - now destruct fuel.
  - destruct fuel as [|fuel]; [reflexivity|].
    rewrite contains_char_cons in H. apply orb_false_elim in H as [H1 H2].
    cbn [replace_fuel startswith str1]. rewrite H1. cbn [andb].
    now rewrite (IH fuel H2).
Qed.

Lemma replace_fuel_app_absent (c : ascii) (new a b : string) (f : nat) :
  contains (str1 c) a = false ->
  replace_fuel (String.length a + f) (str1 c) new (a ++ b) =
  a ++ replace_fuel f (str1 c) new b.
Proof.
  induction a as [|d a IH]; intros H; [reflexivity|].
  rewrite contains_char_cons in H. apply orb_false_elim in H as [H1 H2].
  cbn [String.length Nat.add append replace_fuel startswith str1].
  rewrite H1. cbn [andb]. now rewrite (IH H2).
Qed.

Lemma compile_fuel_step (f : nat) (c : ascii) (s : string) :
  compile_fuel (S f) (String c s) =
  match next_atom (String c s) with
  | None => None
  | Some (k, s1) =>
      match next_repeat k s1 with
      | None => None
      | Some (r, s2) =>
          match compile_fuel f s2 with
          | None => None
          | Some r' => Some (RSeq r r')
          end
      end
  end.
Proof. reflexivity. Qed.

(** The pattern made of a link in braces whose body is plain text, is no
    repetition count and has no closing bracket: the link, literally. *)
Lemma link_pattern_brace (body : string) :
  all_plain body = true ->
  contains (str1 "]") body = false ->
  brace_is_repeat (body ++ "}") = false ->
  link_pattern ("{" ++ body ++ "}") = Some (lit ("{" ++ body ++ "}")).
Proof.
  intros Hp Hb Hr. unfold link_pattern, replace_all.
  assert (Hopen : contains (str1 "[") body = false).
  { clear Hb Hr. induction body as [|c body IH]; [reflexivity|].
    cbn [all_plain] in Hp. apply andb_prop in Hp as [Hc Hp].
    rewrite contains_char_cons, (IH Hp), orb_false_r.
    apply negb_true_iff in Hc. unfold pattern_char in Hc.
    cbn [mem_ascii] in Hc. repeat (apply orb_false_elim in Hc as [? Hc]).
    now rewrite Ascii.eqb_sym. }
  assert (E1 : replace_fuel (S (String.length ("{" ++ body ++ "}"))) "["
                            (String bsl "[") ("{" ++ body ++ "}")
               = "{" ++ body ++ "}").
  { apply (replace_fuel_absent "[").
    change ("{" ++ body ++ "}") with (String "{" (body ++ "}")).
    now rewrite contains_char_cons, contains_char_app, Hopen. }
  rewrite E1.
  assert (E2 : replace_fuel (S (String.length ("{" ++ body ++ "}"))) "]"
                            (String bsl "]") ("{" ++ body ++ "}")
               = "{" ++ body ++ "}").
  { apply (replace_fuel_absent "]").
    change ("{" ++ body ++ "}") with (String "{" (body ++ "}")).
    now rewrite contains_char_cons, contains_char_app, Hb. }
  rewrite E2.
  unfold re_compile.
  change ("{" ++ body ++ "}") with (String "{" (body ++ "}")).
  cbn [String.length]. rewrite compile_fuel_step.
  assert (Ea : next_atom (String "{" (body ++ "}"))
               = Some (CChar "{", body ++ "}"))
    by (unfold next_atom; now rewrite Hr).
  rewrite Ea.
  rewrite next_repeat_head_ok
    by (apply head_ok_app_plain; [exact Hp | reflexivity]).
  replace (S (String.length (body ++ "}")))
    with (String.length (body ++ "}") + 1) by lia.
  rewrite compile_fuel_plain by (now rewrite all_plain_app, Hp).
  reflexivity.
Qed.

Lemma replace_fuel_hit (c : ascii) (new s : string) (f : nat) :
  replace_fuel (S f) (str1 c) new (String c s) =
  new ++ replace_fuel f (str1 c) new s.
Proof.
  cbn [replace_fuel startswith str1 String.length drop].
  now rewrite Ascii.eqb_refl.
Qed.

Lemma all_plain_no_open (body : string) :
  all_plain body = true -> contains (str1 "[") body = false.
Proof.
  induction body as [|c body IH]; intros Hp; [reflexivity|].
  cbn [all_plain] in Hp. apply andb_prop in Hp as [Hc Hp].
  rewrite contains_char_cons, (IH Hp), orb_false_r.
  apply negb_true_iff in Hc. unfold pattern_char in Hc.
  cbn [mem_ascii] in Hc. repeat (apply orb_false_elim in Hc as [? Hc]).
  now rewrite Ascii.eqb_sym.
Qed.

(** The pattern made of a link in square brackets whose body is plain text:
    the link, literally. *)
Lemma link_pattern_bracket (body : string) :
  all_plain body = true ->
  contains (str1 "]") body = false ->
  link_pattern ("[" ++ body ++ "]") = Some (lit ("[" ++ body ++ "]")).
Proof.
  intros Hp Hb. unfold link_pattern, replace_all.
  pose proof (all_plain_no_open body Hp) as Hopen.
  assert (E1 : replace_fuel (S (String.length ("[" ++ body ++ "]"))) "["
                            (String bsl "[") ("[" ++ body ++ "]")
               = String bsl (String "[" (body ++ "]"))).
  { change ("[" ++ body ++ "]") with (String "[" (body ++ "]")).
    cbn [String.length]. rewrite (replace_fuel_hit "[").
    rewrite (replace_fuel_absent "[");
      [reflexivity | now rewrite contains_char_app, Hopen]. }
  rewrite E1.
  assert (E2 : replace_fuel
                 (S (String.length (String bsl (String "[" (body ++ "]")))))
                 "]" (String bsl "]") (String bsl (String "[" (body ++ "]")))
               = String bsl (String "[" (body ++ String bsl "]"))).
  { change (String bsl (String "[" (body ++ "]")))
      with ((String bsl (String "[" body)) ++ "]").
    replace (S (String.length (String bsl (String "[" body) ++ "]")))
      with (String.length (String bsl (String "[" body)) + 2)
      by (rewrite str_length_app; cbn; lia).
    rewrite (replace_fuel_app_absent "]");
      [reflexivity | now rewrite !contains_char_cons, Hb]. }
  rewrite E2. unfold re_compile.
  cbn [String.length]. rewrite compile_fuel_step.
  assert (Ea : next_atom (String bsl (String "[" (body ++ String bsl "]")))
               = Some (CChar "[", body ++ String bsl "]")) by reflexivity.
  rewrite Ea.
  rewrite next_repeat_head_ok
    by (apply head_ok_app_plain; [exact Hp | reflexivity]).
  replace (S (S (String.length (body ++ String bsl "]"))))
    with (String.length body + 4) by (rewrite str_length_app; cbn; lia).
  rewrite compile_fuel_app_plain by (assumption || reflexivity).
  change (compile_fuel 4 (String bsl "]")) with (Some (lit "]")).
  cbv beta iota. rewrite lit_then_lit. reflexivity.
Qed.

Lemma uint_no_backslash (u : Decimal.uint) :
  contains (str1 bsl) (DecimalString.NilEmpty.string_of_uint u) = false.
Proof.
  induction u; cbn [DecimalString.NilEmpty.string_of_uint]; try reflexivity;
    rewrite contains_char_cons, IHu; reflexivity.
Qed.

Lemma token_no_backslash (n : nat) : contains (str1 bsl) (token n) = false.
Proof.
  unfold token, str_of_nat. rewrite contains_char_app.
  replace (contains (str1 bsl) "DONOTTRANSLATE") with false by reflexivity.
  cbn [orb]. unfold DecimalString.NilZero.string_of_uint.
  destruct (Nat.to_uint n) eqn:E; try reflexivity;
    rewrite <- E; apply uint_no_backslash.
Qed.

Lemma is_literal_lit (s : string) : is_literal (lit s) = true.
Proof. induction s as [|c s IH]; [reflexivity | exact IH]. Qed.

(** One turn of the shielding loop for a plain link: the first occurrence of
    the link in the notes makes way for its token. *)
Lemma shield_step (link_match : string) (links : list string)
      (link_number : nat) (notes : string) :
  plain_link link_match ->
  shield_loop (link_match :: links) link_number notes =
  shield_loop links (S link_number)
              (replace_first link_match (token link_number) notes).
Proof.
  intros (body & Hp & Hb & [[-> Hr] | ->]); cbn [shield_loop].
  - rewrite (link_pattern_brace body Hp Hb Hr), is_literal_lit.
    now rewrite (re_sub1_lit _ _ _ (token_no_backslash link_number)).
  - rewrite (link_pattern_bracket body Hp Hb), is_literal_lit.
    now rewrite (re_sub1_lit _ _ _ (token_no_backslash link_number)).
Qed.

(** ** The provider wrapper *)

(** [translate] returns the empty text exactly when the provider raises or
    returns the empty text. *)
Lemma translate_empty (provider : string -> string -> option string)
      (text lang : string) :
  translate provider text lang = EmptyString <->
  provider text lang = None \/ provider text lang = Some EmptyString.
Proof.
  unfold translate. destruct (provider text lang) as [t|].
  - split; [intros ->; now right | intros [H | H]; [discriminate | now injection H]].
  - split; [now left | reflexivity].
Qed.

(** ** The bracket check and nesting *)

Lemma BRACKETS_closer (o c : ascii) :
  BRACKETS o = Some c -> BRACKETS c = None /\ is_closer c = true.
Proof.
  unfold BRACKETS.
  destruct (Ascii.eqb o "{"); [intros [= <-]; split; reflexivity|].
  destruct (Ascii.eqb o "["); [intros [= <-]; split; reflexivity|].
  destruct (Ascii.eqb o "("); [intros [= <-]; split; reflexivity|].
  discriminate.
Qed.

Lemma balanced_loop_app (s t : string) (stack : list ascii) :
  Balanced s -> balanced_loop (s ++ t) stack = balanced_loop t stack.
Proof.
  intros H. revert t stack.
  induction H as [|c s Hb Hc _ IH|o c s r Ho _ IHs _ IHr]; intros t stack.
  - reflexivity.
  - cbn [append balanced_loop]. rewrite Hb, Hc. apply IH.
  - cbn [append balanced_loop]. rewrite Ho.
    rewrite str_app_assoc, IHs.
    destruct (BRACKETS_closer o c Ho) as [Hb Hc].
    cbn [append balanced_loop]. rewrite Hb, Hc. cbn [negb].
    rewrite Ascii.eqb_refl. apply IHr.
Qed.

Lemma Balanced_app (a b : string) :
  Balanced a -> Balanced b -> Balanced (a ++ b).
Proof.
  intros Ha Hb.
  induction Ha as [|c s H1 H2 _ IH|o c s r Ho Hs _ _ IHr].
  - exact Hb.
  - cbn [append]. now constructor.
  - cbn [append]. rewrite str_app_assoc. cbn [append].
    now apply Balanced_wrap.
Qed.

Lemma closes_prepend (stack : list ascii) (x r : string) :
  Balanced x -> closes stack r -> closes stack (x ++ r).
Proof.
  intros Hx. destruct stack as [|c stack]; cbn [closes].
  - now apply Balanced_app.
  - intros (w & r' & -> & Hw & Hr). exists (x ++ w), r'.
    split; [now rewrite str_app_assoc|]. split; [now apply Balanced_app | exact Hr].
Qed.

Lemma balanced_loop_closes (s : string) (stack : list ascii) :
  balanced_loop s stack = true -> closes stack s.
Proof.
  revert stack. induction s as [|ch s IH]; intros stack H.
  - destruct stack; [constructor | discriminate].
  - cbn [balanced_loop] in H. destruct (BRACKETS ch) as [d|] eqn:Eb.
    + destruct (IH _ H) as (w & r & -> & Hw & Hr).
      replace (String ch (w ++ String d r))
        with (String ch (w ++ String d EmptyString) ++ r)
        by (cbn [append]; now rewrite str_app_assoc).
      apply closes_prepend; [|exact Hr].
      apply Balanced_wrap; [exact Eb | exact Hw | constructor].
    + destruct (is_closer ch) eqn:Ec; cbn [negb] in H.
      * destruct stack as [|top stack]; [discriminate|].
        destruct (Ascii.eqb ch top) eqn:Et; [|discriminate].
        apply Ascii.eqb_eq in Et; subst top.
        exists EmptyString, s. split; [reflexivity|].
        split; [constructor | now apply IH].
      * change (String ch s) with (String ch EmptyString ++ s).
        apply closes_prepend; [|now apply IH].
        constructor; [exact Eb | exact Ec | constructor].
Qed.

(** X1: [balanced_brackets] accepts exactly the texts with properly nested
    brackets: every opening bracket closed by its own closer, in order, and
    no closer without its opening bracket. *)
Theorem balanced_brackets_iff_Balanced (line : string) :
  balanced_brackets line = true <-> Balanced line.
Proof.
  unfold balanced_brackets. split.
  - intros H. exact (balanced_loop_closes line [] H).
  - intros H. rewrite <- (str_app_empty_r line).
    now rewrite balanced_loop_app.
Qed.

Lemma balanced_loop_brackets_only (s : string) (stack : list ascii) :
  balanced_loop (brackets_only s) stack = balanced_loop s stack.
Proof.
  revert stack. induction s as [|c s IH]; intros stack; [reflexivity|].
  cbn [brackets_only balanced_loop].
  destruct (BRACKETS c) as [d|] eqn:Eb.
  - cbn [balanced_loop]. rewrite Eb. apply IH.
  - destruct (is_closer c) eqn:Ec; cbn [negb].
    + cbn [balanced_loop]. rewrite Eb, Ec. cbn [negb].
      destruct stack as [|top stack]; [reflexivity|].
      destruct (Ascii.eqb c top); [apply IH | reflexivity].
    + apply IH.
Qed.

(** X2: the characters that are no brackets play no part in the check. *)
Theorem balanced_brackets_ignores_other_characters (line : string) :
  balanced_brackets (brackets_only line) = balanced_brackets line.
Proof. apply balanced_loop_brackets_only. Qed.

(** ** What is written, and the error counter *)

Lemma extends_refl (s : state) : extends s s.
Proof.
  exists []. rewrite app_nil_r. repeat split; [constructor | lia | cbn; lia].
Qed.

Lemma extends_same (s s' : state) :
  printed s' = printed s -> num_errors s' = num_errors s -> extends s s'.
Proof.
  intros Hp Hn. exists []. rewrite app_nil_r, Hn.
  repeat split; [exact Hp | constructor | lia | cbn; lia].
Qed.

Lemma extends_trans (a b c : state) : extends a b -> extends b c -> extends a c.
Proof.
  intros (e1 & P1 & F1 & L1 & U1) (e2 & P2 & F2 & L2 & U2).
  exists (e1 ++ e2)%list. rewrite P2, P1, <- app_assoc, length_app.
  repeat split; [now apply Forall_app | lia | lia].
Qed.

Lemma extends_error (s : state) (text : string) :
  is_annotation (text ++ str1 nl) = true ->
  extends s (count_error (print text s)).
Proof.
  intros H. exists [text ++ str1 nl].
  repeat split; [repeat constructor; exact H | cbn; lia | cbn; lia].
Qed.

Lemma extends_print (s : state) (text : string) :
  is_annotation (text ++ str1 nl) = true -> extends s (print text s).
Proof.
  intros H. exists [text ++ str1 nl].
  repeat split; [repeat constructor; exact H | cbn; lia | cbn; lia].
Qed.

Lemma definition_source_extends (s : state) (line : string) :
  extends s (definition_source s line).
Proof.
  unfold definition_source.
  destruct (re_search re_definition line) as [m|]; [|apply extends_refl].
  cbn [set_definition definition].
  destruct (truthy (mgroup' 1 m)).
  - now apply extends_same.
  - eapply extends_trans; [|apply extends_error; reflexivity].
    now apply extends_same.
Qed.

Lemma restore_loop_extends (links : list string) (n : nat) (s s' : state)
      (text missing text' missing' : string) :
  restore_loop links n s text missing = Some (s', text', missing') ->
  extends s s'.
Proof.
  revert n s text missing.
  induction links as [|link links IH]; intros n s text missing H.
  - cbn [restore_loop] in H. injection H as <- _ _. apply extends_refl.
  - cbn [restore_loop] in H.
    destruct (re_sub1 (lit (token n)) link text) as [t|]; [|discriminate].
    destruct (String.eqb t text).
    + eapply extends_trans; [|apply (IH _ _ _ _ H)].
      apply extends_error. reflexivity.
    + apply (IH _ _ _ _ H).
Qed.

Section Output.
Variable provider : string -> string -> option string.

Lemma definition_directive_printed (s s' : state) (line line' : string) :
  definition_directive provider s line = Some (s', line') ->
  printed s' = printed s.
Proof.
  unfold definition_directive.
  destruct (re_search re_definition_translation line) as [m|];
    [|intros [= <- _]; reflexivity].
  destruct (negb (truthy (definition s))); [intros [= <- _]; reflexivity|].
  destruct (is_empty (resolve_language (mgroup' 1 m)));
    [intros [= <- _]; reflexivity|].
  cbv zeta.
  assert (Hp : printed (apply_override s m) = printed s).
  { unfold apply_override. destruct (mgroup 2 m) as [g|]; [|reflexivity].
    destruct (truthy g); reflexivity. }
  destruct (verbatim (definition (apply_override s m))).
  - destruct (re_sub _ _ _); [|discriminate]. intros [= <- _]. exact Hp.
  - destruct (truthy (translate provider _ _)).
    + destruct (re_sub re_content (">" ++ translate provider _ _ ++ _) line);
        [|discriminate].
      intros [= <- _]. exact Hp.
    + destruct (re_sub re_content ">TRANSLATE<" line); [|discriminate].
      intros [= <- _]. exact Hp.
Qed.

Lemma notes_source_printed (s s' : state) (line : string) :
  notes_source s line = Some s' -> printed s' = printed s.
Proof.
  unfold notes_source. destruct (notes_match s line) as [m|];
    [|intros [= <-]; reflexivity].
  destruct (shield _) as [[links notes']|]; [|discriminate].
  intros [= <-]. unfold accumulate.
  destruct (String.eqb _ _); [reflexivity|].
  destruct (negb _); reflexivity.
Qed.

Lemma notes_directive_extends (s s' : state) (line line' : string) :
  notes_directive provider s line = Some (s', line') -> extends s s'.
Proof.
  unfold notes_directive.
  destruct (re_search re_notes_translation line) as [m|];
    [|intros [= <- _]; apply extends_refl].
  destruct (negb (truthy (notes s))); [intros [= <- _]; apply extends_refl|].
  destruct (is_empty _); [intros [= <- _]; apply extends_refl|].
  cbv zeta.
  destruct (negb (truthy (translate provider (notes s) _))).
  - intros [= <- _]. now apply extends_same.
  - destruct (restore_loop _ _ _ _ _) as [[[s2 text] missing]|] eqn:E;
      [|discriminate].
    destruct (re_sub _ _ _); [|discriminate].
    intros [= <- _].
    eapply extends_trans; [|apply (restore_loop_extends _ _ _ _ _ _ _ _ E)].
    now apply extends_same.
Qed.

Lemma check_brackets_extends (s : state) (line : string) :
  extends s (check_brackets s line).
Proof.
  unfold check_brackets. destruct (negb (balanced_brackets line)).
  - apply extends_print. reflexivity.
  - apply extends_refl.
Qed.

Lemma process_fields_extends (s s' : state) (line line' : string) :
  process_fields provider s line = Some (s', line') -> extends s s'.
Proof.
  unfold process_fields.
  destruct (definition_directive provider (definition_source s line) line)
    as [[s1 line1]|] eqn:E1; [|discriminate].
  destruct (sort_attributes line1) as [line2|]; [|discriminate].
  destruct (notes_source s1 line2) as [s2|] eqn:E2; [|discriminate].
  destruct (notes_directive provider s2 line2) as [[s3 line3]|] eqn:E3;
    [|discriminate].
  intros [= <- _].
  eapply extends_trans; [apply definition_source_extends|].
  eapply extends_trans;
    [apply extends_same;
     [apply (definition_directive_printed _ _ _ _ E1)
     | apply (definition_directive_num_errors provider _ _ _ _ E1)]|].
  eapply extends_trans;
    [apply extends_same;
     [apply (notes_source_printed _ _ _ E2)
     | apply (notes_source_num_errors _ _ _ E2)]|].
  eapply extends_trans; [apply (notes_directive_extends _ _ _ _ E3)|].
  apply check_brackets_extends.
Qed.

(** One line of the file: annotations, then one line. *)
Lemma process_line_written (s s' : state) (line : string) :
  process_line provider s line = Some s' ->
  exists errs line',
    printed s' = (printed s ++ errs ++ [line'])%list /\
    Forall (fun e => is_annotation e = true) errs /\
    num_errors s <= num_errors s' /\
    num_errors s' <= num_errors s + length errs.
Proof.
  unfold process_line.
  set (s0 := if contains "<!-- " line then set_in_comment true s else s).
  assert (H0 : printed s0 = printed s /\ num_errors s0 = num_errors s)
    by (unfold s0; destruct (contains "<!-- " line); split; reflexivity).
  destruct H0 as [Hp0 Hn0].
  destruct (negb (in_comment s0)).
  - destruct (process_fields provider s0 line) as [[s1 line1]|] eqn:E;
      [|discriminate].
    intros [= <-].
    destruct (process_fields_extends _ _ _ _ E) as (errs & P & F & L & U).
    exists errs, line1.
    assert (Hs : forall b : bool, printed (if b then set_in_comment false s1 else s1)
                           = printed s1 /\
                           num_errors (if b then set_in_comment false s1 else s1)
                           = num_errors s1)
      by (intros []; split; reflexivity).
    destruct (Hs (contains " -->" line1)) as [Hp2 Hn2].
    cbn [print_raw printed num_errors]. unfold snoc.
    rewrite Hp2, Hn2, P, Hp0, <- app_assoc. rewrite Hn0 in L, U.
    repeat split; assumption.
  - intros [= <-]. exists [], line.
    assert (Hs : forall b : bool, printed (if b then set_in_comment false s0 else s0)
                           = printed s0 /\
                           num_errors (if b then set_in_comment false s0 else s0)
                           = num_errors s0)
      by (intros []; split; reflexivity).
    destruct (Hs (contains " -->" line)) as [Hp2 Hn2].
    cbn [print_raw printed num_errors]. unfold snoc.
    rewrite Hp2, Hn2, Hp0, Hn0.
    repeat split; [constructor | lia | cbn; lia].
Qed.

Lemma process_lines_written (lines : list string) (s s' : state) :
  process_lines provider s lines = Some s' ->
  exists outs,
    length outs = length lines /\
    printed s' = (printed s ++ written outs)%list /\
    Forall (fun o => Forall (fun e => is_annotation e = true) (fst o)) outs /\
    num_errors s <= num_errors s' /\
    num_errors s' <= num_errors s + length (flat_map fst outs).
Proof.
  revert s. induction lines as [|line lines IH]; intros s H.
  - cbn [process_lines] in H. injection H as <-. exists [].
    cbn. rewrite app_nil_r. repeat split; [constructor | lia | lia].
  - cbn [process_lines] in H.
    destruct (process_line provider s line) as [s1|] eqn:E; [|discriminate].
    destruct (process_line_written _ _ _ E) as (errs & line' & P & F & L & U).
    destruct (IH _ H) as (outs & Hl & P' & F' & L' & U').
    exists ((errs, line') :: outs).
    cbn [length written flat_map fst snd]. fold (written outs).
    rewrite length_app. repeat split.
    + now rewrite Hl.
    + rewrite P', P. now rewrite <- !app_assoc.
    + constructor; assumption.
    + lia.
    + lia.
Qed.

(** X3: one file: the text written is, for each line of the file in turn, the
    annotations of the line and then one line; every error counted has its
    annotation. *)
Theorem process_file_written (lines : list string) (s s' : state) :
  process_file provider s lines = Some s' ->
  exists outs,
    length outs = length lines /\
    printed s' = written outs /\
    Forall (fun o => Forall (fun e => is_annotation e = true) (fst o)) outs /\
    num_errors s <= num_errors s' /\
    num_errors s' <= num_errors s + length (flat_map fst outs).
Proof.
  unfold process_file. intros H.
  destruct (process_lines_written _ _ _ H) as (outs & Hl & P & F & L & U).
  exists outs. repeat split; assumption.
Qed.

Lemma written_length (outs : list (list string * string)) :
  length (written outs) = length outs + length (flat_map fst outs).
Proof.
  induction outs as [|[errs l] outs IH]; [reflexivity|].
  cbn [written flat_map fst snd length]. fold (written outs).
  rewrite !length_app, IH. cbn. lia.
Qed.

Lemma process_line_comment (s : state) (line : string) :
  in_comment s = true \/ contains "<!-- " line = true ->
  process_line provider s line =
  Some (print_raw line (set_in_comment (negb (contains " -->" line)) s)).
Proof.
  intros H. unfold process_line.
  assert (E : (if contains "<!-- " line then set_in_comment true s else s)
              = set_in_comment true s).
  { destruct (contains "<!-- " line); [reflexivity|].
    destruct H as [H | H]; [|discriminate].
    destruct s; cbn in H; subst; reflexivity. }
  rewrite E. cbn [set_in_comment in_comment negb].
  destruct (contains " -->" line); reflexivity.
Qed.

(** X5: a line inside a comment block, or one that opens a comment, is written
    as it is: no field is looked for, nothing else in the state changes, and
    the block is left when the line holds the end of a comment. *)
Theorem comment_line_passes_through (s : state) (line : string) :
  in_comment s = true \/ contains "<!-- " line = true ->
  process_line provider s line =
  Some (print_raw line (set_in_comment (negb (contains " -->" line)) s)).
Proof. exact (process_line_comment s line). Qed.
End Output.

Lemma process_file_written_witness :
  exists s' outs,
    process_file provider_id initial_state
      [column "definition" EmptyString; "a)" ++ str1 nl] = Some s' /\
    length outs = 2 /\
    printed s' = written outs /\
    num_errors s' <= length (flat_map fst outs).
Proof.
  pose (lines := [column "definition" EmptyString; "a)" ++ str1 nl]).
  pose (r := match process_file provider_id initial_state lines with
             | Some r => r
             | None => initial_state
             end).
  assert (Hr : process_file provider_id initial_state lines = Some r)
    by (vm_compute; reflexivity).
  destruct (process_file_written provider_id lines initial_state r Hr)
    as (outs & Hl & P & _ & _ & U).
  exists r, outs. split; [exact Hr|]. split; [exact Hl|].
  split; [exact P | exact U].
Defined.

Lemma comment_line_passes_through_witness :
  process_line provider_id initial_state
    ("<!-- <column name=" ++ str1 dq ++ "definition" ++ str1 dq ++ "></column>"
     ++ str1 nl)
  = Some (print_raw
            ("<!-- <column name=" ++ str1 dq ++ "definition" ++ str1 dq
             ++ "></column>" ++ str1 nl)
            (set_in_comment true initial_state)).
Proof.
  apply (comment_line_passes_through provider_id initial_state).
  right. reflexivity.
Defined.

(** ** Lines that are no fields *)

Lemma startswith_app_l (a b s : string) :
  startswith (a ++ b) s = true -> startswith a s = true.
Proof.
  revert s. induction a as [|c a IH]; intros s H; [now destruct s|].
  destruct s as [|d s]; [discriminate|]. cbn [append startswith] in *.
  apply andb_prop in H as [H1 H2]. now rewrite H1, (IH s H2).
Qed.

Lemma contains_app_l (a b s : string) :
  contains (a ++ b) s = true -> contains a s = true.
Proof.
  induction s as [|c s IH]; cbn [contains]; intros H.
  - apply orb_prop in H as [H | H]; [|discriminate].
    now rewrite (startswith_app_l a b _ H).
  - apply orb_prop in H as [H | H].
    + now rewrite (startswith_app_l a b _ H).
    + rewrite (IH H). apply orb_true_r.
Qed.

Lemma contains_absent_longer (a b s : string) :
  contains a s = false -> contains (a ++ b) s = false.
Proof.
  intros H. destruct (contains (a ++ b) s) eqn:E; [|reflexivity].
  apply contains_app_l in E. congruence.
Qed.

Lemma contains_tail (x : string) (c : ascii) (s : string) :
  contains x (String c s) = false -> contains x s = false.
Proof. cbn [contains]. intros H. now apply orb_false_elim in H as [_ H]. Qed.

Lemma contains_head (x : string) (s : string) :
  contains x s = false -> startswith x s = false.
Proof.
  intros H. destruct s; cbn [contains] in H;
    now apply orb_false_elim in H as [H _].
Qed.

Lemma mt_seq_lit {R : Type} (p : string) (r : regex) (s : string) (cs : caps)
      (cont : string -> caps -> option R) :
  startswith p s = false -> mt (RSeq (lit p) r) s cs cont = None.
Proof. intros H. cbn [mt]. now rewrite mt_lit, H. Qed.

(** A pattern that starts with a literal text finds nothing in a line that
    does not hold the text. *)
Lemma search_from_lit_head_absent (p : string) (r : regex) (s pre : string) :
  contains p s = false -> search_from (RSeq (lit p) r) pre s = None.
Proof.
  revert pre. induction s as [|c s IH]; intros pre H.
  - cbn [search_from]. unfold match_at.
    now rewrite mt_seq_lit by (now apply contains_head).
  - cbn [search_from]. unfold match_at.
    rewrite mt_seq_lit by (now apply contains_head).
    apply IH. now apply contains_tail in H.
Qed.

Lemma search_from_notes_absent (s pre : string) :
  contains "notes" s = false -> search_from re_notes pre s = None.
Proof.
  revert pre. induction s as [|c s IH]; intros pre H; [reflexivity|].
  pose proof (contains_tail _ _ _ H) as Ht.
  cbn [search_from].
  assert (E : match_at re_notes (String c s) = None).
  { unfold match_at, re_notes. cbn [rseq mt chr cls_match].
    destruct (Ascii.eqb c dq); [|reflexivity].
    now rewrite mt_lit, (contains_head _ _ Ht). }
  rewrite E. now apply IH.
Qed.

Lemma set_in_comment_same (s : state) (b : bool) :
  in_comment s = b -> set_in_comment b s = s.
Proof. destruct s; cbn; intros <-; reflexivity. Qed.

Lemma process_line_plain
        (provider : string -> string -> option string)
        (s : state) (line : string) :
  in_comment s = false ->
  contains "<!-- " line = false ->
  multiline_notes s = EmptyString ->
  contains "definition" line = false ->
  contains "part_of_speech" line = false ->
  contains "notes" line = false ->
  balanced_brackets line = true ->
  process_line provider s line = Some (print_raw line s).
Proof.
  intros Hc Hl Hm Hd Hp Hn Hb. unfold process_line.
  rewrite Hl, Hc. cbn [negb]. unfold process_fields.
  assert (E1 : definition_source s line = s).
  { unfold definition_source, re_search, re_definition. cbn [rseq].
    now rewrite search_from_lit_head_absent. }
  rewrite E1.
  assert (E2 : definition_directive provider s line = Some (s, line)).
  { unfold definition_directive, re_search, re_definition_translation.
    cbn [rseq]. rewrite search_from_lit_head_absent; [reflexivity|].
    now apply (contains_absent_longer "definition" "_"). }
  rewrite E2.
  assert (E3 : sort_attributes line = Some line).
  { unfold sort_attributes, re_search, re_pos. cbn [rseq].
    now rewrite search_from_lit_head_absent. }
  rewrite E3.
  assert (E4 : notes_source s line = Some s).
  { unfold notes_source, notes_match. rewrite Hm. cbn [is_empty].
    unfold re_search. now rewrite search_from_notes_absent. }
  rewrite E4.
  assert (E5 : notes_directive provider s line = Some (s, line)).
  { unfold notes_directive, re_search, re_notes_translation.
    cbn [rseq]. rewrite search_from_lit_head_absent; [reflexivity|].
    now apply (contains_absent_longer "notes" "_"). }
  rewrite E5. unfold check_brackets. rewrite Hb. cbn [negb].
  destruct (contains " -->" line); [|reflexivity].
  now rewrite set_in_comment_same.
Qed.

(** X6: a line outside a comment that holds none of the words by which the
    fields are known, while no notes are being accumulated, is written as it
    is, and nothing else in the state changes. *)
Theorem plain_line_passes_through
        (provider : string -> string -> option string)
        (s : state) (line : string) :
  in_comment s = false ->
  contains "<!-- " line = false ->
  multiline_notes s = EmptyString ->
  contains "definition" line = false ->
  contains "part_of_speech" line = false ->
  contains "notes" line = false ->
  balanced_brackets line = true ->
  process_line provider s line = Some (print_raw line s).
Proof. exact (process_line_plain provider s line). Qed.

Lemma plain_line_passes_through_witness :
  process_line provider_id initial_state ("  <table name=" ++ str1 dq ++ "mem"
                                          ++ str1 dq ++ ">" ++ str1 nl)
  = Some (print_raw ("  <table name=" ++ str1 dq ++ "mem" ++ str1 dq ++ ">"
                     ++ str1 nl) initial_state).
Proof.
  apply plain_line_passes_through; reflexivity.
Defined.

(** ** Languages without support, notes without links *)

Lemma dict_get_missing (m : list (string * string)) (k d : string) :
  mem_str k (map fst m) = false -> dict_get m k d = d.
Proof.
  induction m as [|[k' v] m IH]; [reflexivity|].
  cbn [map fst mem_str dict_get]. intros H.
  apply orb_false_elim in H as [H1 H2]. rewrite H1. now apply IH.
Qed.

Lemma dict_get_present (m : list (string * string)) (k d : string) :
  mem_str k (map fst m) = true -> In (k, dict_get m k d) m.
Proof.
  induction m as [|[k' v] m IH]; [discriminate|].
  cbn [map fst mem_str dict_get]. intros H.
  destruct (String.eqb k k') eqn:E.
  - apply String.eqb_eq in E; subst k'. now left.
  - right. now apply IH.
Qed.

(** The language asked of the provider: none for a code that is no key of
    the table; for a key, the code itself, its underscores read as hyphens,
    but for Hong Kong Chinese, which is asked as Taiwan Chinese. *)
Lemma resolve_language_spec (code : string) :
  resolve_language code =
  if supported code then
    if String.eqb (replace_all "_" "-" code) "zh-HK" then "zh-TW"
    else replace_all "_" "-" code
  else EmptyString.
Proof.
  unfold resolve_language, supported.
  destruct (mem_str _ _) eqn:E.
  - apply (dict_get_present _ _ EmptyString) in E.
    set (k := replace_all "_" "-" code) in *.
    set (v := dict_get supported_languages_map k EmptyString) in *.
    clearbody k v. cbn [supported_languages_map In] in E.
    repeat (destruct E as [E | E];
            [injection E as <- <-; reflexivity|]).
    contradiction.
  - now apply dict_get_missing.
Qed.

Section Unsupported.
Variable provider : string -> string -> option string.

(** X7: a directive for a language that the table does not hold is left alone:
    the line is kept as it is, the provider is not asked, and no error is
    written or counted. *)
Theorem unsupported_language_skipped (s : state) (line : string) :
  (forall m, re_search re_definition_translation line = Some m ->
             supported (mgroup' 1 m) = false) ->
  (forall m, re_search re_notes_translation line = Some m ->
             supported (mgroup' 1 m) = false) ->
  definition_directive provider s line = Some (s, line) /\
  notes_directive provider s line = Some (s, line).
Proof.
  intros Hd Hn. split.
  - unfold definition_directive.
    destruct (re_search re_definition_translation line) as [m|];
      [|reflexivity].
    rewrite resolve_language_spec, (Hd m eq_refl). cbn [is_empty].
    now destruct (negb (truthy (definition s))).
  - unfold notes_directive.
    destruct (re_search re_notes_translation line) as [m|]; [|reflexivity].
    rewrite resolve_language_spec, (Hn m eq_refl). cbn [is_empty].
    now destruct (negb (truthy (notes s))).
Qed.
End Unsupported.

Lemma unsupported_language_skipped_witness :
  definition_directive provider_id sample_state
    (column "definition_eo" "TRANSLATE")
  = Some (sample_state, column "definition_eo" "TRANSLATE") /\
  notes_directive provider_id sample_state (column "definition_eo" "TRANSLATE")
  = Some (sample_state, column "definition_eo" "TRANSLATE").
Proof.
  apply unsupported_language_skipped.
  - intros m Hm. vm_compute in Hm. injection Hm as <-. reflexivity.
  - intros m Hm. vm_compute in Hm. discriminate.
Defined.

Lemma match_at_link_head (c : ascii) (s : string) :
  Ascii.eqb c "{" = false -> Ascii.eqb c "[" = false ->
  match_at re_link (String c s) = None.
Proof.
  intros H1 H2. unfold match_at, re_link. cbn [rseq mt chr cls_match].
  now rewrite H1, H2.
Qed.

Lemma search_from_link_absent (s pre : string) :
  contains (str1 "{") s = false -> contains (str1 "[") s = false ->
  search_from re_link pre s = None.
Proof.
  revert pre. induction s as [|c s IH]; intros pre H1 H2; [reflexivity|].
  rewrite contains_char_cons in H1, H2.
  apply orb_false_elim in H1 as [H1 H1'].
  apply orb_false_elim in H2 as [H2 H2'].
  cbn [search_from].
  rewrite match_at_link_head by (now rewrite Ascii.eqb_sym).
  now apply IH.
Qed.

(** X8: notes without an opening brace or square bracket hold no link: the
    shield finds none and leaves them as they are. *)
Theorem shield_without_links (notes : string) :
  contains (str1 "{") notes = false ->
  contains (str1 "[") notes = false ->
  shield notes = Some ([], notes).
Proof.
  intros H1 H2. unfold shield, re_findall. cbn [findall_fuel].
  unfold re_search. now rewrite search_from_link_absent.
Qed.

Lemma shield_without_links_witness :
  shield "the usual greeting; see KGT p. 25" =
  Some ([], "the usual greeting; see KGT p. 25").
Proof. apply shield_without_links; reflexivity. Defined.

(** ** The links that the shield finds *)

Lemma star_some_run {R : Type} (k : cls) (s : string)
      (cont : string -> option R) (r : R) :
  star k s cont = Some r ->
  exists p q, s = p ++ q /\ all_match k p = true /\ cont q = Some r.
Proof.
  induction s as [|c s IH]; intros H.
  - exists EmptyString, EmptyString. repeat split. exact H.
  - cbn [star] in H. destruct (cls_match k c) eqn:Ec.
    + destruct (star k s cont) as [x|].
      * destruct (IH H) as (p & q & -> & Hp & Hq).
        exists (String c p), q. repeat split; [|exact Hq].
        cbn [all_match]. now rewrite Ec, Hp.
      * exists EmptyString, (String c s). repeat split. exact H.
    + exists EmptyString, (String c s). repeat split. exact H.
Qed.

Lemma search_from_matched (r : regex) (pre s : string) (f : found) :
  search_from r pre s = Some f ->
  exists p q, s = p ++ q /\ match_at r q = Some (after f, groups f) /\
              matched f = consumed q (after f).
Proof.
  revert pre; induction s as [|c s IH]; intros pre H.
  - cbn [search_from] in H.
    destruct (match_at r EmptyString) as [[s' cs]|] eqn:E; [|discriminate].
    injection H as <-. exists EmptyString, EmptyString. repeat split. exact E.
  - cbn [search_from] in H.
    destruct (match_at r (String c s)) as [[s' cs]|] eqn:E.
    + injection H as <-. exists EmptyString, (String c s).
      repeat split. exact E.
    + destruct (IH _ H) as (p & q & -> & Hq & Hm).
      exists (String c p), q. repeat split; assumption.
Qed.

(** What the pattern of a link matches at the start of a text. *)
Lemma match_at_link_shape (q s' : string) (cs : caps) :
  match_at re_link q = Some (s', cs) ->
  exists body,
    (q = "{" ++ body ++ "}" ++ s' /\
     all_match (CNot ["{"; "}"]%char) body = true) \/
    (q = "[" ++ body ++ "]" ++ s' /\
     all_match (CNot ["["; "]"]%char) body = true).
Proof.
  unfold match_at, re_link. cbn [rseq mt].
  destruct q as [|c q]; [discriminate|].
  cbn [chr mt cls_match].
  destruct (Ascii.eqb c "{") eqn:E1.
  - apply Ascii.eqb_eq in E1; subst c.
    destruct (star (CNot ["{"; "}"]%char) q _) as [x|] eqn:Es.
    + intros [= ->]. apply star_some_run in Es as (p & q2 & -> & Hp & Hq).
      destruct q2 as [|d q2]; [discriminate|].
      destruct (Ascii.eqb d "}") eqn:Ed; [|discriminate].
      apply Ascii.eqb_eq in Ed; subst d. injection Hq as <- _.
      exists p. left. split; [reflexivity | exact Hp].
    + replace (Ascii.eqb "{" "[") with false by reflexivity. discriminate.
  - destruct (Ascii.eqb c "[") eqn:E2; [|discriminate].
    apply Ascii.eqb_eq in E2; subst c.
    destruct (star (CNot ["["; "]"]%char) q _) as [x|] eqn:Es;
      [|discriminate].
    intros [= ->]. apply star_some_run in Es as (p & q2 & -> & Hp & Hq).
    destruct q2 as [|d q2]; [discriminate|].
    destruct (Ascii.eqb d "]") eqn:Ed; [|discriminate].
    apply Ascii.eqb_eq in Ed; subst d. injection Hq as <- _.
    exists p. right. split; [reflexivity | exact Hp].
Qed.

Lemma startswith_self_app (a b : string) : startswith a (a ++ b) = true.
Proof.
  induction a as [|c a IH]; [now destruct b|].
  cbn [append startswith]. now rewrite Ascii.eqb_refl, IH.
Qed.

Lemma findall_link_shape (fuel : nat) (s l : string) :
  In l (findall_fuel fuel re_link s) ->
  contains l s = true /\
  exists body,
    (l = "{" ++ body ++ "}" /\ all_match (CNot ["{"; "}"]%char) body = true) \/
    (l = "[" ++ body ++ "]" /\ all_match (CNot ["["; "]"]%char) body = true).
Proof.
  revert s. induction fuel as [|fuel IH]; intros s H; [contradiction|].
  cbn [findall_fuel] in H.
  destruct (re_search re_link s) as [f|] eqn:E; [|contradiction].
  destruct (is_empty (matched f)); [contradiction|].
  apply search_from_matched in E as (p & q & -> & Hq & Hm).
  destruct (match_at_link_shape _ _ _ Hq) as (body & Hs).
  destruct H as [<- | H].
  - rewrite Hm.
    destruct Hs as [[-> Hb] | [-> Hb]].
    + replace ("{" ++ body ++ "}" ++ after f)
        with (("{" ++ body ++ "}") ++ after f)
        by (now rewrite !str_app_assoc).
      rewrite consumed_app. split.
      * apply contains_app_r, contains_startswith, startswith_self_app.
      * exists body. now left.
    + replace ("[" ++ body ++ "]" ++ after f)
        with (("[" ++ body ++ "]") ++ after f)
        by (now rewrite !str_app_assoc).
      rewrite consumed_app. split.
      * apply contains_app_r, contains_startswith, startswith_self_app.
      * exists body. now right.
  - destruct (IH _ H) as [Hc Hb]. split; [|exact Hb].
    apply contains_app_r.
    assert (Eq : exists x, q = x ++ after f).
    { destruct Hs as [[-> _] | [-> _]].
      - exists ("{" ++ body ++ "}"). now rewrite !str_app_assoc.
      - exists ("[" ++ body ++ "]"). now rewrite !str_app_assoc. }
    destruct Eq as (x & ->). now apply contains_app_r.
Qed.

(** X9: every link that the shield finds is a part of the notes, and is a pair
    of braces around a text without braces, or a pair of square brackets
    around a text without square brackets. *)
Theorem links_found_are_spans (notes l : string) :
  In l (re_findall re_link notes) ->
  contains l notes = true /\
  exists body,
    (l = "{" ++ body ++ "}" /\ all_match (CNot ["{"; "}"]%char) body = true) \/
    (l = "[" ++ body ++ "]" /\ all_match (CNot ["["; "]"]%char) body = true).
Proof. apply findall_link_shape. Qed.

Lemma links_found_are_spans_witness :
  contains "{Qapla':excl}" "say {Qapla':excl} [2]" = true /\
  exists body,
    ("{Qapla':excl}" = "{" ++ body ++ "}" /\
     all_match (CNot ["{"; "}"]%char) body = true) \/
    ("{Qapla':excl}" = "[" ++ body ++ "]" /\
     all_match (CNot ["["; "]"]%char) body = true).
Proof.
  apply (links_found_are_spans "say {Qapla':excl} [2]").
  vm_compute. left. reflexivity.
Defined.

(** ** Translations without tokens *)

Lemma token_absent (n : nat) (text : string) :
  contains "DONOTTRANSLATE" text = false -> contains (token n) text = false.
Proof. intros H. unfold token. now apply contains_absent_longer. Qed.

Lemma restore_loop_all_missing (links : list string) (n : nat) (s : state)
      (text missing : string) :
  Forall (fun l => contains (str1 bsl) l = false) links ->
  contains "DONOTTRANSLATE" text = false ->
  exists s',
    restore_loop links n s text missing
      = Some (s', text, missing ++ join EmptyString links) /\
    num_errors s' = num_errors s + length links /\
    printed s' = (printed s ++
                  map (fun k => (err_link k ++ str1 nl)%string)
                      (seq n (length links)))%list /\
    calls s' = calls s.
Proof.
  intros Hl Ht. revert n s missing.
  induction Hl as [|link links Hb _ IH]; intros n s missing.
  - exists s. cbn. rewrite str_app_empty_r, app_nil_r.
    repeat split. lia.
  - rewrite restore_step_missing by (assumption || now apply token_absent).
    destruct (IH (S n) (count_error (print (err_link n) s)) (missing ++ link))
      as (s' & H1 & H2 & H3 & H4).
    exists s'. rewrite H1, H2, H3, H4.
    cbn [length seq map count_error print set_num_errors num_errors printed
         calls snoc].
    repeat split.
    + f_equal. f_equal. rewrite str_app_assoc. f_equal.
      destruct links; cbn [join append]; [now rewrite str_app_empty_r|].
      reflexivity.
    + lia.
    + unfold snoc. now rewrite <- app_assoc.
Qed.

(** X10: when the translation that comes back holds none of the tokens (the
    provider dropped them all, or the notes had no link), the notes line is
    rewritten to the translation, then every link in order, then the
    annotation; one error is counted for each link, and one request was
    made. *)
Theorem notes_translated_without_tokens
        (provider : string -> string -> option string)
        (s : state) (pre mid post : string) (m : found) :
  let line := pre ++ ">" ++ mid ++ "<" ++ post in
  let language := resolve_language (mgroup' 1 m) in
  let translation_text := translate provider (notes s) language in
  let text := if String.eqb language "zh-TW"
              then replace_all klingon_gong klingon_gang translation_text
              else translation_text in
  contains (str1 ">") pre = false ->
  all_match CDot mid = true ->
  contains (str1 "<") post = false ->
  re_search re_notes_translation line = Some m ->
  truthy (notes s) = true ->
  is_empty language = false ->
  truthy translation_text = true ->
  contains "DONOTTRANSLATE" translation_text = false ->
  Forall (fun l => contains (str1 bsl) l = false) (link_matches s) ->
  contains (str1 bsl) text = false ->
  exists s',
    notes_directive provider s line
      = Some (s', pre ++ ">" ++ text ++ join EmptyString (link_matches s)
                      ++ AUTOTRANSLATED ++ "<" ++ post) /\
    num_errors s' = num_errors s + length (link_matches s) /\
    calls s' = snoc (calls s) (notes s, language).
Proof.
  intros line language translation_text text
         Hpre Hmid Hpost Hm Hn Hl Ht Hd Hb Hbt.
  destruct (restore_loop_all_missing (link_matches s) 1
              (log_call (notes s) language s) translation_text EmptyString
              Hb Hd) as (s' & H1 & H2 & _ & H4).
  exists s'. split; [|split; [exact H2 | exact H4]].
  unfold notes_directive. rewrite Hm, Hn. cbn [negb].
  fold language. rewrite Hl. cbv zeta. fold translation_text.
  rewrite Ht. cbn [negb].
  change (link_matches (log_call (notes s) language s)) with (link_matches s).
  rewrite H1. cbn [append]. fold text.
  fold line. unfold line.
  rewrite re_sub_content_shape; try assumption.
  - f_equal. f_equal.
    change (String ">" (text ++ join EmptyString (link_matches s)
                             ++ AUTOTRANSLATED ++ "<") ++ post)
      with (String ">" ((text ++ join EmptyString (link_matches s)
                              ++ AUTOTRANSLATED ++ "<") ++ post)).
    f_equal. now rewrite !str_app_assoc.
  - change (">" ++ text ++ join EmptyString (link_matches s) ++ AUTOTRANSLATED ++ "<")
      with (String ">" (text ++ join EmptyString (link_matches s)
                             ++ AUTOTRANSLATED ++ "<")).
    rewrite contains_char_cons, !contains_char_app, Hbt.
    rewrite contains_char_join; [reflexivity | reflexivity | exact Hb].
Qed.

Lemma notes_translated_without_tokens_witness :
  exists s',
    notes_directive (provider_const "siehe") sample_state
      (column "notes_de" "TRANSLATE")
    = Some (s', column "notes_de" ("siehe{Qapla'}" ++ AUTOTRANSLATED)) /\
    num_errors s' = 1 /\
    calls s' = [("see DONOTTRANSLATE1", "de")].
Proof.
  pose (m := match re_search re_notes_translation (column "notes_de" "TRANSLATE") with
             | Some m => m
             | None => mkFound EmptyString EmptyString [] EmptyString
             end).
  destruct (notes_translated_without_tokens (provider_const "siehe")
              sample_state (column_pre "notes_de") "TRANSLATE" column_post m)
    as (s' & H1 & H2 & H3);
    try (vm_compute; reflexivity).
  - repeat constructor.
  - exists s'. split; [exact H1 | split; [exact H2 | exact H3]].
Defined.

(** ** The comparator as an order; definitions translated *)

(** X11: the comparator never answers 0; and on attributes that are decided
    to be no numbers it is a strict total order: no attribute is before
    itself, being before is transitive, and of two different attributes
    exactly one is before the other. *)
Theorem compare_attrs_orders_non_numbers :
  (forall x y z, compare_attrs x y = Some z -> z = (-1)%Z \/ z = 1%Z) /\
  (forall x, isdigit x = Some false -> compare_attrs x x = Some 1%Z) /\
  (forall x y z,
      isdigit x = Some false -> isdigit y = Some false ->
      isdigit z = Some false ->
      compare_attrs x y = Some (-1)%Z -> compare_attrs y z = Some (-1)%Z ->
      compare_attrs x z = Some (-1)%Z) /\
  (forall x y,
      isdigit x = Some false -> isdigit y = Some false -> x <> y ->
      (compare_attrs x y = Some (-1)%Z /\ compare_attrs y x = Some 1%Z) \/
      (compare_attrs x y = Some 1%Z /\ compare_attrs y x = Some (-1)%Z)).
Proof.
  split; [|split; [|split]].
  - intros x y z. unfold compare_attrs.
    destruct (isdigit x) as [[|]|]; [intros [= <-]; now left | | discriminate].
    destruct (isdigit y) as [[|]|]; [intros [= <-]; now right | | discriminate].
    cbv zeta. destruct (_ && _); [intros [= <-]; now left|].
    destruct (_ && _); [intros [= <-]; now right|].
    destruct (String.ltb x y); intros [= <-]; [now left | now right].
  - intros x Hx. unfold compare_attrs. rewrite Hx. cbv zeta.
    destruct (mem_str x important_attrs); cbn [andb negb];
      now rewrite ltb_irrefl.
  - intros x y z Hx Hy Hz. unfold compare_attrs.
    rewrite Hx, Hy, Hz. cbv zeta.
    destruct (mem_str x important_attrs), (mem_str y important_attrs),
      (mem_str z important_attrs); cbn [andb negb];
      try discriminate; try reflexivity;
      destruct (String.ltb x y) eqn:E1; try discriminate;
      destruct (String.ltb y z) eqn:E2; try discriminate;
      intros _ _; now rewrite (ltb_trans x y z E1 E2).
  - intros x y Hx Hy Hne. unfold compare_attrs. rewrite Hx, Hy. cbv zeta.
    rewrite (ltb_exactly_one x y Hne).
    destruct (mem_str x important_attrs), (mem_str y important_attrs);
      cbn [andb negb]; try (now left); try (now right);
      destruct (String.ltb y x); cbn [negb]; (now left) || (now right).
Qed.

Lemma compare_attrs_orders_non_numbers_witness :
  compare_attrs "t" "t" = Some 1%Z /\
  compare_attrs "i" "anatomy" = Some (-1)%Z /\
  ((compare_attrs "t" "anatomy" = Some (-1)%Z /\
    compare_attrs "anatomy" "t" = Some 1%Z) \/
   (compare_attrs "t" "anatomy" = Some 1%Z /\
    compare_attrs "anatomy" "t" = Some (-1)%Z)).
Proof.
  destruct compare_attrs_orders_non_numbers as (_ & H1 & H2 & H3).
  split; [|split].
  - apply H1. reflexivity.
  - apply (H2 "i" "t" "anatomy"); reflexivity.
  - apply H3; [reflexivity | reflexivity | discriminate].
Defined.

(** X12: when the provider answers a definition directive with a text, the
    content of the line makes way for the text followed by the annotation;
    one request was made, for the definition kept or the override, and no
    error is counted. *)
Theorem definition_translated
        (provider : string -> string -> option string)
        (s : state) (pre mid post : string) (m : found) :
  let line := pre ++ ">" ++ mid ++ "<" ++ post in
  let language := resolve_language (mgroup' 1 m) in
  let source := definition (apply_override s m) in
  let translation_text := translate provider source language in
  contains (str1 ">") pre = false ->
  all_match CDot mid = true ->
  contains (str1 "<") post = false ->
  re_search re_definition_translation line = Some m ->
  truthy (definition s) = true ->
  is_empty language = false ->
  verbatim source = false ->
  truthy translation_text = true ->
  contains (str1 bsl) translation_text = false ->
  exists s',
    definition_directive provider s line
      = Some (s', pre ++ ">" ++ translation_text ++ AUTOTRANSLATED ++ "<" ++ post) /\
    num_errors s' = num_errors s /\
    calls s' = snoc (calls s) (source, language).
Proof.
  intros line language source translation_text
         Hpre Hmid Hpost Hm Hd Hl Hv Ht Hb.
  exists (log_call source language (apply_override s m)).
  split; [|split].
  - unfold definition_directive. rewrite Hm, Hd. cbn [negb].
    fold language. rewrite Hl. cbv zeta. fold source. rewrite Hv.
    fold translation_text. rewrite Ht.
    unfold line. rewrite re_sub_content_shape; try assumption.
    + f_equal. f_equal. f_equal.
      change ((">" ++ translation_text ++ AUTOTRANSLATED ++ "<") ++ post)
        with (String ">" ((translation_text ++ AUTOTRANSLATED ++ "<") ++ post)).
      change (">" ++ translation_text ++ AUTOTRANSLATED ++ "<" ++ post)
        with (String ">" (translation_text ++ AUTOTRANSLATED ++ "<" ++ post)).
      f_equal. now rewrite !str_app_assoc.
    + change (">" ++ translation_text ++ AUTOTRANSLATED ++ "<")
        with (String ">" (translation_text ++ AUTOTRANSLATED ++ "<")).
      now rewrite contains_char_cons, !contains_char_app, Hb.
  - cbn [log_call num_errors]. apply num_errors_apply_override.
  - cbn [log_call calls]. now rewrite calls_apply_override.
Qed.

Lemma definition_translated_witness :
  exists s',
    definition_directive (provider_const "Werfer") sample_state
      (column "definition_de" "TRANSLATE")
    = Some (s', column "definition_de" ("Werfer" ++ AUTOTRANSLATED)) /\
    num_errors s' = 0 /\
    calls s' = [("launcher", "de")].
Proof.
  pose (m := match re_search re_definition_translation
                     (column "definition_de" "TRANSLATE") with
             | Some m => m
             | None => mkFound EmptyString EmptyString [] EmptyString
             end).
  destruct (definition_translated (provider_const "Werfer")
              sample_state (column_pre "definition_de") "TRANSLATE"
              column_post m)
    as (s' & H1 & H2 & H3);
    try (vm_compute; reflexivity).
  exists s'. split; [exact H1 | split; [exact H2 | exact H3]].
Defined.

(** ** The definition read from its line *)

Lemma match_at_definition_marker (s : string) (r : string * caps) :
  match_at re_definition s = Some r ->
  startswith (definition_marker ++ ">") s = true.
Proof.
  unfold match_at, re_definition. cbn [rseq mt]. rewrite mt_lit.
  destruct (startswith "definition" s) eqn:E; [|discriminate].
  apply startswith_app in E. intros H. rewrite E.
  destruct (drop (String.length "definition") s) as [|d1 s1]; [discriminate|].
  cbn [chr mt cls_match] in H.
  destruct (Ascii.eqb d1 dq) eqn:E1; [|discriminate].
  apply Ascii.eqb_eq in E1; subst d1.
  destruct s1 as [|d2 s2]; [discriminate|].
  destruct (Ascii.eqb d2 ">") eqn:E2; [|discriminate].
  apply Ascii.eqb_eq in E2; subst d2.
  reflexivity.
Qed.

Lemma match_at_definition_content (content : string) :
  match_at re_definition ((definition_marker ++ ">") ++ content) =
  star CDot content
       (fun s1 => mt (chr "<") s1 [(1, consumed content s1)]
                     (fun s' c => Some (s', c))).
Proof. reflexivity. Qed.

Lemma match_at_definition_shape (body post : string) :
  all_match CDot body = true ->
  contains (str1 "<") post = false ->
  match_at re_definition ((definition_marker ++ ">") ++ body ++ "<" ++ post)
  = Some (post, [(1, body)]).
Proof.
  intros Hb Hp. rewrite match_at_definition_content.
  change ("<" ++ post) with (String "<" post).
  apply star_stop_at; [exact Hb | reflexivity | |].
  - intros p q Hs. now apply (mt_chr_absent "<" post p q).
  - cbn [chr mt cls_match]. rewrite Ascii.eqb_refl.
    now rewrite (consumed_app body).
Qed.

Lemma search_from_definition_shape (pre0 p0 body post : string) :
  contains (str1 ">") p0 = false ->
  all_match CDot body = true ->
  contains (str1 "<") post = false ->
  exists f,
    search_from re_definition pre0
                (p0 ++ (definition_marker ++ ">") ++ body ++ "<" ++ post)
      = Some f /\
    groups f = [(1, body)].
Proof.
  intros Hp0 Hb Hpost. revert pre0.
  induction p0 as [|c p0 IH]; intros pre0.
  - change (EmptyString ++ (definition_marker ++ ">") ++ body ++ "<" ++ post)
      with (String "d" (drop 1 ((definition_marker ++ ">") ++ body ++ "<" ++ post))).
    cbn [search_from].
    change (String "d" (drop 1 ((definition_marker ++ ">") ++ body ++ "<" ++ post)))
      with ((definition_marker ++ ">") ++ body ++ "<" ++ post).
    rewrite (match_at_definition_shape body post Hb Hpost).
    eexists. split; reflexivity.
  - change (String c p0 ++ (definition_marker ++ ">") ++ body ++ "<" ++ post)
      with (String c (p0 ++ (definition_marker ++ ">") ++ body ++ "<" ++ post)).
    cbn [search_from].
    destruct (match_at re_definition
                (String c (p0 ++ (definition_marker ++ ">") ++ body ++ "<" ++ post)))
      as [r|] eqn:E.
    + apply match_at_definition_marker in E.
      change (String c (p0 ++ (definition_marker ++ ">") ++ body ++ "<" ++ post))
        with (String c p0 ++ (definition_marker ++ ">") ++ body ++ "<" ++ post) in E.
      apply startswith_shifted in E; [discriminate | reflexivity | exact Hp0].
    + apply IH. rewrite contains_char_cons in Hp0.
      now apply orb_false_elim in Hp0 as [_ Hp0].
Qed.

(** X13: on a definition line of the usual shape, the definition kept is the
    text between the marker and the last [<] of the line; when that text is
    empty the missing-definition annotation is written and one error is
    counted, and otherwise nothing is written or counted. *)
Theorem definition_captured (s : state) (p0 body post : string) :
  contains (str1 ">") p0 = false ->
  contains (str1 nl) body = false ->
  contains (str1 "<") post = false ->
  definition_source s (p0 ++ definition_marker ++ ">" ++ body ++ "<" ++ post) =
  if truthy body then set_definition body s
  else count_error (print err_definition (set_definition EmptyString s)).
Proof.
  intros Hp0 Hb Hpost. unfold definition_source, re_search.
  replace (p0 ++ definition_marker ++ ">" ++ body ++ "<" ++ post)
    with (p0 ++ (definition_marker ++ ">") ++ body ++ "<" ++ post)
    by (now rewrite !str_app_assoc).
  destruct (search_from_definition_shape EmptyString p0 body post Hp0
              (all_match_dot _ Hb) Hpost) as (f & -> & Hg).
  unfold mgroup', mgroup. rewrite Hg. cbn [group Nat.eqb].
  cbn [set_definition definition].
  destruct body; reflexivity.
Qed.

Lemma definition_captured_witness :
  definition_source initial_state (column "definition" "launcher")
  = set_definition "launcher" initial_state /\
  definition_source initial_state (column "definition" EmptyString)
  = count_error (print err_definition initial_state).
Proof.
  split.
  - apply (definition_captured initial_state ("<column name=" ++ str1 dq)
                               "launcher" column_post); reflexivity.
  - apply (definition_captured initial_state ("<column name=" ++ str1 dq)
                               EmptyString column_post); reflexivity.
Defined.

(** ** The notes read line by line *)

Lemma first_line_split (s : string) : s = first_line s ++ after_first_line s.
Proof.
  induction s as [|c s IH]; [reflexivity|].
  cbn [first_line after_first_line]. destruct (Ascii.eqb c nl); [reflexivity|].
  cbn [append]. now rewrite <- IH.
Qed.

Lemma star_dot_always {R : Type} (s : string) (cont : string -> option R)
      (r : R) :
  cont (after_first_line s) = Some r -> star CDot s cont = Some r.
Proof.
  induction s as [|c s IH]; [intros H; exact H|].
  cbn [star cls_match after_first_line].
  destruct (Ascii.eqb c nl); cbn [negb]; [intros H; exact H|].
  intros H. now rewrite (IH H).
Qed.

Lemma consumed_first_line (s : string) :
  consumed s (after_first_line s) = first_line s.
Proof. rewrite (first_line_split s) at 1. apply consumed_app. Qed.

Lemma match_at_any (s : string) :
  match_at re_any s = Some (after_first_line s, [(1, first_line s)]).
Proof.
  unfold match_at, re_any. cbn [mt].
  apply star_dot_always. now rewrite consumed_first_line.
Qed.

Lemma search_any (s : string) :
  exists f, re_search re_any s = Some f /\ groups f = [(1, first_line s)].
Proof.
  unfold re_search. destruct s as [|c s].
  - eexists. split; reflexivity.
  - cbn [search_from]. rewrite match_at_any. eexists. split; reflexivity.
Qed.

Lemma match_at_notes_marker (s : string) (r : string * caps) :
  match_at re_notes s = Some r -> startswith (notes_marker ++ ">") s = true.
Proof.
  unfold match_at, re_notes. cbn [rseq mt].
  destruct s as [|d0 s]; [discriminate|].
  cbn [chr mt cls_match].
  destruct (Ascii.eqb d0 dq) eqn:E0; [|discriminate].
  apply Ascii.eqb_eq in E0; subst d0.
  rewrite mt_lit.
  destruct (startswith "notes" s) eqn:E; [|discriminate].
  apply startswith_app in E. intros H. rewrite E.
  destruct (drop (String.length "notes") s) as [|d1 s1]; [discriminate|].
  cbn [chr mt cls_match] in H.
  destruct (Ascii.eqb d1 dq) eqn:E1; [|discriminate].
  apply Ascii.eqb_eq in E1; subst d1.
  destruct s1 as [|d2 s2]; [discriminate|].
  destruct (Ascii.eqb d2 ">") eqn:E2; [|discriminate].
  apply Ascii.eqb_eq in E2; subst d2.
  reflexivity.
Qed.

Lemma match_at_notes_content (rest : string) :
  match_at re_notes ((notes_marker ++ ">") ++ rest) =
  Some (after_first_line rest, [(1, first_line rest)]).
Proof.
  change (match_at re_notes ((notes_marker ++ ">") ++ rest))
    with (star CDot rest (fun s' => Some (s', [(1, consumed rest s')]))).
  apply star_dot_always. now rewrite consumed_first_line.
Qed.

Lemma search_from_notes_shape (pre0 p0 rest : string) :
  contains (str1 ">") p0 = false ->
  exists f,
    search_from re_notes pre0 (p0 ++ (notes_marker ++ ">") ++ rest) = Some f /\
    groups f = [(1, first_line rest)].
Proof.
  intros Hp0. revert pre0.
  induction p0 as [|c p0 IH]; intros pre0.
  - change (EmptyString ++ (notes_marker ++ ">") ++ rest)
      with (String dq (drop 1 ((notes_marker ++ ">") ++ rest))).
    cbn [search_from].
    change (String dq (drop 1 ((notes_marker ++ ">") ++ rest)))
      with ((notes_marker ++ ">") ++ rest).
    rewrite match_at_notes_content. eexists. split; reflexivity.
  - change (String c p0 ++ (notes_marker ++ ">") ++ rest)
      with (String c (p0 ++ (notes_marker ++ ">") ++ rest)).
    cbn [search_from].
    destruct (match_at re_notes (String c (p0 ++ (notes_marker ++ ">") ++ rest)))
      as [r|] eqn:E.
    + apply match_at_notes_marker in E.
      change (String c (p0 ++ (notes_marker ++ ">") ++ rest))
        with (String c p0 ++ (notes_marker ++ ">") ++ rest) in E.
      apply startswith_shifted in E; [discriminate | reflexivity | exact Hp0].
    + apply IH. rewrite contains_char_cons in Hp0.
      now apply orb_false_elim in Hp0 as [_ Hp0].
Qed.

(** The text that a line gives to the notes: while notes are accumulated,
    the line up to its newline, whatever it holds; otherwise, on a line with
    the notes marker, what follows the marker up to the newline. *)
Lemma notes_match_text (s : state) (line : string) :
  (is_empty (multiline_notes s) = false ->
   exists f, notes_match s line = Some f /\ mgroup' 1 f = first_line line) /\
  (forall p0 rest,
      is_empty (multiline_notes s) = true ->
      contains (str1 ">") p0 = false ->
      line = p0 ++ notes_marker ++ ">" ++ rest ->
      exists f, notes_match s line = Some f /\ mgroup' 1 f = first_line rest).
Proof.
  split.
  - intros H. unfold notes_match. rewrite H.
    destruct (search_any line) as (f & Hf & Hg). exists f.
    split; [exact Hf|]. unfold mgroup', mgroup. now rewrite Hg.
  - intros p0 rest H Hp0 ->. unfold notes_match, re_search. rewrite H.
    replace (p0 ++ notes_marker ++ ">" ++ rest)
      with (p0 ++ (notes_marker ++ ">") ++ rest) by (now rewrite !str_app_assoc).
    destruct (search_from_notes_shape EmptyString p0 rest Hp0) as (f & Hf & Hg).
    exists f. split; [exact Hf|]. unfold mgroup', mgroup. now rewrite Hg.
Qed.

Lemma notes_text_match (s : state) (line g : string) :
  notes_text s line g ->
  exists f, notes_match s line = Some f /\ mgroup' 1 f = g.
Proof.
  destruct (notes_match_text s line) as [Hc Hs].
  intros [[He ->] | [He (p0 & rest & Hp0 & Hl & ->)]].
  - exact (Hc He).
  - exact (Hs p0 rest He Hp0 Hl).
Qed.

Lemma shield_empty : shield EmptyString = Some ([], EmptyString).
Proof. vm_compute. reflexivity. Qed.

Lemma endswith_app (p a : string) : endswith p (a ++ p) = true.
Proof.
  unfold endswith. rewrite str_length_app.
  replace (String.length a + String.length p - String.length p)
    with (String.length a) by lia.
  rewrite drop_app_length, String.eqb_refl.
  apply andb_true_iff. split; [apply Nat.leb_le; lia | reflexivity].
Qed.

Lemma eqb_app_nonempty (body p : string) :
  is_empty body = false -> String.eqb (body ++ p) p = false.
Proof.
  intros H. apply String.eqb_neq. intros E.
  apply (f_equal String.length) in E. rewrite str_length_app in E.
  destruct body; [discriminate | cbn in E; lia].
Qed.

(** X14: a notes line whose text does not end with the terminator is put into
    the buffer with a newline after it, and leaves the notes and the links
    empty; this holds for the line that starts the notes and for every line
    read while the buffer is not empty, whatever the line holds. *)
Theorem notes_line_buffered (s : state) (line g : string) :
  notes_text s line g ->
  endswith column_end g = false ->
  exists s',
    notes_source s line = Some s' /\
    multiline_notes s' = multiline_notes s ++ g ++ str1 nl /\
    notes s' = EmptyString /\ link_matches s' = [] /\
    same_but_notes s s'.
Proof.
  intros Ht He. destruct (notes_text_match s line g Ht) as (f & Hf & Hg).
  unfold notes_source. rewrite Hf, Hg. unfold accumulate.
  assert (Hne : String.eqb g column_end = false).
  { destruct (String.eqb g column_end) eqn:E; [|reflexivity].
    apply String.eqb_eq in E. rewrite E in He. vm_compute in He. discriminate He. }
  rewrite Hne, He. cbn [negb].
  destruct s as [ne mn df nt ic lm pr cl].
  cbn [notes set_multiline_notes set_notes num_errors multiline_notes
       definition in_comment link_matches printed calls].
  rewrite shield_empty. eexists. split; [reflexivity|].
  unfold same_but_notes. cbn. repeat split.
Qed.

Lemma notes_line_buffered_witness :
  exists s',
    notes_source (set_multiline_notes "first" initial_state)
                 ("<column name=" ++ str1 dq ++ "definition" ++ str1 dq ++ ">x"
                  ++ str1 nl) = Some s' /\
    multiline_notes s' =
      "first" ++ ("<column name=" ++ str1 dq ++ "definition" ++ str1 dq ++ ">x")
      ++ str1 nl.
Proof.
  destruct (notes_line_buffered (set_multiline_notes "first" initial_state)
              ("<column name=" ++ str1 dq ++ "definition" ++ str1 dq ++ ">x"
               ++ str1 nl)
              ("<column name=" ++ str1 dq ++ "definition" ++ str1 dq ++ ">x"))
    as (s' & H1 & H2 & _).
  - left. split; reflexivity.
  - reflexivity.
  - exists s'. split; [exact H1 | exact H2].
Defined.

(** X15: a notes line whose text is a non-empty body followed by the
    terminator completes the notes: they are the buffer followed by the body,
    with the links shielded, and the buffer is emptied. *)
Theorem notes_line_completes (s : state) (line body notes' : string)
        (links : list string) :
  notes_text s line (body ++ column_end) ->
  is_empty body = false ->
  shield (multiline_notes s ++ body) = Some (links, notes') ->
  exists s',
    notes_source s line = Some s' /\
    multiline_notes s' = EmptyString /\
    notes s' = notes' /\ link_matches s' = links /\
    same_but_notes s s'.
Proof.
  intros Ht Hb Hs.
  destruct (notes_text_match s line _ Ht) as (f & Hf & Hg).
  unfold notes_source. rewrite Hf, Hg. unfold accumulate.
  rewrite (eqb_app_nonempty body column_end Hb), endswith_app.
  cbn [negb]. rewrite str_length_app.
  replace (String.length body + String.length column_end
           - String.length column_end) with (String.length body) by lia.
  rewrite take_app_length.
  destruct s as [ne mn df nt ic lm pr cl].
  cbn [notes set_multiline_notes set_notes num_errors multiline_notes
       definition in_comment link_matches printed calls] in *.
  rewrite Hs. eexists. split; [reflexivity|].
  unfold same_but_notes. cbn. repeat split.
Qed.

Lemma notes_line_completes_witness :
  exists s',
    notes_source initial_state
                 ("<column name=" ++ notes_marker ++ ">" ++
                  "see {Qo'noS:n}</column>" ++ str1 nl) = Some s' /\
    multiline_notes s' = EmptyString /\
    notes s' = "see DONOTTRANSLATE1" /\
    link_matches s' = ["{Qo'noS:n}"].
Proof.
  destruct (notes_line_completes initial_state
              ("<column name=" ++ notes_marker ++ ">" ++
               "see {Qo'noS:n}</column>" ++ str1 nl)
              "see {Qo'noS:n}" "see DONOTTRANSLATE1" ["{Qo'noS:n}"])
    as (s' & H1 & H2 & H3 & H4 & _).
  - right. split; [reflexivity|].
    exists "<column name=", ("see {Qo'noS:n}</column>" ++ str1 nl).
    repeat split; reflexivity.
  - reflexivity.
  - vm_compute. reflexivity.
  - exists s'. repeat split; assumption.
Defined.

(** X16: a notes line whose text is the terminator alone gives empty notes and
    no links, and leaves the buffer as it is: read while notes are
    accumulated, it does not end them. *)
Theorem notes_line_terminator_alone (s : state) (line : string) :
  notes_text s line column_end ->
  exists s',
    notes_source s line = Some s' /\
    multiline_notes s' = multiline_notes s /\
    notes s' = EmptyString /\ link_matches s' = [] /\
    same_but_notes s s'.
Proof.
  intros Ht.
  destruct (notes_text_match s line _ Ht) as (f & Hf & Hg).
  unfold notes_source. rewrite Hf, Hg. unfold accumulate.
  rewrite String.eqb_refl.
  destruct s as [ne mn df nt ic lm pr cl].
  cbn [notes set_multiline_notes set_notes num_errors multiline_notes
       definition in_comment link_matches printed calls].
  rewrite shield_empty. eexists. split; [reflexivity|].
  unfold same_but_notes. cbn. repeat split.
Qed.

Lemma notes_line_terminator_alone_witness :
  exists s',
    notes_source (set_multiline_notes ("first" ++ str1 nl) initial_state)
                 ("</column>" ++ str1 nl) = Some s' /\
    multiline_notes s' = "first" ++ str1 nl.
Proof.
  destruct (notes_line_terminator_alone
              (set_multiline_notes ("first" ++ str1 nl) initial_state)
              ("</column>" ++ str1 nl))
    as (s' & H1 & H2 & _).
  - left. split; reflexivity.
  - exists s'. split; [exact H1 | exact H2].
Defined.

(** ** Files without fields *)

Lemma process_lines_without_fields
      (provider : string -> string -> option string)
      (lines : list string) (s : state) :
  multiline_notes s = EmptyString ->
  without_fields (in_comment s) lines = true ->
  exists s',
    process_lines provider s lines = Some s' /\
    printed s' = (printed s ++ lines)%list /\
    num_errors s' = num_errors s /\ calls s' = calls s /\
    multiline_notes s' = EmptyString.
Proof.
  revert s. induction lines as [|line lines IH]; intros s Hm Hw.
  - exists s. cbn [process_lines]. rewrite app_nil_r. repeat split; assumption.
  - cbn [without_fields process_lines] in *.
    destruct (in_comment s || contains "<!-- " line) eqn:E.
    + rewrite (process_line_comment provider s line)
        by (apply orb_prop in E; exact E).
      destruct (IH (print_raw line
                      (set_in_comment (negb (contains " -->" line)) s)))
        as (s' & H1 & H2 & H3 & H4 & H5).
      * destruct s; exact Hm.
      * destruct s; exact Hw.
      * exists s'. split; [exact H1|]. rewrite H2, H3, H4.
        destruct s; cbn. unfold snoc. rewrite <- app_assoc.
        repeat split; assumption.
    + apply orb_false_elim in E as [Ec El].
      apply andb_prop in Hw as [Hw Hr]. apply andb_prop in Hw as [Hw Hb].
      apply andb_prop in Hw as [Hw Hn]. apply andb_prop in Hw as [Hd Hp].
      apply negb_true_iff in Hd, Hp, Hn.
      rewrite (process_line_plain provider s line Ec El Hm Hd Hp Hn Hb).
      destruct (IH (print_raw line s)) as (s' & H1 & H2 & H3 & H4 & H5).
      * destruct s; exact Hm.
      * destruct s; cbn in *. now rewrite Ec.
      * exists s'. split; [exact H1|]. rewrite H2, H3, H4.
        destruct s; cbn. unfold snoc. rewrite <- app_assoc.
        repeat split; assumption.
Qed.

(** X17: files in which every line is inside a comment, opens one, or holds none
    of the words by which the fields are known (and has its brackets nested)
    are written back line for line as they were: the provider is not asked,
    no error is counted and the buffer stays empty. *)
Theorem files_without_fields_unchanged
        (provider : string -> string -> option string)
        (files : list (list string)) (s : state) :
  multiline_notes s = EmptyString ->
  Forall (fun lines => without_fields false lines = true) files ->
  exists s',
    process_files provider s files = Some (s', files) /\
    num_errors s' = num_errors s /\ calls s' = calls s /\
    multiline_notes s' = EmptyString.
Proof.
  revert s. induction files as [|lines files IH]; intros s Hm Hf.
  - exists s. repeat split; assumption.
  - inversion Hf as [|? ? Hl Hr]; subst.
    cbn [process_files]. unfold process_file.
    destruct (process_lines_without_fields provider lines (begin_file s))
      as (s1 & H1 & H2 & H3 & H4 & H5).
    + destruct s; exact Hm.
    + destruct s; exact Hl.
    + rewrite H1.
      destruct (IH s1 H5 Hr) as (s' & G1 & G2 & G3 & G4).
      rewrite G1, H2. exists s'. split.
      * destruct s; reflexivity.
      * rewrite G2, G3, H3, H4. destruct s; repeat split; assumption.
Qed.

Lemma files_without_fields_unchanged_witness :
  exists s',
    process_files provider_down initial_state
      [ ["<!-- definition" ++ str1 nl; "notes -->" ++ str1 nl;
         "<table name=" ++ str1 dq ++ "mem" ++ str1 dq ++ ">" ++ str1 nl];
        ["(plain) [line]" ++ str1 nl] ] =
    Some (s',
      [ ["<!-- definition" ++ str1 nl; "notes -->" ++ str1 nl;
         "<table name=" ++ str1 dq ++ "mem" ++ str1 dq ++ ">" ++ str1 nl];
        ["(plain) [line]" ++ str1 nl] ]) /\
    num_errors s' = 0.
Proof.
  destruct (files_without_fields_unchanged provider_down
      [ ["<!-- definition" ++ str1 nl; "notes -->" ++ str1 nl;
         "<table name=" ++ str1 dq ++ "mem" ++ str1 dq ++ ">" ++ str1 nl];
        ["(plain) [line]" ++ str1 nl] ] initial_state)
    as (s' & H1 & H2 & _).
  - reflexivity.
  - constructor; [reflexivity|]. constructor; [reflexivity|]. constructor.
  - exists s'. split; [exact H1 | exact H2].
Defined.

(** ** The sort and the order of the line *)

Lemma attr_before_antisym (a b : string) :
  attr_before a b -> attr_before b a -> a = b.
Proof.
  unfold attr_before. intros [Hb Hab] [Ha Hba].
  destruct Hab as [Hab | Hab]; [congruence|].
  destruct Hba as [Hba | Hba]; [congruence|].
  destruct (string_dec a b) as [E | E]; [exact E | exfalso].
  pose proof (ltb_exactly_one a b E) as Hx.
  destruct Hab as [Hab | [Hab Hab']], Hba as [Hba | [Hba Hba']]; try lia.
  rewrite Hab', Hba' in Hx. discriminate Hx.
Qed.

Lemma sorted_attrs_unique (l1 l2 : list string) :
  StronglySorted attr_before l1 -> StronglySorted attr_before l2 ->
  Permutation l1 l2 -> l1 = l2.
Proof.
  revert l2. induction l1 as [|a t1 IH]; intros l2 H1 H2 Hp.
  - now apply Permutation_nil in Hp.
  - destruct l2 as [|b t2].
    + now apply Permutation_sym, Permutation_nil in Hp.
    + apply StronglySorted_inv in H1 as [H1 F1].
      apply StronglySorted_inv in H2 as [H2 F2].
      assert (E : a = b).
      { assert (Ia : In a (b :: t2))
          by (apply (Permutation_in _ Hp); now left).
        assert (Ib : In b (a :: t1))
          by (apply (Permutation_in _ (Permutation_sym Hp)); now left).
        destruct Ia as [Ia | Ia]; [now symmetry|].
        destruct Ib as [Ib | Ib]; [exact Ib|].
        rewrite Forall_forall in F1, F2.
        apply attr_before_antisym; [now apply F1 | now apply F2]. }
      subst b. f_equal. apply IH; try assumption.
      now apply Permutation_cons_inv in Hp.
Qed.

Lemma count_if_permutation {A : Type} (p : A -> bool) (l1 l2 : list A) :
  Permutation l1 l2 -> count_if p l1 = count_if p l2.
Proof.
  unfold count_if. intros Hp. apply Permutation_length.
  induction Hp as [|x l l' Hp IH|x y l|l l' l'' _ IH1 _ IH2]; cbn [filter].
  - reflexivity.
  - destruct (p x); [now constructor | exact IH].
  - destruct (p x), (p y); try reflexivity; try (now constructor).
  - now transitivity (filter p l').
Qed.

(** X18: the order in which the attributes stand in the line has no influence on
    the result of the sort: two lists with the same attributes, at most one
    of them a number, are sorted into the same list. *)
Theorem sorted_attrs_order_independent (attrs attrs' : list string) (n : nat) :
  numbers attrs = Some n ->
  n <= 1 ->
  Permutation attrs attrs' ->
  exists sorted,
    sorted_attrs attrs = Some sorted /\ sorted_attrs attrs' = Some sorted.
Proof.
  intros Hn Hle Hp.
  assert (Hn' : numbers attrs' = Some n).
  { apply numbers_spec in Hn as [Hd Hc].
    rewrite (numbers_decided attrs') by (apply (forallb_perm _ _ _ Hp Hd)).
    now rewrite <- (count_if_permutation number _ _ Hp), Hc. }
  destruct (sorted_attrs_canonical attrs n Hn Hle) as (s1 & E1 & _ & P1 & S1).
  destruct (sorted_attrs_canonical attrs' n Hn' Hle) as (s2 & E2 & _ & P2 & S2).
  exists s1. split; [exact E1|]. rewrite E2. f_equal.
  apply sorted_attrs_unique; try assumption.
  transitivity attrs'; [exact (Permutation_sym P2)|].
  transitivity attrs; [exact (Permutation_sym Hp) | exact P1].
Qed.

Lemma sorted_attrs_order_independent_witness :
  exists sorted,
    sorted_attrs ["t"; "klcp1"; "1"; "anatomy"] = Some sorted /\
    sorted_attrs ["klcp1"; "t"; "1"; "anatomy"] = Some sorted.
Proof.
  apply (sorted_attrs_order_independent
           ["t"; "klcp1"; "1"; "anatomy"] ["klcp1"; "t"; "1"; "anatomy"] 1).
  - vm_compute. reflexivity.
  - lia.
  - apply perm_swap.
Defined.

(** ** Tokens in, links back *)

Lemma startswith_app_cases (l a b : string) :
  startswith l (a ++ b) = true ->
  startswith l a = true \/
  exists l', l = a ++ l' /\ startswith l' b = true.
Proof.
  revert l. induction a as [|c a IH]; intros l H.
  - right. exists l. split; [reflexivity | exact H].
  - destruct l as [|d l]; [now left|].
    cbn [append startswith] in *. apply andb_prop in H as [H1 H2].
    apply Ascii.eqb_eq in H1; subst d.
    destruct (IH l H2) as [H | (l' & -> & H)].
    + left. now rewrite Ascii.eqb_refl, H.
    + right. exists l'. split; [reflexivity | exact H].
Qed.

Lemma startswith_prefix_app (l a b : string) :
  startswith l a = true -> startswith l (a ++ b) = true.
Proof.
  revert a. induction l as [|d l IH]; intros a H; [reflexivity|].
  destruct a as [|c a]; [discriminate|].
  cbn [append startswith] in *. apply andb_prop in H as [H1 H2].
  now rewrite H1, (IH a H2).
Qed.

Lemma replace_first_here (p t s : string) :
  startswith p s = true ->
  replace_first p t s = t ++ drop (String.length p) s.
Proof. intros H. destruct s; cbn [replace_first]; now rewrite H. Qed.

Lemma replace_first_next (p t : string) (c : ascii) (s : string) :
  startswith p (String c s) = false ->
  replace_first p t (String c s) = String c (replace_first p t s).
Proof. intros H. cbn [replace_first]. now rewrite H. Qed.

(** Where a text of the shape of a link starts, the pattern of a link has a
    match. *)
Lemma linkish_match (l s : string) :
  linkish l -> startswith l s = true -> match_at re_link s <> None.
Proof.
  intros (body & [[-> Hb] | [-> Hb]]) H; apply startswith_app in H;
    rewrite H; set (rest := drop _ s); clearbody rest; clear H.
  - replace (("{" ++ body ++ "}") ++ rest)
      with (String "{" (body ++ String "}" rest))
      by (cbn [append]; now rewrite str_app_assoc).
    unfold match_at, re_link. cbn [rseq mt chr cls_match].
    replace (Ascii.eqb "{" "{") with true by reflexivity.
    erewrite star_greedy; [discriminate | exact Hb | reflexivity].
  - replace (("[" ++ body ++ "]") ++ rest)
      with (String "[" (body ++ String "]" rest))
      by (cbn [append]; now rewrite str_app_assoc).
    unfold match_at, re_link. cbn [rseq mt chr cls_match].
    replace (Ascii.eqb "[" "{") with false by reflexivity.
    replace (Ascii.eqb "[" "[") with true by reflexivity.
    erewrite star_greedy; [discriminate | exact Hb | reflexivity].
Qed.

Lemma uint_no_char (c : ascii) (u : Decimal.uint) :
  is_digit_char c = false ->
  contains (str1 c) (DecimalString.NilEmpty.string_of_uint u) = false.
Proof.
  intros Hc.
  induction u; cbn [DecimalString.NilEmpty.string_of_uint]; try reflexivity;
    rewrite contains_char_cons, IHu, orb_false_r;
    destruct (Ascii.eqb_spec c "0"), (Ascii.eqb_spec c "1"),
      (Ascii.eqb_spec c "2"), (Ascii.eqb_spec c "3"), (Ascii.eqb_spec c "4"),
      (Ascii.eqb_spec c "5"), (Ascii.eqb_spec c "6"), (Ascii.eqb_spec c "7"),
      (Ascii.eqb_spec c "8"), (Ascii.eqb_spec c "9");
    subst; try discriminate Hc; try reflexivity.
Qed.

(** A token holds no character that is neither a digit nor a letter of its
    word. *)
Lemma token_no_char (c : ascii) (n : nat) :
  is_digit_char c = false ->
  contains (str1 c) "DONOTTRANSLATE" = false ->
  contains (str1 c) (token n) = false.
Proof.
  intros Hc Hw. unfold token, str_of_nat. rewrite contains_char_app, Hw.
  cbn [orb]. unfold DecimalString.NilZero.string_of_uint.
  destruct (Nat.to_uint n) eqn:E;
    try (rewrite contains_char_cons, orb_false_r;
         destruct (Ascii.eqb_spec c "0"); [subst; discriminate Hc | reflexivity]);
    rewrite <- E; now apply uint_no_char.
Qed.

(** The first occurrence of a text is not in a text without its first
    character. *)
Lemma replace_first_skip_chars (c : ascii) (l t p x : string) :
  contains (str1 c) p = false ->
  replace_first (String c l) t (p ++ x) = p ++ replace_first (String c l) t x.
Proof.
  induction p as [|d p IH]; intros H; [reflexivity|].
  rewrite contains_char_cons in H. apply orb_false_elim in H as [H1 H2].
  change (String d p ++ x) with (String d (p ++ x)).
  rewrite replace_first_next by (cbn [startswith]; now rewrite H1).
  now rewrite (IH H2).
Qed.

Lemma no_link_start_empty : no_link_start EmptyString.
Proof. intros l t x _ _. reflexivity. Qed.

Lemma no_link_start_app (p q : string) :
  no_link_start p -> no_link_start q -> no_link_start (p ++ q).
Proof.
  intros Hp Hq l t x Hl Hd.
  rewrite !str_app_assoc, (Hp l t _ Hl Hd), (Hq l t _ Hl Hd). reflexivity.
Qed.

Lemma no_link_start_token (n : nat) : no_link_start (token n).
Proof.
  intros l t x (body & [[-> _] | [-> _]]) _;
    apply replace_first_skip_chars; now apply token_no_char.
Qed.

(** A non-empty end of a text that ends with [d] holds [d]. *)
Lemma suffix_last (x y z : string) (d : ascii) :
  x ++ y = z ++ str1 d -> y <> EmptyString -> contains (str1 d) y = true.
Proof.
  revert z. induction x as [|c x IH]; intros z H Hy.
  - cbn [append] in H. subst y. rewrite contains_char_app.
    apply orb_true_iff. right.
    assert (Hd : contains (str1 d) (String d EmptyString) = true)
      by (rewrite contains_char_cons, Ascii.eqb_refl; reflexivity).
    exact Hd.
  - destruct z as [|e z].
    + cbn [append str1] in H. injection H as _ H.
      destruct x; [cbn [append] in H; contradiction | discriminate].
    + cbn [append] in H. injection H as _ H. now apply (IH z).
Qed.

Lemma prefix_no_char (c : ascii) (p s : string) :
  startswith p s = true -> contains (str1 c) s = false ->
  contains (str1 c) p = false.
Proof.
  intros H Hs. apply startswith_app in H. rewrite H in Hs.
  rewrite contains_char_app in Hs. now apply orb_false_elim in Hs as [Hs _].
Qed.

(** A text of the shape of a link, free of the word of the tokens, does not
    run from a text [g] into a token that follows it. *)
Lemma linkish_not_into_token (l g l' x : string) (n : nat) :
  linkish l -> contains "DONOTTRANSLATE" l = false ->
  l = g ++ l' -> l' <> EmptyString ->
  startswith l' (token n ++ x) = false.
Proof.
  intros Hl Hd -> Hl'.
  destruct (startswith l' (token n ++ x)) eqn:E; [exfalso | reflexivity].
  unfold token in E. rewrite str_app_assoc in E.
  apply startswith_app_cases in E as [E | (l2 & -> & _)].
  - destruct Hl as (body & [[Hb _] | [Hb _]]).
    + assert (Hc : contains (str1 "}") l' = true).
      { apply (suffix_last g l' ("{" ++ body) "}"); [|exact Hl'].
        rewrite Hb. now rewrite !str_app_assoc. }
      now rewrite (prefix_no_char "}" l' "DONOTTRANSLATE" E) in Hc.
    + assert (Hc : contains (str1 "]") l' = true).
      { apply (suffix_last g l' ("[" ++ body) "]"); [|exact Hl'].
        rewrite Hb. now rewrite !str_app_assoc. }
      now rewrite (prefix_no_char "]" l' "DONOTTRANSLATE" E) in Hc.
  - rewrite contains_app_r in Hd; [discriminate|].
    apply contains_startswith, startswith_self_app.
Qed.

(** The first match of the pattern of a link in a text: the text before it
    is passed over by the replacement of that link, and, with a token after
    it, by the replacement of every link. *)
Lemma search_link_gap (s pre : string) (f : found) :
  search_from re_link pre s = Some f ->
  exists g,
    before f = pre ++ g /\ s = g ++ matched f ++ after f /\
    linkish (matched f) /\
    (forall n, no_link_start (g ++ token n)) /\
    (forall t, replace_first (matched f) t s = g ++ t ++ after f).
Proof.
  revert pre. induction s as [|c s IH]; intros pre H.
  - cbn [search_from] in H.
    destruct (match_at re_link EmptyString) as [[s' cs]|] eqn:E;
      [|discriminate].
    apply match_at_link_shape in E as (body & [[E _] | [E _]]); discriminate.
  - cbn [search_from] in H.
    destruct (match_at re_link (String c s)) as [[s' cs]|] eqn:E.
    + injection H as <-. cbn [before matched after].
      exists EmptyString. rewrite str_app_empty_r.
      assert (Hm : exists m, String c s = m ++ s' /\ linkish m).
      { apply match_at_link_shape in E as (body & [[E Hb] | [E Hb]]).
        - exists ("{" ++ body ++ "}"). split.
          + rewrite E. now rewrite !str_app_assoc.
          + exists body. now left.
        - exists ("[" ++ body ++ "]"). split.
          + rewrite E. now rewrite !str_app_assoc.
          + exists body. now right. }
      destruct Hm as (m & Hs & Hm). rewrite Hs, consumed_app.
      repeat split.
      * exact Hm.
      * intros n. apply no_link_start_token.
      * intros t. rewrite replace_first_here by apply startswith_self_app.
        now rewrite drop_app_length.
    + destruct (IH _ H) as (g & Hb & Hs & Hm & Hn & Hr).
      exists (String c g). rewrite Hb, str_app_assoc.
      assert (Hno : forall l, linkish l ->
                      startswith l (String c g) = false).
      { intros l Hl. destruct (startswith l (String c g)) eqn:El;
          [exfalso | reflexivity].
        apply (linkish_match l (String c s) Hl); [|exact E].
        rewrite Hs. change (String c (g ++ matched f ++ after f))
          with (String c g ++ matched f ++ after f).
        now apply startswith_prefix_app. }
      repeat split.
      * now rewrite Hs at 1.
      * exact Hm.
      * intros n l t x Hl Hd.
        change ((String c g ++ token n) ++ x)
          with (String c ((g ++ token n) ++ x)).
        rewrite replace_first_next.
        -- now rewrite (Hn n l t x Hl Hd).
        -- destruct (startswith l (String c ((g ++ token n) ++ x))) eqn:El;
             [exfalso | reflexivity].
           rewrite str_app_assoc in El.
           change (String c (g ++ token n ++ x))
             with (String c g ++ token n ++ x) in El.
           apply startswith_app_cases in El as [El | (l' & El & El')].
           ++ now rewrite (Hno l Hl) in El.
           ++ destruct l' as [|d l'].
              ** rewrite str_app_empty_r in El. subst l.
                 pose proof (Hno _ Hl) as Hx.
                 rewrite <- (str_app_empty_r (String c g)) in Hx at 2.
                 now rewrite startswith_self_app in Hx.
              ** rewrite (linkish_not_into_token l (String c g) (String d l')
                            x n Hl Hd El) in El'; discriminate.
      * intros t. rewrite replace_first_next.
        -- now rewrite Hr.
        -- destruct (startswith (matched f) (String c s)) eqn:El;
             [exfalso | reflexivity].
           now apply (linkish_match _ _ Hm El).
Qed.

Lemma contains_prefix (x p q : string) :
  contains x (p ++ q) = false -> contains x p = false.
Proof.
  intros H. destruct (contains x p) eqn:E; [|reflexivity].
  rewrite <- H. clear H. symmetry.
  induction p as [|c p IH].
  - destruct x; [now destruct q | discriminate].
  - change (String c p ++ q) with (String c (p ++ q)).
    cbn [contains] in *. apply orb_prop in E as [E | E].
    + change (String c (p ++ q)) with (String c p ++ q).
      now rewrite (startswith_prefix_app _ _ q E).
    + rewrite (IH E). apply orb_true_r.
Qed.

Lemma contains_suffix (x p q : string) :
  contains x (p ++ q) = false -> contains x q = false.
Proof.
  intros H. destruct (contains x q) eqn:E; [|reflexivity].
  now rewrite (contains_app_r x p q E) in H.
Qed.

(** The pieces of the walk are the text, and their links are what
    [re_findall] returns. *)
Lemma findall_parts (fuel : nat) (notes : string) :
  findall_fuel fuel re_link notes
    = map snd (fst (parts_fuel fuel re_link notes)) /\
  notes = weave (fst (parts_fuel fuel re_link notes))
                (snd (parts_fuel fuel re_link notes)).
Proof.
  revert notes. induction fuel as [|fuel IH]; intros notes; [now split|].
  cbn [findall_fuel parts_fuel].
  destruct (re_search re_link notes) as [f|] eqn:E; [|now split].
  destruct (is_empty (matched f)); [now split|].
  destruct (IH (after f)) as [H1 H2].
  destruct (parts_fuel fuel re_link (after f)) as [parts tail].
  cbn [fst snd map weave] in *. split; [now rewrite H1|].
  apply search_link_gap in E as (g & Hb & Hs & _).
  cbn [append] in Hb. now rewrite Hb, <- H2.
Qed.

Lemma shield_loop_tokens (fuel : nat) :
  forall (n : nat) (notes p : string),
    contains "DONOTTRANSLATE" notes = false ->
    Forall plain_link (findall_fuel fuel re_link notes) ->
    no_link_start p ->
    shield_loop (findall_fuel fuel re_link notes) n (p ++ notes)
    = Some (p ++ weave (with_tokens n (fst (parts_fuel fuel re_link notes)))
                       (snd (parts_fuel fuel re_link notes))).
Proof.
  induction fuel as [|fuel IH]; intros n notes p Hd Hl Hp; [reflexivity|].
  cbn [findall_fuel parts_fuel] in *.
  destruct (re_search re_link notes) as [f|] eqn:E; [|reflexivity].
  destruct (is_empty (matched f)); [reflexivity|].
  apply Forall_cons_iff in Hl as [Hm Hl].
  apply search_link_gap in E as (g & Hb & Hs & Hk & Hn & Hr).
  cbn [append] in Hb.
  assert (Hda : contains "DONOTTRANSLATE" (after f) = false).
  { rewrite Hs in Hd. now apply contains_suffix, contains_suffix in Hd. }
  assert (Hdm : contains "DONOTTRANSLATE" (matched f) = false).
  { rewrite Hs in Hd. now apply contains_suffix, contains_prefix in Hd. }
  rewrite (shield_step _ _ _ _ Hm), (Hp _ _ _ Hk Hdm), Hr.
  specialize (IH (S n) (after f) (p ++ g ++ token n) Hda Hl
                 (no_link_start_app _ _ Hp (Hn n))).
  destruct (parts_fuel fuel re_link (after f)) as [parts tail].
  cbn [fst snd with_tokens weave] in *.
  rewrite Hb.
  replace (p ++ g ++ token n ++ after f)
    with ((p ++ g ++ token n) ++ after f) by (now rewrite !str_app_assoc).
  rewrite IH. now rewrite !str_app_assoc.
Qed.

(** The first occurrence of a token is not in a text without the word of
    the tokens, before that token. *)
Lemma replace_first_token (n : nat) (t p x : string) :
  contains "DONOTTRANSLATE" p = false ->
  replace_first (token n) t (p ++ token n ++ x) = p ++ t ++ x.
Proof.
  induction p as [|c p IH]; intros Hp.
  - cbn [append]. rewrite replace_first_here by apply startswith_self_app.
    now rewrite drop_app_length.
  - change (String c p ++ token n ++ x) with (String c (p ++ token n ++ x)).
    rewrite replace_first_next.
    + rewrite IH; [reflexivity|]. now apply contains_tail in Hp.
    + destruct (startswith (token n) (String c (p ++ token n ++ x))) eqn:E;
        [exfalso | reflexivity].
      unfold token in E at 1. apply startswith_app_l in E.
      change (String c (p ++ token n ++ x))
        with (String c p ++ token n ++ x) in E.
      apply startswith_app_cases in E as [E | (l' & El & E)].
      * apply contains_startswith in E. congruence.
      * destruct l' as [|d l'].
        -- rewrite str_app_empty_r in El. rewrite <- El in Hp.
           discriminate Hp.
        -- unfold token in E. cbn [append startswith] in E.
           apply andb_prop in E as [E _]. apply Ascii.eqb_eq in E. subst d.
           cbn [append] in El. injection El as _ El.
           assert (Hc : contains (str1 "D") (p ++ String "D" l') = false)
             by (now rewrite <- El).
           apply contains_suffix in Hc. rewrite contains_char_cons in Hc.
           discriminate Hc.
Qed.

Lemma restore_loop_tokens (parts : list (string * string)) :
  forall (n : nat) (s : state) (q tail missing : string),
    Forall (fun l => restorable l = true) (map snd parts) ->
    contains "DONOTTRANSLATE" (q ++ weave parts tail) = false ->
    restore_loop (map snd parts) n s
                 (q ++ weave (with_tokens n parts) tail) missing
    = Some (s, q ++ weave parts tail, missing).
Proof.
  induction parts as [|[g l] parts IH]; intros n s q tail missing Hl Hd;
    [reflexivity|].
  cbn [map snd with_tokens weave] in *.
  apply Forall_cons_iff in Hl as [Hr Hl].
  unfold restorable in Hr. apply andb_prop in Hr as [Hb Hs].
  apply negb_true_iff in Hb.
  rewrite (restore_step _ _ _ _ _ _ Hb Hs).
  replace (q ++ g ++ token n ++ weave (with_tokens (S n) parts) tail)
    with ((q ++ g) ++ token n ++ weave (with_tokens (S n) parts) tail)
    by (now rewrite !str_app_assoc).
  rewrite contains_app_r
    by (apply contains_startswith, startswith_self_app).
  rewrite replace_first_token.
  - replace ((q ++ g) ++ l ++ weave (with_tokens (S n) parts) tail)
      with ((q ++ g ++ l) ++ weave (with_tokens (S n) parts) tail)
      by (now rewrite !str_app_assoc).
    rewrite IH; [now rewrite !str_app_assoc | exact Hl |].
    now rewrite !str_app_assoc.
  - replace (q ++ g ++ l ++ weave parts tail)
      with ((q ++ g) ++ l ++ weave parts tail) in Hd
      by (now rewrite !str_app_assoc).
    now apply contains_prefix in Hd.
Qed.

Lemma all_plain_no_backslash (body : string) :
  all_plain body = true -> contains (str1 bsl) body = false.
Proof.
  induction body as [|c body IH]; intros H; [reflexivity|].
  cbn [all_plain] in H. apply andb_prop in H as [Hc H].
  rewrite contains_char_cons, (IH H), orb_false_r.
  destruct (Ascii.eqb_spec bsl c) as [<- | _]; [discriminate Hc | reflexivity].
Qed.

Lemma plain_link_restorable (l : string) :
  plain_link l -> restorable l = true.
Proof.
  intros (body & Hp & _ & [[-> _] | ->]); unfold restorable;
    apply andb_true_iff; split; try reflexivity; apply negb_true_iff.
  - change ("{" ++ body ++ "}") with (String "{" (body ++ "}")).
    rewrite contains_char_cons, contains_char_app.
    now rewrite (all_plain_no_backslash body Hp).
  - change ("[" ++ body ++ "]") with (String "[" (body ++ "]")).
    rewrite contains_char_cons, contains_char_app.
    now rewrite (all_plain_no_backslash body Hp).
Qed.



(** X20: links put back where their tokens stand: when the translation that comes
    back holds the tokens in their order, whatever the text around them, the
    notes line is rewritten to that text with each link in the place of its
    token, followed by the annotation; no error is counted, and one request
    was made. *)
Theorem notes_translated_with_tokens
        (provider : string -> string -> option string)
        (s : state) (pre mid post : string) (m : found)
        (parts : list (string * string)) (tail : string) :
  let line := pre ++ ">" ++ mid ++ "<" ++ post in
  let language := resolve_language (mgroup' 1 m) in
  let restored := weave parts tail in
  let text := if String.eqb language "zh-TW"
              then replace_all klingon_gong klingon_gang restored
              else restored in
  contains (str1 ">") pre = false ->
  all_match CDot mid = true ->
  contains (str1 "<") post = false ->
  re_search re_notes_translation line = Some m ->
  truthy (notes s) = true ->
  is_empty language = false ->
  link_matches s = map snd parts ->
  Forall (fun l => restorable l = true) (link_matches s) ->
  translate provider (notes s) language = weave (with_tokens 1 parts) tail ->
  truthy (weave (with_tokens 1 parts) tail) = true ->
  contains "DONOTTRANSLATE" restored = false ->
  contains (str1 bsl) text = false ->
  notes_directive provider s line
    = Some (log_call (notes s) language s,
            pre ++ ">" ++ text ++ AUTOTRANSLATED ++ "<" ++ post).
Proof.
  intros line language restored text
         Hpre Hmid Hpost Hm Hn Hl Hlinks Hr Ht Hne Hd Hbt.
  unfold notes_directive. rewrite Hm, Hn. cbn [negb].
  fold language. rewrite Hl. cbv zeta. rewrite Ht, Hne. cbn [negb].
  change (link_matches (log_call (notes s) language s)) with (link_matches s).
  rewrite Hlinks in *.
  pose proof (restore_loop_tokens parts 1 (log_call (notes s) language s)
                EmptyString tail EmptyString Hr Hd) as H1.
  cbn [append] in H1. rewrite H1. fold restored. fold text.
  cbn [append]. fold line. unfold line.
  rewrite re_sub_content_shape; try assumption.
  - f_equal. f_equal.
    change (String ">" (text ++ AUTOTRANSLATED ++ "<") ++ post)
      with (String ">" ((text ++ AUTOTRANSLATED ++ "<") ++ post)).
    change (">" ++ text ++ AUTOTRANSLATED ++ "<" ++ post)
      with (String ">" (text ++ AUTOTRANSLATED ++ "<" ++ post)).
    f_equal. now rewrite !str_app_assoc.
  - change (">" ++ text ++ AUTOTRANSLATED ++ "<")
      with (String ">" (text ++ AUTOTRANSLATED ++ "<")).
    rewrite contains_char_cons, !contains_char_app, Hbt. reflexivity.
Qed.

Lemma notes_translated_with_tokens_witness :
  notes_directive (provider_const "siehe DONOTTRANSLATE1 (Gruss)") sample_state
    (column "notes_de" "TRANSLATE")
  = Some (log_call "see DONOTTRANSLATE1" "de" sample_state,
          column "notes_de" ("siehe {Qapla'} (Gruss)" ++ AUTOTRANSLATED)).
Proof.
  pose (m := match re_search re_notes_translation (column "notes_de" "TRANSLATE") with
             | Some m => m
             | None => mkFound EmptyString EmptyString [] EmptyString
             end).
  apply (notes_translated_with_tokens
           (provider_const "siehe DONOTTRANSLATE1 (Gruss)")
           sample_state (column_pre "notes_de") "TRANSLATE" column_post m
           [("siehe ", "{Qapla'}")] " (Gruss)");
    try (vm_compute; reflexivity).
  repeat constructor.
Defined.

(** X21: the round trip of the notes: in notes without the word of the tokens,
    whose links are plain, the tokens are put in and, when the text comes
    back as it was sent, the restoration returns the notes as they were,
    with no link missing and no error counted. *)
Theorem links_round_trip (s : state) (notes : string) :
  contains "DONOTTRANSLATE" notes = false ->
  Forall plain_link (re_findall re_link notes) ->
  exists links shielded,
    shield notes = Some (links, shielded) /\
    restore_loop links 1 s shielded EmptyString
    = Some (s, notes, EmptyString).
Proof.
  intros Hd Hl. pose proof Hl as Hl'. unfold re_findall in Hl.
  destruct (findall_parts (S (String.length notes)) notes) as [Hf Hw].
  pose proof (shield_loop_tokens (S (String.length notes)) 1 notes EmptyString
                Hd Hl no_link_start_empty) as Hs.
  cbn [append] in Hs.
  set (parts := fst (parts_fuel (S (String.length notes)) re_link notes)) in *.
  set (tail := snd (parts_fuel (S (String.length notes)) re_link notes)) in *.
  exists (map snd parts), (weave (with_tokens 1 parts) tail). split.
  - unfold shield, re_findall. rewrite Hs. now rewrite Hf.
  - pose proof (restore_loop_tokens parts 1 s EmptyString tail EmptyString)
      as Hr.
    cbn [append] in Hr. rewrite <- Hw in Hr. apply Hr; [|exact Hd].
    rewrite <- Hf. eapply Forall_impl; [|exact Hl].
    intros l. apply plain_link_restorable.
Qed.

Lemma links_round_trip_witness :
  exists links shielded,
    shield "see {Qapla':excl} and [2]." = Some (links, shielded) /\
    restore_loop links 1 initial_state shielded EmptyString
    = Some (initial_state, "see {Qapla':excl} and [2].", EmptyString).
Proof.
  apply (links_round_trip initial_state "see {Qapla':excl} and [2].").
  - reflexivity.
  - replace (re_findall re_link "see {Qapla':excl} and [2].")
      with ["{Qapla':excl}"; "[2]"] by (vm_compute; reflexivity).
    constructor; [|constructor; [|constructor]].
    + exists "Qapla':excl". repeat split; try reflexivity.
      left. split; reflexivity.
    + exists "2". repeat split; try reflexivity. now right.
Defined.

(** ** The lines that are kept *)

Lemma contains_drop_head (c : ascii) (p s : string) :
  contains (String c p) s = true -> contains p s = true.
Proof.
  induction s as [|d s IH]; intros H.
  - cbn [contains startswith] in H. discriminate.
  - cbn [contains] in H. apply orb_prop in H as [H | H].
    + cbn [startswith] in H. apply andb_prop in H as [_ H].
      apply contains_startswith in H.
      cbn [contains]. rewrite H. apply orb_true_r.
    + cbn [contains]. rewrite (IH H). apply orb_true_r.
Qed.

(** A line that matches the definition directive holds the marker. *)
Lemma definition_translation_marker (line : string) (m : found) :
  re_search re_definition_translation line = Some m ->
  contains ">TRANSLATE" line = true.
Proof.
  intros H. apply search_from_some in H as (p & q & -> & H).
  apply contains_app_r.
  unfold match_at, re_definition_translation in H. cbn [rseq mt] in H.
  rewrite mt_lit in H.
  destruct (startswith "definition_" q); [|discriminate].
  destruct (drop (String.length "definition_") q) as [|c q1] eqn:Eq1;
    [discriminate|].
  destruct (cls_match CDot c); [|discriminate].
  apply star_some in H as (p2 & q2 & Hq & H).
  assert (Hq2 : contains ">TRANSLATE" q2 = true).
  { destruct q2 as [|d q3]; [discriminate|].
    cbn [chr mt cls_match] in H.
    destruct (Ascii.eqb d dq) eqn:Ed; [|discriminate].
    rewrite mt_lit in H.
    destruct (startswith ">TRANSLATE" q3) eqn:E3; [|discriminate].
    change (String d q3) with (String d EmptyString ++ q3).
    apply contains_app_r. now apply contains_startswith. }
  assert (Eq : q = take (String.length "definition_") q ++ String c (p2 ++ q2)).
  { rewrite <- Hq, <- Eq1. clear.
    generalize (String.length "definition_") as n. revert q.
    induction q as [|x q IH]; intros [|n]; cbn; try reflexivity.
    now rewrite <- IH. }
  rewrite Eq. apply contains_app_r.
  change (String c (p2 ++ q2)) with (String c p2 ++ q2).
  now apply contains_app_r.
Qed.

Section Kept.
Variable provider : string -> string -> option string.

(** The fields of an unmarked line leave the line as it is. *)
Lemma process_fields_unmarked (s s' : state) (line line' : string) :
  unmarked line = true ->
  process_fields provider s line = Some (s', line') -> line' = line.
Proof.
  unfold unmarked. intros Hu. apply andb_prop in Hu as [Ht Hp].
  apply negb_true_iff in Ht, Hp.
  unfold process_fields.
  assert (E1 : re_search re_definition_translation line = None).
  { destruct (re_search re_definition_translation line) as [m|] eqn:E;
      [|reflexivity].
    apply definition_translation_marker in E. congruence. }
  assert (E2 : re_search re_notes_translation line = None).
  { destruct (re_search re_notes_translation line) as [m|] eqn:E;
      [|reflexivity].
    apply notes_translation_marker, contains_drop_head in E.
    apply (contains_app_l ">TRANSLATE" "<") in E. congruence. }
  assert (E3 : sort_attributes line = Some line).
  { unfold sort_attributes, re_search, re_pos. cbn [rseq].
    now rewrite search_from_lit_head_absent. }
  unfold definition_directive. rewrite E1, E3.
  destruct (notes_source (definition_source s line) line) as [s2|];
    [|discriminate].
  unfold notes_directive. rewrite E2. now intros [= _ <-].
Qed.

Lemma process_line_kept (s s' : state) (line : string) :
  process_line provider s line = Some s' ->
  exists errs line',
    printed s' = (printed s ++ errs ++ [line'])%list /\
    Forall (fun e => is_annotation e = true) errs /\
    (unmarked line = true -> line' = line) /\
    num_errors s <= num_errors s'.
Proof.
  unfold process_line.
  set (s0 := if contains "<!-- " line then set_in_comment true s else s).
  assert (H0 : printed s0 = printed s /\ num_errors s0 = num_errors s)
    by (unfold s0; destruct (contains "<!-- " line); split; reflexivity).
  destruct H0 as [Hp0 Hn0].
  assert (Hs : forall (b : bool) (x : state),
             printed (if b then set_in_comment false x else x) = printed x /\
             num_errors (if b then set_in_comment false x else x)
             = num_errors x)
    by (intros [] x; split; reflexivity).
  destruct (negb (in_comment s0)).
  - destruct (process_fields provider s0 line) as [[s1 line1]|] eqn:E;
      [|discriminate].
    intros [= <-].
    destruct (process_fields_extends _ _ _ _ _ E) as (errs & P & F & L & U).
    exists errs, line1.
    destruct (Hs (contains " -->" line1) s1) as [Hp2 Hn2].
    cbn [print_raw printed num_errors]. unfold snoc.
    rewrite Hp2, Hn2, P, Hp0, <- app_assoc. rewrite Hn0 in L.
    repeat split; try assumption.
    intros Hu. apply (process_fields_unmarked _ _ _ _ Hu E).
  - intros [= <-]. exists [], line.
    destruct (Hs (contains " -->" line) s0) as [Hp2 Hn2].
    cbn [print_raw printed num_errors]. unfold snoc.
    rewrite Hp2, Hn2, Hp0, Hn0.
    repeat split; [constructor | lia].
Qed.

Lemma process_lines_kept (lines : list string) (s s' : state) :
  process_lines provider s lines = Some s' ->
  exists os,
    printed s' = (printed s ++ written os)%list /\ kept lines os /\
    num_errors s <= num_errors s'.
Proof.
  revert s. induction lines as [|line lines IH]; intros s H.
  - cbn [process_lines] in H. injection H as <-. exists [].
    cbn. rewrite app_nil_r. split; [reflexivity|]. split; [constructor | lia].
  - cbn [process_lines] in H.
    destruct (process_line provider s line) as [s1|] eqn:E; [|discriminate].
    destruct (process_line_kept _ _ _ E) as (errs & line' & P & F & K & L).
    destruct (IH _ H) as (os & P' & K' & L').
    exists ((errs, line') :: os).
    cbn [written flat_map fst snd]. fold (written os).
    split; [|split].
    + rewrite P', P. now rewrite <- !app_assoc.
    + constructor; [split; assumption | exact K'].
    + lia.
Qed.

(** X4: in a run that goes through, every file is written back as, for each
    of its lines in turn, annotations and then one line; the line written
    for a line without the text of a directive and without a part-of-speech
    column is that line as it was read; and the error counter never goes
    down from file to file. *)
Theorem process_files_counter_and_lines
        (files : list (list string)) (s s' : state) (outs : list (list string)) :
  process_files provider s files = Some (s', outs) ->
  num_errors s <= num_errors s' /\
  Forall2 (fun lines out => exists os, out = written os /\ kept lines os)
          files outs.
Proof.
  revert s s' outs. induction files as [|lines files IH]; intros s s' outs H.
  - cbn [process_files] in H. injection H as <- <-. split; [lia | constructor].
  - cbn [process_files] in H.
    destruct (process_file provider s lines) as [s1|] eqn:E; [|discriminate].
    destruct (process_files provider s1 files) as [[s2 outs']|] eqn:E';
      [|discriminate].
    injection H as <- <-.
    unfold process_file in E.
    destruct (process_lines_kept _ _ _ E) as (os & P & K & L).
    destruct (IH _ _ _ E') as [L' F'].
    split; [exact (Nat.le_trans _ _ _ L L')|].
    constructor; [|exact F']. exists os. split; [exact P | exact K].
Qed.
End Kept.

Lemma process_files_counter_and_lines_witness :
  exists s' outs,
    process_files (provider_const "Werfer (") initial_state
      [[column "definition" "launcher (";
        column "definition_de" "TRANSLATE"]]
    = Some (s', outs) /\
    num_errors initial_state <= num_errors s' /\
    Forall2 (fun lines out => exists os, out = written os /\ kept lines os)
      [[column "definition" "launcher (";
        column "definition_de" "TRANSLATE"]] outs.
Proof.
  pose (r := match process_files (provider_const "Werfer (") initial_state
                     [[column "definition" "launcher (";
                       column "definition_de" "TRANSLATE"]] with
             | Some r => r
             | None => (initial_state, [])
             end).
  assert (Hr : process_files (provider_const "Werfer (") initial_state
                 [[column "definition" "launcher (";
                   column "definition_de" "TRANSLATE"]]
               = Some (fst r, snd r)) by (vm_compute; reflexivity).
  exists (fst r), (snd r). split; [exact Hr|].
  exact (process_files_counter_and_lines (provider_const "Werfer (")
           _ initial_state (fst r) (snd r) Hr).
Defined.

(** ** What is sent, and what is passed through (C5, C6) *)

(** A notes line whose text is a body, not empty, and the terminator: the
    notes are the buffer and the body, shielded, and the buffer is emptied. *)
Lemma notes_source_completes (s : state) (line body notes' : string)
      (links : list string) :
  notes_text s line (body ++ column_end) ->
  is_empty body = false ->
  shield (multiline_notes s ++ body) = Some (links, notes') ->
  notes_source s line =
  Some (set_notes notes'
          (set_link_matches links
             (set_multiline_notes EmptyString
                (set_notes (multiline_notes s ++ body) s)))).
Proof.
  intros Ht Hb Hs.
  destruct (notes_text_match s line _ Ht) as (f & Hf & Hg).
  unfold notes_source. rewrite Hf, Hg. unfold accumulate.
  rewrite (eqb_app_nonempty body column_end Hb), endswith_app.
  cbn [negb]. rewrite str_length_app.
  replace (String.length body + String.length column_end
           - String.length column_end) with (String.length body) by lia.
  rewrite take_app_length.
  destruct s as [ne mn df nt ic lm pr cl].
  cbn [notes set_multiline_notes set_notes num_errors multiline_notes
       definition in_comment link_matches printed calls] in *.
  now rewrite Hs.
Qed.

(** The shield of notes with plain links, by the pieces of the notes. *)
Lemma shield_tokens (notes : string) :
  contains "DONOTTRANSLATE" notes = false ->
  Forall plain_link (re_findall re_link notes) ->
  exists parts tail,
    notes = weave parts tail /\
    map snd parts = re_findall re_link notes /\
    shield notes = Some (map snd parts, weave (with_tokens 1 parts) tail).
Proof.
  intros Hd Hl. unfold re_findall in *.
  destruct (findall_parts (S (String.length notes)) notes) as [Hf Hw].
  pose proof (shield_loop_tokens (S (String.length notes)) 1 notes EmptyString
                Hd Hl no_link_start_empty) as Hs.
  exists (fst (parts_fuel (S (String.length notes)) re_link notes)),
         (snd (parts_fuel (S (String.length notes)) re_link notes)).
  split; [exact Hw|]. split; [now rewrite Hf|].
  unfold shield, re_findall. cbn [append] in Hs. rewrite Hs. now rewrite Hf.
Qed.

Lemma is_empty_app (a b : string) :
  is_empty (a ++ b) = is_empty a && is_empty b.
Proof. now destruct a. Qed.

(** Notes that are not empty are not empty with tokens for their links. *)
Lemma with_tokens_nonempty (parts : list (string * string)) (tail : string)
      (n : nat) :
  is_empty (weave parts tail) = false ->
  is_empty (weave (with_tokens n parts) tail) = false.
Proof.
  destruct parts as [|[g l] parts]; [trivial|].
  intros _. cbn [with_tokens weave]. rewrite !is_empty_app.
  unfold token. cbn [append is_empty]. now rewrite andb_false_r.
Qed.

(** C5 (amended): when a notes line completes notes whose links are plain
    and which do not hold the word of the tokens, the notes kept are the
    notes with every link replaced, where it stands, by the token of its
    number, and every notes directive for a supported language that is
    reached with these notes sends exactly this text to the provider.  A
    definition directive sends its value, the stored definition or the
    override, as it is: the links of a definition are not replaced by
    tokens. *)
Theorem C5_notes_sent_shielded_definitions_sent_raw
        (provider : string -> string -> option string) :
  (forall s line body,
      notes_text s line (body ++ column_end) ->
      is_empty body = false ->
      contains "DONOTTRANSLATE" (multiline_notes s ++ body) = false ->
      Forall plain_link (re_findall re_link (multiline_notes s ++ body)) ->
      exists s1 parts tail,
        notes_source s line = Some s1 /\
        multiline_notes s ++ body = weave parts tail /\
        map snd parts = re_findall re_link (multiline_notes s ++ body) /\
        notes s1 = weave (with_tokens 1 parts) tail /\
        forall sd dline m s2 dline',
          notes sd = notes s1 ->
          re_search re_notes_translation dline = Some m ->
          is_empty (resolve_language (mgroup' 1 m)) = false ->
          notes_directive provider sd dline = Some (s2, dline') ->
          calls s2 = snoc (calls sd) (weave (with_tokens 1 parts) tail,
                                      resolve_language (mgroup' 1 m))) /\
  (forall s line m s' line',
      re_search re_definition_translation line = Some m ->
      truthy (definition s) = true ->
      is_empty (resolve_language (mgroup' 1 m)) = false ->
      verbatim (definition (apply_override s m)) = false ->
      definition_directive provider s line = Some (s', line') ->
      calls s' = snoc (calls s) (definition (apply_override s m),
                                 resolve_language (mgroup' 1 m))).
Proof.
  split.
  - intros s line body Ht Hb Hd Hl.
    destruct (shield_tokens _ Hd Hl) as (parts & tail & Hw & Hm & Hs).
    rewrite (notes_source_completes s line body _ _ Ht Hb Hs).
    eexists. exists parts, tail. split; [reflexivity|].
    split; [exact Hw|]. split; [exact Hm|].
    split; [destruct s; reflexivity|].
    intros sd dline m s2 dline' Hsd Hdm Hlang Hr.
    assert (Hn : notes sd = weave (with_tokens 1 parts) tail)
      by (rewrite Hsd; destruct s; reflexivity).
    assert (Htr : truthy (notes sd) = true).
    { rewrite Hn. unfold truthy. rewrite with_tokens_nonempty; [reflexivity|].
      rewrite <- Hw, is_empty_app, Hb. apply andb_false_r. }
    rewrite (notes_directive_calls provider sd s2 dline dline' m Hdm Htr
               Hlang Hr).
    now rewrite Hn.
  - intros s line m s' line'. apply definition_directive_calls.
Qed.

Lemma C5_notes_sent_shielded_definitions_sent_raw_witness :
  (exists s1 parts tail,
      notes_source initial_state (column "notes" "see {nuH:n} and [1]")
        = Some s1 /\
      "see {nuH:n} and [1]" = weave parts tail /\
      map snd parts = ["{nuH:n}"; "[1]"] /\
      notes s1 = weave (with_tokens 1 parts) tail /\
      forall s2 dline',
        notes_directive provider_id s1 (column "notes_de" "TRANSLATE")
          = Some (s2, dline') ->
        calls s2 = snoc (calls s1) (weave (with_tokens 1 parts) tail, "de")) /\
  (exists s' line',
      definition_directive provider_id sample_state
        (column "definition_de" "TRANSLATE") = Some (s', line') /\
      calls s' = [("launcher", "de")]).
Proof.
  destruct (C5_notes_sent_shielded_definitions_sent_raw provider_id)
    as (H1 & H2).
  split.
  - destruct (H1 initial_state (column "notes" "see {nuH:n} and [1]")
                "see {nuH:n} and [1]")
      as (s1 & parts & tail & Hs & Hw & Hm & Hn & Hc).
    + right. split; [reflexivity|].
      exists "<column name=", ("see {nuH:n} and [1]" ++ column_end ++ str1 nl).
      repeat split; reflexivity.
    + reflexivity.
    + reflexivity.
    + replace (re_findall re_link
                 (multiline_notes initial_state ++ "see {nuH:n} and [1]"))
        with ["{nuH:n}"; "[1]"] by (vm_compute; reflexivity).
      constructor; [|constructor; [|constructor]].
      * exists "nuH:n". repeat split; try reflexivity.
        left. split; reflexivity.
      * exists "1". repeat split; try reflexivity. now right.
    + exists s1, parts, tail. split; [exact Hs|]. split; [exact Hw|].
      split; [rewrite Hm; vm_compute; reflexivity|]. split; [exact Hn|].
      intros s2 dline' Hr.
      pose (m := match re_search re_notes_translation
                         (column "notes_de" "TRANSLATE") with
                 | Some m => m
                 | None => mkFound EmptyString EmptyString [] EmptyString
                 end).
      assert (Hdm : re_search re_notes_translation
                      (column "notes_de" "TRANSLATE") = Some m)
        by (vm_compute; reflexivity).
      exact (Hc s1 _ m s2 dline' eq_refl Hdm eq_refl Hr).
  - pose (line := column "definition_de" "TRANSLATE").
    pose (m := match re_search re_definition_translation line with
               | Some m => m
               | None => mkFound EmptyString EmptyString [] EmptyString
               end).
    pose (r := match definition_directive provider_id sample_state line with
               | Some r => r
               | None => (initial_state, EmptyString)
               end).
    assert (Hm : re_search re_definition_translation line = Some m)
      by (vm_compute; reflexivity).
    assert (Hl : is_empty (resolve_language (mgroup' 1 m)) = false)
      by (vm_compute; reflexivity).
    assert (Hv : verbatim (definition (apply_override sample_state m)) = false)
      by (vm_compute; reflexivity).
    assert (Hr : definition_directive provider_id sample_state line
                 = Some (fst r, snd r)) by (vm_compute; reflexivity).
    exists (fst r), (snd r). split; [exact Hr|].
    exact (H2 sample_state line m (fst r) (snd r) Hm eq_refl Hl Hv Hr).
Defined.

(** The pattern of a link at the start of a span in braces. *)
Lemma match_at_link_span (body rest : string) :
  all_match (CNot ["{"; "}"]%char) body = true ->
  match_at re_link (String "{" (body ++ String "}" rest))
  = Some (rest, [(1, String "{" (body ++ "}"))]).
Proof.
  intros Hb. unfold match_at, re_link. cbn [rseq mt chr cls_match].
  replace (Ascii.eqb "{" "{") with true by reflexivity.
  erewrite star_greedy; [| exact Hb | reflexivity].
  f_equal. f_equal. f_equal. f_equal.
  replace (String "{" (body ++ String "}" rest))
    with (String "{" (body ++ "}") ++ rest)
    by (cbn [append]; now rewrite str_app_assoc).
  apply consumed_app.
Qed.

Lemma startswith_refl (s : string) : startswith s s = true.
Proof.
  induction s as [|c s IH]; [reflexivity|].
  cbn [startswith]. now rewrite Ascii.eqb_refl.
Qed.

Lemma drop_all (s : string) : drop (String.length s) s = EmptyString.
Proof. induction s as [|c s IH]; [reflexivity | exact IH]. Qed.

(** Notes that are one plain span in braces: the one link found is the
    span, and the shield leaves its token. *)
Lemma shield_one_span (body : string) :
  all_match (CNot ["{"; "}"]%char) body = true ->
  plain_link ("{" ++ body ++ "}") ->
  shield ("{" ++ body ++ "}") = Some (["{" ++ body ++ "}"], token 1).
Proof.
  intros Hb Hp.
  assert (Hf : re_findall re_link ("{" ++ body ++ "}")
               = ["{" ++ body ++ "}"]).
  { unfold re_findall.
    change ("{" ++ body ++ "}") with (String "{" (body ++ String "}" EmptyString)).
    cbn [String.length findall_fuel]. unfold re_search at 1.
    cbn [search_from]. rewrite (match_at_link_span body EmptyString Hb).
    cbn [matched after].
    assert (Hc : consumed (String "{" (body ++ "}")) EmptyString
                 = String "{" (body ++ "}")).
    { rewrite <- (str_app_empty_r (String "{" (body ++ "}"))) at 1.
      apply consumed_app. }
    rewrite Hc. cbn [is_empty].
    f_equal; destruct (String.length (body ++ "}")); reflexivity. }
  unfold shield. rewrite Hf, (shield_step _ _ _ _ Hp). cbn [shield_loop].
  rewrite replace_first_here by apply startswith_refl.
  now rewrite drop_all, str_app_empty_r.
Qed.

(** What a rewritten line is, where the content was replaced. *)
Lemma re_sub_content_some (repl pre mid post line' : string) :
  contains (str1 ">") pre = false ->
  all_match CDot mid = true ->
  contains (str1 "<") post = false ->
  re_sub re_content repl (pre ++ ">" ++ mid ++ "<" ++ post) = Some line' ->
  line' = pre ++ repl ++ post.
Proof.
  intros Hpre Hmid Hpost H.
  assert (Hb : contains (str1 bsl) repl = false).
  { unfold re_sub, template in H.
    destruct (contains (str1 bsl) repl); [discriminate | reflexivity]. }
  rewrite (re_sub_content_shape repl pre mid post Hb Hpre Hmid Hpost) in H.
  now injection H as <-.
Qed.

(** A notes directive that the provider answers writes the annotation. *)
Lemma notes_directive_annotated
      (provider : string -> string -> option string)
      (s s' : state) (pre mid post line' : string) (m : found) :
  contains (str1 ">") pre = false ->
  all_match CDot mid = true ->
  contains (str1 "<") post = false ->
  re_search re_notes_translation (pre ++ ">" ++ mid ++ "<" ++ post) = Some m ->
  truthy (notes s) = true ->
  is_empty (resolve_language (mgroup' 1 m)) = false ->
  truthy (translate provider (notes s) (resolve_language (mgroup' 1 m)))
    = true ->
  notes_directive provider s (pre ++ ">" ++ mid ++ "<" ++ post)
    = Some (s', line') ->
  exists text, line' = pre ++ ">" ++ text ++ AUTOTRANSLATED ++ "<" ++ post.
Proof.
  intros Hpre Hmid Hpost Hm Hn Hl Ht. unfold notes_directive.
  rewrite Hm, Hn, Hl. cbn [negb]. cbv zeta. rewrite Ht. cbn [negb].
  destruct (restore_loop _ _ _ _ _) as [[[s2 text] missing]|];
    [|discriminate].
  set (text' := if String.eqb _ _ then _ else text).
  destruct (re_sub re_content _ _) as [l|] eqn:E; [|discriminate].
  intros [= _ <-].
  apply re_sub_content_some in E; try assumption.
  exists (text' ++ missing). rewrite E.
  change (">" ++ text' ++ missing ++ AUTOTRANSLATED ++ "<")
    with (String ">" (text' ++ missing ++ AUTOTRANSLATED ++ "<")).
  change (">" ++ (text' ++ missing) ++ AUTOTRANSLATED ++ "<" ++ post)
    with (String ">" ((text' ++ missing) ++ AUTOTRANSLATED ++ "<" ++ post)).
  change (String ">" (text' ++ missing ++ AUTOTRANSLATED ++ "<") ++ post)
    with (String ">" ((text' ++ missing ++ AUTOTRANSLATED ++ "<") ++ post)).
  now rewrite !str_app_assoc.
Qed.

(** C6 (amended): a definition directive for a supported language, reached
    with a definition kept, whose value (the override of the directive, or
    else the definition kept) starts with an opening brace, ends with a
    closing brace and holds no backslash, makes no request to the provider,
    counts no error, and puts the value as it is, with no annotation, in
    place of the content of the line.  Notes have no such passthrough:
    notes that are one span in braces, with a plain body, are kept as the
    token of the span; every notes directive for a supported language that
    is reached with these notes sends the token to the provider, and the
    line that is written once the provider has answered carries the
    annotation. *)
Theorem C6_verbatim_definition_passthrough
        (provider : string -> string -> option string) :
  (forall s pre mid post m,
      contains (str1 ">") pre = false ->
      all_match CDot mid = true ->
      contains (str1 "<") post = false ->
      re_search re_definition_translation (pre ++ ">" ++ mid ++ "<" ++ post)
        = Some m ->
      truthy (definition s) = true ->
      is_empty (resolve_language (mgroup' 1 m)) = false ->
      verbatim (definition (apply_override s m)) = true ->
      contains (str1 bsl) (definition (apply_override s m)) = false ->
      definition_directive provider s (pre ++ ">" ++ mid ++ "<" ++ post)
        = Some (apply_override s m,
                pre ++ ">" ++ definition (apply_override s m) ++ "<" ++ post) /\
      calls (apply_override s m) = calls s /\
      num_errors (apply_override s m) = num_errors s) /\
  (forall s line body,
      notes_text s line (("{" ++ body ++ "}") ++ column_end) ->
      multiline_notes s = EmptyString ->
      all_match (CNot ["{"; "}"]%char) body = true ->
      plain_link ("{" ++ body ++ "}") ->
      exists s1,
        notes_source s line = Some s1 /\
        notes s1 = token 1 /\
        link_matches s1 = ["{" ++ body ++ "}"] /\
        forall sd pre mid post m s2 dline',
          notes sd = notes s1 ->
          contains (str1 ">") pre = false ->
          all_match CDot mid = true ->
          contains (str1 "<") post = false ->
          re_search re_notes_translation (pre ++ ">" ++ mid ++ "<" ++ post)
            = Some m ->
          is_empty (resolve_language (mgroup' 1 m)) = false ->
          notes_directive provider sd (pre ++ ">" ++ mid ++ "<" ++ post)
            = Some (s2, dline') ->
          calls s2 = snoc (calls sd) (token 1, resolve_language (mgroup' 1 m)) /\
          (truthy (translate provider (token 1)
                     (resolve_language (mgroup' 1 m))) = true ->
           exists text,
             dline' = pre ++ ">" ++ text ++ AUTOTRANSLATED ++ "<" ++ post)).
Proof.
  split.
  - intros s pre mid post m Hpre Hmid Hpost Hm Hd Hl Hv Hb.
    split; [|split].
    + rewrite (definition_directive_verbatim provider s _ m Hm Hd Hl Hv).
      rewrite (re_sub_content_shape _ pre mid post); [|
        change (">" ++ definition (apply_override s m) ++ "<")
          with (String ">" (definition (apply_override s m) ++ "<"));
        rewrite contains_char_cons, contains_char_app, Hb; reflexivity
        | assumption | assumption | assumption].
      now rewrite !str_app_assoc.
    + apply calls_apply_override.
    + apply num_errors_apply_override.
  - intros s line body Ht Hmn Hb Hp.
    pose proof (shield_one_span body Hb Hp) as Hs.
    assert (Hs' : shield (multiline_notes s ++ "{" ++ body ++ "}")
                  = Some (["{" ++ body ++ "}"], token 1))
      by (rewrite Hmn; exact Hs).
    rewrite (notes_source_completes s line _ _ _ Ht eq_refl Hs').
    eexists. split; [reflexivity|].
    split; [destruct s; reflexivity|]. split; [destruct s; reflexivity|].
    intros sd pre mid post m s2 dline' Hsd Hpre Hmid Hpost Hm Hl Hr.
    assert (Hn : notes sd = token 1) by (rewrite Hsd; destruct s; reflexivity).
    assert (Htr : truthy (notes sd) = true) by (now rewrite Hn).
    split.
    + rewrite (notes_directive_calls provider sd s2 _ dline' m Hm Htr Hl Hr).
      now rewrite Hn.
    + intros Ha.
      apply (notes_directive_annotated provider sd s2 pre mid post dline' m);
        try assumption.
      now rewrite Hn.
Qed.

Lemma C6_verbatim_definition_passthrough_witness :
  (exists s',
      definition_directive provider_id sample_state
        (column "definition_de" "TRANSLATE: {Qapla'}")
      = Some (s', column "definition_de" "{Qapla'}") /\
      calls s' = [] /\ num_errors s' = 0) /\
  (exists s1,
      notes_source initial_state (column "notes" "{Qapla'}") = Some s1 /\
      notes s1 = token 1 /\
      forall s2 dline',
        notes_directive provider_id s1 (column "notes_de" "TRANSLATE")
          = Some (s2, dline') ->
        calls s2 = snoc (calls s1) (token 1, "de") /\
        exists text,
          dline' = column_pre "notes_de" ++ ">" ++ text ++ AUTOTRANSLATED
                   ++ "<" ++ column_post).
Proof.
  destruct (C6_verbatim_definition_passthrough provider_id) as [HD HN].
  split.
  - edestruct (HD sample_state (column_pre "definition_de")
                  "TRANSLATE: {Qapla'}" column_post)
      as (H1 & H2 & H3);
      [reflexivity | reflexivity | reflexivity | vm_compute; reflexivity
       | reflexivity | reflexivity | reflexivity | reflexivity |].
    eexists. split; [exact H1 | split; [exact H2 | exact H3]].
  - destruct (HN initial_state (column "notes" "{Qapla'}") "Qapla'")
      as (s1 & Hs & Hn & _ & Hc).
    + right. split; [reflexivity|].
      exists "<column name=", ("{Qapla'}" ++ column_end ++ str1 nl).
      repeat split; reflexivity.
    + reflexivity.
    + reflexivity.
    + exists "Qapla'". repeat split; try reflexivity.
      left. split; reflexivity.
    + exists s1. split; [exact Hs|]. split; [exact Hn|].
      intros s2 dline' Hr.
      pose (m := match re_search re_notes_translation
                         (column "notes_de" "TRANSLATE") with
                 | Some m => m
                 | None => mkFound EmptyString EmptyString [] EmptyString
                 end).
      assert (Hm : re_search re_notes_translation
                     (column_pre "notes_de" ++ ">" ++ "TRANSLATE" ++ "<"
                      ++ column_post) = Some m)
        by (vm_compute; reflexivity).
      destruct (Hc s1 (column_pre "notes_de") "TRANSLATE" column_post m s2
                  dline' eq_refl eq_refl eq_refl eq_refl Hm eq_refl Hr)
        as [Hcalls Hann].
      split; [exact Hcalls|]. apply Hann. reflexivity.
Defined.
